(** * UltRank tiering: a shallow embedding of [ultrank_tiering.py]

    The development follows the Python module top-down: helper value
    classes, the player-value registry, the tiering result, the region
    matcher, the entrant/DQ reconciler and finally [Tournament] with
    [calculate_tier].

    Modelling conventions.
    - Python [int] is [Z]; [datetime.date] is [Z] (the proleptic ordinal,
      which has the same order); [str] is [string].
    - A Python [dict] whose iteration order is observed ([scored_players],
      [dq_list], the score tables of [max_potential_score]) is an
      insertion-ordered association list with unique keys.  The geocoder
      address, only ever read with [.get], is a [gmap string string];
      [scored_tags], only ever tested for membership, is a [gset string].
    - A Python [set] that is iterated ([region_mults], [participants]) is
      the list of its elements in iteration order.
    - An exception is a value of type [exn]; fallible code returns
      [exn + A]. *)

From Stdlib Require Import ZArith Lia Permutation Sorted Ascii.
From stdpp Require Import base option list gmap strings.

Open Scope string_scope.
Open Scope Z_scope.

(** ** Identities and dates *)

(** A registry key is either a numeric start.gg id or, when the table has
    no id, the player's tag ([id_ = row['Player']]). *)
Inductive ident : Type :=
| IdNum (n : Z)
| IdTag (s : string).

#[global] Instance ident_eq_dec : EqDecision ident.
Proof. solve_decision. Defined.

Definition date : Type := Z.

(** ** Exceptions *)

Inductive exn : Type :=
| InvalidEventUrlException
| AttributeError (attr : string)
| TypeError
| CollaboratorError (msg : string).

Definition bind_exn {A B : Type} (m : exn + A) (k : A -> exn + B) : exn + B :=
  match m with
  | inl e => inl e
  | inr a => k a
  end.

(** ** Insertion-ordered dictionaries *)

Section Dict.
Context {K V : Type} `{EqDecision K}.

Definition dict : Type := list (K * V).

Fixpoint dict_get (k : K) (d : dict) : option V :=
  match d with
  | [] => None
  | (k', v) :: rest => if decide (k = k') then Some v else dict_get k rest
  end.

(** [k in d] *)
Definition dict_mem (k : K) (d : dict) : bool :=
  match dict_get k d with Some _ => true | None => false end.

(** [d[k] = v]: an existing key keeps its position. *)
Fixpoint dict_set (k : K) (v : V) (d : dict) : dict :=
  match d with
  | [] => [(k, v)]
  | (k', v') :: rest =>
      if decide (k = k') then (k', v) :: rest
      else (k', v') :: dict_set k v rest
  end.

Definition dict_keys (d : dict) : list K := map fst d.
Definition dict_values (d : dict) : list V := map snd d.
End Dict.

Arguments dict : clear implicits.

(** ** [list.sort(key=..., reverse=...)]

    Python's sort is stable, also under [reverse=True]; a stable insertion
    sort produces the same list. *)

Section Sort.
Context {A K : Type} (key : A -> K) (ltb : K -> K -> bool).

(** Insert [x] into an ascending list, from the front: [x] passes the
    leading elements whose key is strictly smaller and stops before the
    first one whose key is not, so equal keys keep their order. *)
Fixpoint insert_by (x : A) (l : list A) : list A :=
  match l with
  | [] => [x]
  | y :: rest =>
      if ltb (key y) (key x) then y :: insert_by x rest
      else x :: y :: rest
  end.

Definition sort_by (l : list A) : list A := foldr insert_by [] l.
End Sort.

(** [l.sort(reverse=True, key=key)] *)
Definition sort_reverse_by {A K : Type} (key : A -> K) (ltb : K -> K -> bool)
    (l : list A) : list A :=
  sort_by key (fun a b => ltb b a) l.

(** Tuple comparison, as Python compares [(a, b)] keys. *)
Definition pair_ltb {A B : Type} (ltA : A -> A -> bool) (eqA : A -> A -> bool)
    (ltB : B -> B -> bool) (p q : A * B) : bool :=
  ltA (fst p) (fst q) || (eqA (fst p) (fst q) && ltB (snd p) (snd q)).

(** ** Value classes *)

Module PlayerValue.
Record t : Type := mk {
  tag : string;
  id_ : ident;
  points : Z;
  note : string;
  invitational_val : Z;
  start_time : option date;
  end_time : option date
}.

Definition is_within_timeframe (self : t) (time : date) : bool :=
  if match start_time self with
     | Some s => time <? s
     | None => false
     end then false
  else if match end_time self with
          | Some e => time >=? e
          | None => false
          end then false
  else true.
End PlayerValue.

Module PlayerValueGroup.
Record t : Type := mk {
  tag : string;
  id_ : ident;
  invitational_val : Z;
  values : list PlayerValue.t;
  other_tags : list string
}.

(** [__init__]; [lower] is [str.lower]. *)
Definition init (lower : string -> string) (id : ident) (tag_ : string)
    (invitational : Z) (others : list string) : t :=
  mk tag_ id invitational [] (map lower others).

Definition set_invitational_val (self : t) (value : Z) : t :=
  mk (tag self) (id_ self) value
     (map (fun val =>
             PlayerValue.mk (PlayerValue.tag val) (PlayerValue.id_ val)
               (PlayerValue.points val) (PlayerValue.note val) value
               (PlayerValue.start_time val) (PlayerValue.end_time val))
          (values self))
     (other_tags self).

Definition add_value (self : t) (points : Z) (note : string)
    (start_time end_time : option date) : t :=
  mk (tag self) (id_ self) (invitational_val self)
     (sort_reverse_by PlayerValue.points Z.ltb
        (values self ++
           [PlayerValue.mk (tag self) (id_ self) points note
              (invitational_val self) start_time end_time]))
     (other_tags self).

(** [retrieve_value(self, tournament)] reads only
    [tournament.start_time], which is passed directly. *)
Definition retrieve_value (self : t) (time : date) : option PlayerValue.t :=
  find (fun value => PlayerValue.is_within_timeframe value time)
       (values self).

Definition match_tag (lower : string -> string) (self : t) (tag_ : string)
    : bool :=
  String.eqb (lower tag_) (lower (tag self))
  || existsb (String.eqb (lower tag_)) (other_tags self).
End PlayerValueGroup.

Module CountedValue.
Record t : Type := mk {
  player_value : PlayerValue.t;
  points : Z;
  alt_tag : string
}.

Definition init (player_value_ : PlayerValue.t) (total_points : Z)
    (alt_tag_ : string) : t :=
  mk player_value_ total_points alt_tag_.

(** [self.tag] and [self.id_] are copies, made by [__init__] and never
    reassigned, of the player value's fields. *)
Definition tag (self : t) : string := PlayerValue.tag (player_value self).
Definition id_ (self : t) : ident := PlayerValue.id_ (player_value self).
End CountedValue.

Module PotentialMatchWithDqs.
Record t : Type := mk {
  tag : string;
  id_ : ident;
  points : Z;
  note : string;
  actual_tag : string;
  dqs : Z
}.

Definition init (tag_ : string) (id : ident) (points_ : Z) (note_ : string)
    (actual_tag_ : string) (dqs_ : Z) : t :=
  mk tag_ id points_ note_
     (if negb (String.eqb actual_tag_ "") then actual_tag_ else tag_) dqs_.
End PotentialMatchWithDqs.

Module DisqualificationValue.
(** [value] is a [CountedValue] or any other object with [id_] and
    [points] (a [PlayerValue]); [max_potential_score] tells them apart
    with [isinstance]. *)
Inductive payload : Type :=
| Counted (c : CountedValue.t)
| Plain (v : PlayerValue.t).

Record t : Type := mk {
  value : payload;
  dqs : Z
}.

(** [self.value.id_] and [self.value.points] *)
Definition value_id (p : payload) : ident :=
  match p with
  | Counted c => CountedValue.id_ c
  | Plain v => PlayerValue.id_ v
  end.

Definition value_points (p : payload) : Z :=
  match p with
  | Counted c => CountedValue.points c
  | Plain v => PlayerValue.points v
  end.
End DisqualificationValue.

(** ** Region rules *)

Module RegionValue.
Record t : Type := mk {
  country_code : string;
  iso2 : string;
  county : string;
  city : string;
  jp_postal : string;
  multiplier : Z;
  entrant_floor : Z;
  score_floor : Z;
  note : string
}.

(** [address.get(key, default)] *)
Definition get (address : gmap string string) (key dflt : string) : string :=
  default dflt (address !! key).

(** [match(self, address)].  [postcode[0:2]] is [substring 0 2]: the two
    agree on the ASCII postcodes the geocoder returns. *)
Definition match_ (self : t) (address : gmap string string) : Z :=
  if String.eqb (country_code self) "" then 1
  else
    let match0 := 0 in
    if String.eqb (get address "country_code" "") (country_code self) then
      let match1 := match0 + 2 in
      let match2 :=
        if String.eqb (iso2 self) "" then match1 + 1
        else if String.eqb (get address "ISO3166-2-lvl4" "") (iso2 self)
                || String.eqb (get address "ISO3166-2-lvl3" "") (iso2 self)
        then
          let match1' := match1 + 2 in
          if String.eqb (county self) "" && String.eqb (city self) ""
          then match1' + 1
          else if negb (String.eqb (county self) "")
                  && String.eqb (get address "county" "") (county self)
          then match1' + 2
          else if negb (String.eqb (city self) "")
                  && String.eqb (get address "city" "") (city self)
          then match1' + 2
          else match1'
        else match1 in
      if String.eqb (country_code self) "jp" then
        let jp_postal_ := String.substring 0 2 (get address "postcode" "XX") in
        if String.eqb (jp_postal self) "" then match2 + 1
        else if String.eqb jp_postal_ (jp_postal self) then match2 + 2
        else match2
      else match2
    else match0.

(** [__eq__]: the note and the two floors are not compared. *)
Definition eqb (self other : t) : bool :=
  String.eqb (country_code self) (country_code other)
  && String.eqb (iso2 self) (iso2 other)
  && String.eqb (county self) (county other)
  && String.eqb (city self) (city other)
  && String.eqb (jp_postal self) (jp_postal other)
  && (multiplier self =? multiplier other).
End RegionValue.

(** ** The tiering result *)

Definition NUM_PLAYERS_FLOOR : Z := 2.

Module TournamentTieringResult.
(** An element of [self.potential] is tested with
    [isinstance(pot, DisqualificationValue)]. *)
Inductive potential_entry : Type :=
| PotDq (d : DisqualificationValue.t)
| PotMatch (m : PotentialMatchWithDqs.t).

Record t : Type := mk {
  slug : string;
  score : Z;
  values : list CountedValue.t;
  dqs : list DisqualificationValue.t;
  potential : list potential_entry;
  entrants : Z;
  region : RegionValue.t;
  is_invitational : bool;
  dq_count : Z;
  phases : list string;
  max_score : option Z;
  tournament : string;
  event : string
}.

(** [__init__]; [name] is the answer of [get_name(slug)]. *)
Definition init (slug_ : string) (score_ entrants_ : Z)
    (region_ : RegionValue.t) (values_ : list CountedValue.t)
    (dqs_ : list DisqualificationValue.t) (potential_ : list potential_entry)
    (is_invitational_ : bool) (phases_ : list string) (dq_count_ : Z)
    (name : string * string) : t :=
  mk slug_ score_ values_ dqs_ potential_ entrants_ region_
     is_invitational_ dq_count_ phases_ None (fst name) (snd name).

Definition set_max_score (self : t) (m : Z) : t :=
  mk (slug self) (score self) (values self) (dqs self) (potential self)
     (entrants self) (region self) (is_invitational self) (dq_count self)
     (phases self) (Some m) (tournament self) (event self).

Definition pot_id (pot : potential_entry) : ident :=
  match pot with
  | PotDq d => DisqualificationValue.value_id (DisqualificationValue.value d)
  | PotMatch m => PotentialMatchWithDqs.id_ m
  end.

Definition pot_points (pot : potential_entry) : Z :=
  match pot with
  | PotDq d =>
      DisqualificationValue.value_points (DisqualificationValue.value d)
  | PotMatch m => PotentialMatchWithDqs.points m
  end.

(** First loop of [max_potential_score]; both [isinstance] branches
    store [max(points, table.get(id, 0))] under the entry's id. *)
Definition potential_step (potential_player_scores : dict ident Z)
    (pot : potential_entry) : dict ident Z :=
  dict_set (pot_id pot)
    (Z.max (pot_points pot)
           (default 0 (dict_get (pot_id pot) potential_player_scores)))
    potential_player_scores.

(** Second loop: a [CountedValue] overwrites, anything else takes the
    maximum with the stored score. *)
Definition dq_step (dq_scores : dict ident Z) (dq : DisqualificationValue.t)
    : dict ident Z :=
  match DisqualificationValue.value dq with
  | DisqualificationValue.Counted c =>
      dict_set (PlayerValue.id_ (CountedValue.player_value c))
        (CountedValue.points c) dq_scores
  | DisqualificationValue.Plain v =>
      dict_set (PlayerValue.id_ v)
        (Z.max (PlayerValue.points v)
               (default 0 (dict_get (PlayerValue.id_ v) dq_scores)))
        dq_scores
  end.

(** [for value in table.values(): potential_score += value] *)
Definition add_values (potential_score : Z) (table : dict ident Z) : Z :=
  fold_left Z.add (dict_values table) potential_score.

(** The value computed when nothing is cached. *)
Definition compute_max_score (self : t) : Z :=
  let potential_score := score self in
  let potential_player_scores := fold_left potential_step (potential self) [] in
  let dq_scores := fold_left dq_step (dqs self) [] in
  let potential_score := add_values potential_score potential_player_scores in
  let potential_score := add_values potential_score dq_scores in
  potential_score.

(** [max_potential_score] returns the score and the object with its
    cache filled. *)
Definition max_potential_score (self : t) : Z * t :=
  match max_score self with
  | Some m => (m, self)
  | None =>
      let potential_score := compute_max_score self in
      (potential_score, set_max_score self potential_score)
  end.

Definition should_count_strict (self : t) : bool :=
  (entrants self >=? RegionValue.entrant_floor (region self))
  || ((score self >=? RegionValue.score_floor (region self))
      && (Z.of_nat (length (values self)) >=? NUM_PLAYERS_FLOOR)).

(** [or] and [and] short-circuit: the cache is filled only when the
    entrant floor is missed. *)
Definition should_count (self : t) : bool * t :=
  if entrants self >=? RegionValue.entrant_floor (region self)
  then (true, self)
  else
    let '(m, self') := max_potential_score self in
    ((m >=? RegionValue.score_floor (region self))
     && (Z.of_nat (length (values self)) + Z.of_nat (length (potential self))
         + Z.of_nat (length (dqs self)) >=? NUM_PLAYERS_FLOOR),
     self').
End TournamentTieringResult.

(** ** Entrants and the data source *)

Module Entrant.
Record t : Type := mk {
  id_ : ident;
  tag : string
}.

(** [__eq__] compares both fields. *)
#[global] Instance eq_dec : EqDecision t.
Proof. solve_decision. Defined.
End Entrant.

(** [s.add(x)] on a set kept in insertion order. *)
Definition set_add {A : Type} `{EqDecision A} (x : A) (s : list A) : list A :=
  if bool_decide (x ∈ s) then s else (s ++ [x])%list.

(** One node of the phase list. *)
Record Phase : Type := mkPhase {
  phase_id : Z;
  phase_name : string;
  phase_state : string;
  phase_isExhibition : bool
}.

(** One slot of a set: the entrant id, the first participant's player
    ([id], [gamerTag]) and [standing]: [None] when the standing is null,
    otherwise the recorded score value (itself possibly null). *)
Record Slot : Type := mkSlot {
  slot_entrant_id : Z;
  slot_player : Entrant.t;
  slot_standing : option (option Z)
}.

Record SetData : Type := mkSetData {
  set_winnerId : option Z;
  set_slot0 : Slot;
  set_slot1 : Slot
}.

(** The answers of the collaborators for one event.  Paged queries are
    given as the concatenation of their pages, a query sent twice is
    answered alike, and the geocoder is given by the outcome of its i-th
    call.  [slug_regex_search] is [startgg_slug_regex.search] followed by
    [group(0)]. *)
Record Collaborators : Type := mkCollaborators {
  slug_regex_search : string -> option string;
  resp_phases : exn + list Phase;
  resp_sets : list Z -> exn + list SetData;
  resp_entrants : exn + list Entrant.t;
  resp_location : exn + (string * string);
  geo_reverse : nat -> exn + gmap string string;
  resp_start_at : exn + date;
  resp_name : exn + (string * string)
}.

Definition check_phase_completed (c : Collaborators) : exn + bool :=
  bind_exn (resp_phases c) (fun phases =>
  inr (existsb (fun phase =>
                  String.eqb (phase_state phase) "COMPLETED"
                  && negb (phase_isExhibition phase))
               phases)).

Definition collect_phases (c : Collaborators) : exn + list Phase :=
  bind_exn (resp_phases c) (fun phases =>
  inr (List.filter (fun phase => negb (phase_isExhibition phase)) phases)).

Definition get_entrants (c : Collaborators) : exn + list Entrant.t :=
  bind_exn (resp_entrants c) (fun nodes =>
  inr (fold_left (fun participants player_data =>
                    set_add player_data participants) nodes [])).

Definition get_sets_in_phases (c : Collaborators) (phase_ids : list Z)
    : exn + list SetData :=
  resp_sets c phase_ids.

(** The two identical branches of [get_dqs] that count one more DQ. *)
Definition record_dq (dq_list : dict ident (Entrant.t * Z)) (player_id : ident)
    (player_data_loser : Entrant.t) : dict ident (Entrant.t * Z) :=
  match dict_get player_id dq_list with
  | Some (e, n) => dict_set player_id (e, n + 1) dq_list
  | None => dict_set player_id (player_data_loser, 1) dq_list
  end.

Definition get_dqs_step
    (acc : exn + (dict ident (Entrant.t * Z) * list Entrant.t))
    (set_data : SetData)
    : exn + (dict ident (Entrant.t * Z) * list Entrant.t) :=
  bind_exn acc (fun '(dq_list, participants) =>
  match set_winnerId set_data with
  | None => inr (dq_list, participants)
  | Some winnerId =>
      let loser_is_1 := winnerId =? slot_entrant_id (set_slot0 set_data) in
      let player_data_0 := slot_player (set_slot0 set_data) in
      let player_data_1 := slot_player (set_slot1 set_data) in
      let slot_loser :=
        if loser_is_1 then set_slot1 set_data else set_slot0 set_data in
      let player_data_loser :=
        if loser_is_1 then player_data_1 else player_data_0 in
      let player_id := Entrant.id_ (slot_player slot_loser) in
      match slot_standing (set_slot0 set_data),
            slot_standing (set_slot1 set_data) with
      | None, None =>
          inr (record_dq dq_list player_id player_data_loser, participants)
      | _, _ =>
          match slot_standing slot_loser with
          | None => inl TypeError
          | Some game_count =>
              if bool_decide (game_count = Some (-1))
              then inr (record_dq dq_list player_id player_data_loser,
                        participants)
              else inr (dq_list,
                        set_add player_data_1
                          (set_add player_data_0 participants))
          end
      end
  end).

Definition get_dqs (c : Collaborators) (phase_ids : list Z)
    : exn + (dict ident (Entrant.t * Z) * list Entrant.t) :=
  bind_exn (get_sets_in_phases c phase_ids) (fun sets =>
  fold_left get_dqs_step sets (inr ([], []))).

Definition get_name (c : Collaborators) : exn + (string * string) :=
  resp_name c.

(** ** Tournament *)

Module Tournament.
(** [address] is [None] while the attribute is unset. *)
Record t : Type := mk {
  event_slug : string;
  is_invitational : bool;
  tier : option TournamentTieringResult.t;
  total_dqs : Z;
  phases : list Phase;
  dq_list : dict ident (Entrant.t * Z);
  participants : list Entrant.t;
  total_entrants : Z;
  address : option (gmap string string);
  start_time : date
}.

(** What [gather_entrant_counts] assigns. *)
Record entrant_counts : Type := mkCounts {
  ec_total_dqs : Z;
  ec_phases : list Phase;
  ec_dq_list : dict ident (Entrant.t * Z);
  ec_participants : list Entrant.t;
  ec_total_entrants : Z
}.

(** The tally of the progressed branch: DQ'd ids that are not the id of
    any participant. *)
Definition count_dqs (dq_list_ : dict ident (Entrant.t * Z))
    (participants_ : list Entrant.t) : Z :=
  let participant_ids := map Entrant.id_ participants_ in
  fold_left (fun total player_id =>
               if negb (bool_decide (player_id ∈ participant_ids))
               then total + 1 else total)
            (dict_keys dq_list_) 0.

Definition gather_entrant_counts (c : Collaborators) : exn + entrant_counts :=
  let total_dqs0 := -1 in
  bind_exn (check_phase_completed c) (fun event_progressed =>
  bind_exn
    (if event_progressed : bool then
       bind_exn (collect_phases c) (fun phases_ =>
       bind_exn (get_dqs c (map phase_id phases_))
         (fun '(dq_list_, participants_) =>
       let total_dqs1 := count_dqs dq_list_ participants_ in
       inr (mkCounts total_dqs1 phases_ dq_list_ participants_
              (Z.of_nat (length participants_) + total_dqs1))))
     else
       bind_exn (get_entrants c) (fun participants_ =>
       inr (mkCounts (-1) [] [] participants_
              (Z.of_nat (length participants_)))))
    (fun counts =>
  (* Comment out if subtracting generic entrant dqs *)
  inr (mkCounts (-1) (ec_phases counts) (ec_dq_list counts)
         (ec_participants counts) (ec_total_entrants counts)))).

(** The retry loop of [gather_location_info]: [for i in range(5)] with
    [break] on success and [pass] on failure.  The result is the
    attribute [address] after the loop. *)
Fixpoint reverse_loop (geo : nat -> exn + gmap string string)
    (i : nat) (remaining : nat) : option (gmap string string) :=
  match remaining with
  | O => None
  | S remaining' =>
      match geo i with
      | inr a => Some a
      | inl _ => reverse_loop geo (S i) remaining'
      end
  end.

Definition gather_location_info (c : Collaborators)
    : exn + option (gmap string string) :=
  bind_exn (resp_location c) (fun _ =>
  inr (reverse_loop (geo_reverse c) 0%nat 5%nat)).

Definition retrieve_start_time (c : Collaborators) : exn + date :=
  resp_start_at c.

(** [__init__] *)
Definition init (c : Collaborators) (event_slug_ : string)
    (is_invitational_ : bool) (location : bool) : exn + t :=
  match slug_regex_search c event_slug_ with
  | None => inl InvalidEventUrlException
  | Some slug =>
      bind_exn (gather_entrant_counts c) (fun counts =>
      bind_exn (if location then gather_location_info c
                else inr (Some {[ "country_code" := "us" ]}))
        (fun address_ =>
      bind_exn (retrieve_start_time c) (fun start_time_ =>
      inr (mk slug is_invitational_ None (ec_total_dqs counts)
             (ec_phases counts) (ec_dq_list counts)
             (ec_participants counts) (ec_total_entrants counts)
             address_ start_time_))))
  end.

Definition set_tier (self : t) (r : TournamentTieringResult.t) : t :=
  mk (event_slug self) (is_invitational self) (Some r) (total_dqs self)
     (phases self) (dq_list self) (participants self)
     (total_entrants self) (address self) (start_time self).

Section Tiering.
(** [str.lower] and the reference data loaded at import time. *)
Variable lower : string -> string.
Variable scored_players : dict ident PlayerValueGroup.t.
Variable scored_tags : gset string.
Variable region_mults : list RegionValue.t.

(** One iteration of [for region in region_mults]. *)
Definition region_step (self : t)
    (acc : exn + (Z * option RegionValue.t)) (region : RegionValue.t)
    : exn + (Z * option RegionValue.t) :=
  bind_exn acc (fun '(best_match, best_region) =>
  match address self with
  | None => inl (AttributeError "address")
  | Some address_ =>
      let match_ := RegionValue.match_ region address_ in
      if match_ >? best_match then inr (match_, Some region)
      else inr (best_match, best_region)
  end).

Definition select_region (self : t) : exn + (Z * option RegionValue.t) :=
  fold_left (region_step self) region_mults (inr (0, None)).

(** [points + (invitational_val if self.is_invitational else 0)] *)
Definition value_score (self : t) (player_value : PlayerValue.t) : Z :=
  PlayerValue.points player_value
  + (if is_invitational self
     then PlayerValue.invitational_val player_value else 0).

(** The tag fallback shared by both entrant loops:
    [for player_value_group in scored_players.values()]. *)
Definition tag_matches (self : t) (participant : Entrant.t) (num_dqs : Z)
    (potential_matches : list PotentialMatchWithDqs.t)
    : list PotentialMatchWithDqs.t :=
  fold_left
    (fun potential player_value_group =>
       if PlayerValueGroup.match_tag lower player_value_group
            (Entrant.tag participant)
       then
         match PlayerValueGroup.retrieve_value player_value_group
                 (start_time self) with
         | Some player_value =>
             (potential ++
              [PotentialMatchWithDqs.init (Entrant.tag participant)
                 (Entrant.id_ participant) (value_score self player_value)
                 (PlayerValue.note player_value)
                 (PlayerValue.tag player_value) num_dqs])%list
         | None => potential
         end
       else potential)
    (dict_values scored_players) potential_matches.

(** One iteration of [for participant in self.participants]. *)
Definition participant_step (self : t)
    (acc : Z * list CountedValue.t * list PotentialMatchWithDqs.t)
    (participant : Entrant.t)
    : Z * list CountedValue.t * list PotentialMatchWithDqs.t :=
  let '(total_score, valued_participants, potential_matches) := acc in
  if dict_mem (Entrant.id_ participant) (dq_list self) then acc
  else
    match dict_get (Entrant.id_ participant) scored_players with
    | Some group =>
        match PlayerValueGroup.retrieve_value group (start_time self) with
        | Some player_value =>
            let score := value_score self player_value in
            (total_score + score,
             (valued_participants ++
              [CountedValue.init player_value score
                 (Entrant.tag participant)])%list,
             potential_matches)
        | None => acc
        end
    | None =>
        if bool_decide (lower (Entrant.tag participant) ∈ scored_tags)
        then (total_score, valued_participants,
              tag_matches self participant 0 potential_matches)
        else acc
    end.

(** One iteration of [for participant, num_dqs in self.dq_list.values()]. *)
Definition dq_step (self : t)
    (acc : list DisqualificationValue.t * list PotentialMatchWithDqs.t)
    (entry : Entrant.t * Z)
    : list DisqualificationValue.t * list PotentialMatchWithDqs.t :=
  let '(participants_with_dqs, potential_matches) := acc in
  let '(participant, num_dqs) := entry in
  match dict_get (Entrant.id_ participant) scored_players with
  | Some group =>
      match PlayerValueGroup.retrieve_value group (start_time self) with
      | Some player_value =>
          let score := value_score self player_value in
          ((participants_with_dqs ++
            [DisqualificationValue.mk
               (DisqualificationValue.Counted
                  (CountedValue.init player_value score
                     (Entrant.tag participant)))
               num_dqs])%list,
           potential_matches)
      | None => acc
      end
  | None =>
      if bool_decide (lower (Entrant.tag participant) ∈ scored_tags)
      then (participants_with_dqs,
            tag_matches self participant num_dqs potential_matches)
      else acc
  end.

(** Sort keys of the three report lists. *)
Definition dq_sort_key (p : DisqualificationValue.t) : Z * Z :=
  (DisqualificationValue.dqs p,
   DisqualificationValue.value_points (DisqualificationValue.value p)).

Definition potential_sort_key (m : PotentialMatchWithDqs.t) : Z * string :=
  (PotentialMatchWithDqs.dqs m, PotentialMatchWithDqs.tag m).

(** The body of [calculate_tier] below the cache test. *)
Definition compute_tier (c : Collaborators) (self : t)
    : exn + TournamentTieringResult.t :=
  let total_score := 0 in
  bind_exn (select_region self) (fun '(best_match, best_region) =>
  match best_region with
  | None => inl (AttributeError "multiplier")
  | Some best_region =>
      let total_score :=
        total_score
        + total_entrants self * RegionValue.multiplier best_region in
      let '(total_score, valued_participants, potential_matches) :=
        fold_left (participant_step self) (participants self)
                  (total_score, [], []) in
      let '(participants_with_dqs, potential_matches) :=
        fold_left (dq_step self) (dict_values (dq_list self))
                  ([], potential_matches) in
      let valued_participants :=
        sort_reverse_by CountedValue.points Z.ltb valued_participants in
      let participants_with_dqs :=
        sort_reverse_by dq_sort_key (pair_ltb Z.ltb Z.eqb Z.ltb)
          participants_with_dqs in
      let potential_matches :=
        sort_by potential_sort_key (pair_ltb Z.ltb Z.eqb String.ltb)
          potential_matches in
      bind_exn (get_name c) (fun name =>
      inr (TournamentTieringResult.init (event_slug self) total_score
             (total_entrants self) best_region valued_participants
             participants_with_dqs
             (map TournamentTieringResult.PotMatch potential_matches)
             (is_invitational self) (map phase_name (phases self))
             (total_dqs self) name))
  end).

(** [calculate_tier]: the result (or exception) and the tournament with
    its cache. *)
Definition calculate_tier (c : Collaborators) (self : t)
    : (exn + TournamentTieringResult.t) * t :=
  match tier self with
  | Some r => (inr r, self)
  | None =>
      match compute_tier c self with
      | inl e => (inl e, self)
      | inr r => (inr r, set_tier self r)
      end
  end.
End Tiering.
End Tournament.

(** ** Loading the reference tables *)

(** Parsed rows of the three player tables: a numeric column is already an
    integer (the empty [Start.gg Num ID] / [Num] cell is [None]) and a
    date column already a date. *)
Record PlayerRow : Type := mkPlayerRow {
  row_num_id : option Z;
  row_player : string;
  row_points : Z;
  row_note : string;
  row_start_date : option date;
  row_end_date : option date
}.

Record InvitRow : Type := mkInvitRow {
  irow_num : option Z;
  irow_player : string;
  irow_additional_points : Z
}.

(** [id_ = row[...]; if id_ == '': id_ = row['Player'] else: id_ = int(id_)] *)
Definition row_ident (num : option Z) (player : string) : ident :=
  match num with
  | None => IdTag player
  | Some n => IdNum n
  end.

Section ReadPlayers.
(** [str.lower] and [str.strip] *)
Variable lower : string -> string.
Variable strip : string -> string.

(** One row [row[0], row[1:]] of the optional tag table. *)
Definition tags_step (acc : dict string (list string) * gset string)
    (row : string * list string) : dict string (list string) * gset string :=
  let '(alt_tags, tags) := acc in
  let alt_tag_list :=
    List.filter (fun tag => negb (String.eqb tag "")) (snd row) in
  if negb (Nat.eqb (length alt_tag_list) 0) then
    (dict_set (fst row) alt_tag_list alt_tags,
     fold_left (fun tags tag => {[ lower tag ]} ∪ tags) alt_tag_list tags)
  else acc.

Definition players_step (alt_tags : dict string (list string))
    (acc : dict ident PlayerValueGroup.t * gset string) (row : PlayerRow)
    : dict ident PlayerValueGroup.t * gset string :=
  let '(players, tags) := acc in
  let id := row_ident (row_num_id row) (row_player row) in
  let tag := strip (row_player row) in
  if String.eqb tag "" then acc
  else
    let group :=
      match dict_get id players with
      | Some g => g
      | None =>
          PlayerValueGroup.init lower id tag 0
            (default [] (dict_get (row_player row) alt_tags))
      end in
    (dict_set id
       (PlayerValueGroup.add_value group (row_points row) (row_note row)
          (row_start_date row) (row_end_date row))
       players,
     {[ lower tag ]} ∪ tags).

Definition invit_step (players : dict ident PlayerValueGroup.t)
    (row : InvitRow) : dict ident PlayerValueGroup.t :=
  let id := row_ident (irow_num row) (irow_player row) in
  match dict_get id players with
  | Some player_value =>
      dict_set id
        (PlayerValueGroup.set_invitational_val player_value
           (irow_additional_points row))
        players
  | None => players
  end.

(** [read_players]; [tag_rows] is [None] when [ultrank_tags.csv] does
    not exist. *)
Definition read_players (tag_rows : option (list (string * list string)))
    (player_rows : list PlayerRow) (invit_rows : list InvitRow)
    : dict ident PlayerValueGroup.t * gset string :=
  let '(alt_tags, tags) :=
    fold_left tags_step (default [] tag_rows) ([], ∅) in
  let '(players, tags) :=
    fold_left (players_step alt_tags) player_rows ([], tags) in
  let players := fold_left invit_step invit_rows players in
  (players, tags).
End ReadPlayers.

(** [read_regions]: the rows are added to a set, and the set is returned;
    adding a row equal (by [__eq__]) to an element of the set leaves the
    set as it is.  Python iterates a set in an order that depends on the
    hashes of its elements, not on the order of insertion: [iteration] is
    that order, a rearrangement of the elements the loop has collected. *)
Definition read_regions
    (iteration : list RegionValue.t -> list RegionValue.t)
    (rows : list RegionValue.t) : list RegionValue.t :=
  iteration
    (fold_left (fun regions region_value =>
                  if existsb (RegionValue.eqb region_value) regions
                  then regions
                  else (regions ++ [region_value])%list)
               rows []).

(** ** Concrete data for the examples *)

(** [str.lower] on ASCII strings. *)
Definition ascii_lower_char (ch : ascii) : ascii :=
  let n := nat_of_ascii ch in
  if ((65 <=? n) && (n <=? 90))%nat then ascii_of_nat (n + 32) else ch.

Fixpoint ascii_lower (s : string) : string :=
  match s with
  | EmptyString => EmptyString
  | String ch rest => String (ascii_lower_char ch) (ascii_lower rest)
  end.

Module Samples.
Definition us_rule : RegionValue.t :=
  RegionValue.mk "us" "" "" "" "" 1 64 250 "United States".
Definition fallback_rule : RegionValue.t :=
  RegionValue.mk "" "" "" "" "" 1 64 250 "All Other Regions".

Definition us_address : gmap string string := {[ "country_code" := "us" ]}.
Definition ca_address : gmap string string := {[ "country_code" := "ca" ]}.

Definition alice : Entrant.t := Entrant.mk (IdNum 1) "Alice".
Definition bob : Entrant.t := Entrant.mk (IdNum 2) "Bob".
Definition zed : Entrant.t := Entrant.mk (IdNum 3) "Zed".

Definition played (winner loser : Z * Entrant.t) (loser_score : Z) : SetData :=
  mkSetData (Some (fst winner))
    (mkSlot (fst winner) (snd winner) (Some (Some 2)))
    (mkSlot (fst loser) (snd loser) (Some (Some loser_score))).

(** One completed main phase; Alice beats Bob 2-0 and Zed is
    disqualified against Alice. *)
Definition source (geo : nat -> exn + gmap string string) : Collaborators :=
  mkCollaborators
    (fun s => Some s)
    (inr [mkPhase 10 "Bracket" "COMPLETED" false])
    (fun _ => inr [played (101, alice) (102, bob) 0;
                   played (101, alice) (103, zed) (-1)])
    (inr [alice; bob; zed])
    (inr ("40.7", "-74.0"))
    geo
    (inr 738000)
    (inr ("Weekly", "Singles")).

Definition geo_ok : nat -> exn + gmap string string :=
  fun _ => inr us_address.
Definition geo_down : nat -> exn + gmap string string :=
  fun _ => inl (CollaboratorError "geocoder unavailable").

Definition geo_ca : nat -> exn + gmap string string :=
  fun _ => inr ca_address.

Definition slug : string := "tournament/weekly/event/singles".

(** The tournament [Tournament.init] builds from [source geo_ok]. *)
Definition tournament : Tournament.t :=
  Tournament.mk slug false None (-1)
    [mkPhase 10 "Bracket" "COMPLETED" false]
    [(IdNum 3, (zed, 1))] [alice; bob] 3 (Some us_address) 738000.

(** The same event held in Canada, and with the geocoder down. *)
Definition tournament_ca : Tournament.t :=
  Tournament.mk slug false None (-1)
    [mkPhase 10 "Bracket" "COMPLETED" false]
    [(IdNum 3, (zed, 1))] [alice; bob] 3 (Some ca_address) 738000.

Definition tournament_unlocated : Tournament.t :=
  Tournament.mk slug false None (-1)
    [mkPhase 10 "Bracket" "COMPLETED" false]
    [(IdNum 3, (zed, 1))] [alice; bob] 3 None 738000.

Definition row (id : Z) (player : string) (points : Z) : PlayerRow :=
  mkPlayerRow (Some id) player points "" None None.

(** The tags of the sample tables carry no surrounding blanks. *)
Definition strip (s : string) : string := s.

(** Alice and Bob are known by id; the tag "zed" is known under an id
    that is not Zed's. *)
Definition registry_tags : dict ident PlayerValueGroup.t * gset string :=
  read_players ascii_lower strip None
    [row 1 "Alice" 150; row 2 "Bob" 100; row 9 "zed" 90] [].

(** As above, with a "zed" worth no points. *)
Definition registry_zero : dict ident PlayerValueGroup.t * gset string :=
  read_players ascii_lower strip None
    [row 1 "Alice" 150; row 2 "Bob" 100; row 9 "zed" 0] [].

(** Zed is known by id, with a negative value. *)
Definition registry_negative : dict ident PlayerValueGroup.t * gset string :=
  read_players ascii_lower strip None
    [row 1 "Alice" 150; row 2 "Bob" 100; row 3 "Zed" (-300)] [].

(** Zed is known by id, with a positive value. *)
Definition registry_ids : dict ident PlayerValueGroup.t * gset string :=
  read_players ascii_lower strip None
    [row 1 "Alice" 150; row 2 "Bob" 100; row 3 "Zed" 90] [].

(** Bob's only value starts after the event (day 738000). *)
Definition registry_late : dict ident PlayerValueGroup.t * gset string :=
  read_players ascii_lower strip None
    [row 1 "Alice" 150;
     mkPlayerRow (Some 2) "Bob" 100 "" (Some 738500) None] [].
End Samples.

(** * Specification vocabulary *)

(** The half-open window [[valid_from, valid_until)] of a value, unbounded
    on an absent side. *)
Definition window_contains (v : PlayerValue.t) (d : date) : Prop :=
  (forall s, PlayerValue.start_time v = Some s -> s <= d)
  /\ (forall e, PlayerValue.end_time v = Some e -> d < e).

(** The invariant [add_value] maintains: values in descending order of
    points. *)
Definition values_sorted (g : PlayerValueGroup.t) : Prop :=
  StronglySorted
    (fun a b => PlayerValue.points b <= PlayerValue.points a)
    (PlayerValueGroup.values g).

Module Samples2.
Import Samples.
(** Two values for one player: 100 points without a window and 150
    points valid on days [[738000, 738100)]. *)
Definition alice_group : PlayerValueGroup.t :=
  PlayerValueGroup.add_value
    (PlayerValueGroup.add_value
       (PlayerValueGroup.init ascii_lower (IdNum 1) "Alice" 0 [])
       100 "season" None None)
    150 "major" (Some 738000) (Some 738100).

Definition pv (id : Z) (tag : string) (points : Z) : PlayerValue.t :=
  PlayerValue.mk tag (IdNum id) points "" 0 None None.

Definition counted (id : Z) (tag : string) (points : Z) : CountedValue.t :=
  CountedValue.init (pv id tag points) points tag.

(** 50 entrants and three valued participants worth 100, 80 and 50. *)
Definition result_valued : TournamentTieringResult.t :=
  TournamentTieringResult.init slug 280 50 us_rule
    [counted 1 "Alice" 100; counted 2 "Bob" 80; counted 4 "Cleo" 50]
    [] [] false [] (-1) ("Weekly", "Singles").

(** 40 entrants, one valued participant (100), one DQ'd value (90, two
    DQs) and one potential match (60). *)
Definition result_mixed : TournamentTieringResult.t :=
  TournamentTieringResult.init slug 140 40 us_rule
    [counted 1 "Alice" 100]
    [DisqualificationValue.mk
       (DisqualificationValue.Counted (counted 3 "Zed" 90)) 2]
    [TournamentTieringResult.PotMatch
       (PotentialMatchWithDqs.init "Dan" (IdNum 5) 60 "" "dan" 0)]
    false [] (-1) ("Weekly", "Singles").

(** Two DQ'd-valued lines under one player id, worth 90 and 50. *)
Definition result_repeated_dq : TournamentTieringResult.t :=
  TournamentTieringResult.init slug 140 40 us_rule
    [counted 1 "Alice" 100]
    [DisqualificationValue.mk
       (DisqualificationValue.Counted (counted 3 "Zed" 90)) 1;
     DisqualificationValue.mk
       (DisqualificationValue.Counted (counted 3 "Zed" 50)) 1]
    [] false [] (-1) ("Weekly", "Singles").

(** A potential match worth −20 points. *)
Definition result_negative_potential : TournamentTieringResult.t :=
  TournamentTieringResult.init slug 140 40 us_rule
    [counted 1 "Alice" 100]
    []
    [TournamentTieringResult.PotMatch
       (PotentialMatchWithDqs.init "Dan" (IdNum 5) (-20) "" "dan" 0)]
    false [] (-1) ("Weekly", "Singles").

(** A DQ'd value that is no [CountedValue], worth −30 points. *)
Definition result_plain_dq : TournamentTieringResult.t :=
  TournamentTieringResult.init slug 140 40 us_rule
    [counted 1 "Alice" 100]
    [DisqualificationValue.mk
       (DisqualificationValue.Plain (pv 3 "Zed" (-30))) 1]
    [] false [] (-1) ("Weekly", "Singles").
End Samples2.

(** [not_before key ltb a b]: the key of [b] is not strictly smaller than
    the key of [a]; the order a sort by [key] establishes. *)
Definition not_before {A K : Type} (key : A -> K) (ltb : K -> K -> bool)
    (a b : A) : Prop :=
  ltb (key b) (key a) = false.

(** Sum of a list of integers. *)
Definition Zsum (l : list Z) : Z := foldr Z.add 0 l.

(** The subdivision test of [match]: the rule's code equals one of the
    address's two subdivision codes. *)
Definition subdivision_matches (self : RegionValue.t)
    (address : gmap string string) : bool :=
  String.eqb (RegionValue.get address "ISO3166-2-lvl4" "")
             (RegionValue.iso2 self)
  || String.eqb (RegionValue.get address "ISO3166-2-lvl3" "")
                (RegionValue.iso2 self).

(** The county/city step: +1 when the rule names neither, +2 when the
    county or the city it names is the address's, nothing otherwise. *)
Definition county_city_gain (self : RegionValue.t)
    (address : gmap string string) : Z :=
  if String.eqb (RegionValue.county self) ""
     && String.eqb (RegionValue.city self) "" then 1
  else if negb (String.eqb (RegionValue.county self) "")
          && String.eqb (RegionValue.get address "county" "")
                        (RegionValue.county self) then 2
  else if negb (String.eqb (RegionValue.city self) "")
          && String.eqb (RegionValue.get address "city" "")
                        (RegionValue.city self) then 2
  else 0.

(** The postal-prefix refinement of rules for country [jp]. *)
Definition postal_gain (self : RegionValue.t)
    (address : gmap string string) : Z :=
  if String.eqb (RegionValue.country_code self) "jp" then
    if String.eqb (RegionValue.jp_postal self) "" then 1
    else if String.eqb
              (String.substring 0 2 (RegionValue.get address "postcode" "XX"))
              (RegionValue.jp_postal self) then 2
    else 0
  else 0.

(** The specification's reading of [match]: the county/city step runs
    when the subdivision matched or is a wildcard. *)
Definition match_as_specified (self : RegionValue.t)
    (address : gmap string string) : Z :=
  if String.eqb (RegionValue.country_code self) "" then 1
  else if String.eqb (RegionValue.get address "country_code" "")
                     (RegionValue.country_code self) then
    2
    + (if String.eqb (RegionValue.iso2 self) ""
       then 1 + county_city_gain self address
       else if subdivision_matches self address
            then 2 + county_city_gain self address
            else 0)
    + postal_gain self address
  else 0.

(** [r] is the first rule of [rules] with maximal specificity for
    [address]. *)
Definition first_best (rules : list RegionValue.t)
    (address : gmap string string) (r : RegionValue.t) : Prop :=
  exists l1 l2,
    rules = (l1 ++ r :: l2)%list
    /\ (forall r', r' ∈ l1 ->
          RegionValue.match_ r' address < RegionValue.match_ r address)
    /\ (forall r', r' ∈ l2 ->
          RegionValue.match_ r' address <= RegionValue.match_ r address).

(** One iteration of the region loop once the address is known. *)
Definition best_step (address : gmap string string)
    (acc : Z * option RegionValue.t) (region : RegionValue.t)
    : Z * option RegionValue.t :=
  if RegionValue.match_ region address >? fst acc
  then (RegionValue.match_ region address, Some region)
  else acc.

(** The accumulators of the two entrant loops of [calculate_tier] for the
    selected rule [r]. *)
Definition participants_loop (lower : string -> string)
    (scored_players : dict ident PlayerValueGroup.t) (scored_tags : gset string)
    (self : Tournament.t) (r : RegionValue.t)
    : Z * list CountedValue.t * list PotentialMatchWithDqs.t :=
  fold_left (Tournament.participant_step lower scored_players scored_tags self)
    (Tournament.participants self)
    (0 + Tournament.total_entrants self * RegionValue.multiplier r, [], []).

Definition dqs_loop (lower : string -> string)
    (scored_players : dict ident PlayerValueGroup.t) (scored_tags : gset string)
    (self : Tournament.t) (potential_matches : list PotentialMatchWithDqs.t)
    : list DisqualificationValue.t * list PotentialMatchWithDqs.t :=
  fold_left (Tournament.dq_step lower scored_players scored_tags self)
    (dict_values (Tournament.dq_list self)) ([], potential_matches).

(** Where the lines of a result come from.  [valued_line_of p cv]: [cv]
    is the valued-participant line of the non-disqualified entrant [p],
    found by player id. *)
Definition valued_line_of (scored_players : dict ident PlayerValueGroup.t)
    (self : Tournament.t) (p : Entrant.t) (cv : CountedValue.t) : Prop :=
  dict_mem (Entrant.id_ p) (Tournament.dq_list self) = false
  /\ exists g pv,
       dict_get (Entrant.id_ p) scored_players = Some g
       /\ PlayerValueGroup.retrieve_value g (Tournament.start_time self)
          = Some pv
       /\ cv = CountedValue.init pv (Tournament.value_score self pv)
                 (Entrant.tag p).

(** [dq_line_of p n d]: [d] is the DQ'd-valued line of the disqualified
    entrant [p] with [n] disqualifications, found by player id. *)
Definition dq_line_of (scored_players : dict ident PlayerValueGroup.t)
    (self : Tournament.t) (p : Entrant.t) (n : Z)
    (d : DisqualificationValue.t) : Prop :=
  exists g pv,
    dict_get (Entrant.id_ p) scored_players = Some g
    /\ PlayerValueGroup.retrieve_value g (Tournament.start_time self) = Some pv
    /\ d = DisqualificationValue.mk
             (DisqualificationValue.Counted
                (CountedValue.init pv (Tournament.value_score self pv)
                   (Entrant.tag p)))
             n.

(** [potential_line_of p n m]: [m] is a potential-match line of entrant
    [p], whose id is absent from the registry and whose tag matches some
    group, carrying the DQ count [n]. *)
Definition potential_line_of (lower : string -> string)
    (scored_players : dict ident PlayerValueGroup.t) (scored_tags : gset string)
    (self : Tournament.t) (p : Entrant.t) (n : Z)
    (m : PotentialMatchWithDqs.t) : Prop :=
  dict_get (Entrant.id_ p) scored_players = None
  /\ lower (Entrant.tag p) ∈ scored_tags
  /\ exists g pv,
       g ∈ dict_values scored_players
       /\ PlayerValueGroup.match_tag lower g (Entrant.tag p) = true
       /\ PlayerValueGroup.retrieve_value g (Tournament.start_time self)
          = Some pv
       /\ m = PotentialMatchWithDqs.init (Entrant.tag p) (Entrant.id_ p)
                (Tournament.value_score self pv) (PlayerValue.note pv)
                (PlayerValue.tag pv) n.

(** Every value stored under a registry key carries that key as its id
    (the shape [read_players] builds). *)
Definition registry_ids_wf (scored_players : dict ident PlayerValueGroup.t)
    : Prop :=
  forall k g v,
    dict_get k scored_players = Some g ->
    v ∈ PlayerValueGroup.values g ->
    PlayerValue.id_ v = k.

(** [self] with another participant set. *)
Definition with_participants (self : Tournament.t)
    (participants_ : list Entrant.t) : Tournament.t :=
  Tournament.mk (Tournament.event_slug self) (Tournament.is_invitational self)
    (Tournament.tier self) (Tournament.total_dqs self)
    (Tournament.phases self) (Tournament.dq_list self) participants_
    (Tournament.total_entrants self) (Tournament.address self)
    (Tournament.start_time self).

(** What [read_players] guarantees of the group stored under key [k]. *)
Definition group_wf (k : ident) (g : PlayerValueGroup.t) : Prop :=
  PlayerValueGroup.id_ g = k
  /\ (forall v, v ∈ PlayerValueGroup.values g -> PlayerValue.id_ v = k)
  /\ values_sorted g.

Definition registry_wf (scored_players : dict ident PlayerValueGroup.t) : Prop :=
  forall k g, dict_get k scored_players = Some g -> group_wf k g.

(** The cache of [max_potential_score] is empty or holds the computed
    value, as in every object made by [__init__] and touched only by its
    own methods. *)
Definition cache_ok (r : TournamentTieringResult.t) : Prop :=
  TournamentTieringResult.max_score r = None
  \/ TournamentTieringResult.max_score r
     = Some (TournamentTieringResult.compute_max_score r).

(** The (player id, points) pair that [max_potential_score] reads off an
    entry of either list. *)
Definition pot_entry (pot : TournamentTieringResult.potential_entry)
    : ident * Z :=
  (TournamentTieringResult.pot_id pot, TournamentTieringResult.pot_points pot).

Definition dq_entry (dq : DisqualificationValue.t) : ident * Z :=
  (DisqualificationValue.value_id (DisqualificationValue.value dq),
   DisqualificationValue.value_points (DisqualificationValue.value dq)).

(** Maximum of the non-empty list [x :: l]. *)
Fixpoint Zmax_list (x : Z) (l : list Z) : Z :=
  match l with
  | [] => x
  | y :: rest => Z.max x (Zmax_list y rest)
  end.

(** The points of the entries with id [k]. *)
Definition points_of (k : ident) (entries : list (ident * Z)) : list Z :=
  map snd (List.filter (fun e => bool_decide (e.1 = k)) entries).

(** The best points among the entries with id [k] (0 when there is
    none). *)
Definition best_points (k : ident) (entries : list (ident * Z)) : Z :=
  match points_of k entries with
  | [] => 0
  | x :: rest => Zmax_list x rest
  end.

(** Sum, over the distinct ids, of the best points of each id. *)
Definition sum_best (entries : list (ident * Z)) : Z :=
  Zsum (map (fun k => best_points k entries) (remove_dups (map fst entries))).

(** Every player id among the entries has an entry without negative
    points, and every one an entry with positive points. *)
Definition best_nonneg (entries : list (ident * Z)) : Prop :=
  Forall (fun e => 0 <= best_points e.1 entries) entries.

Definition best_positive (entries : list (ident * Z)) : Prop :=
  Forall (fun e => 0 < best_points e.1 entries) entries.

(** The two kinds of DQ'd values: [max_potential_score] stores the points
    of a [CountedValue] as they are and the points of any other value
    through [max(points, dq_scores.get(id, 0))]. *)
Definition counted_nonneg (dq : DisqualificationValue.t) : Prop :=
  match DisqualificationValue.value dq with
  | DisqualificationValue.Counted c => 0 <= CountedValue.points c
  | DisqualificationValue.Plain _ => True
  end.

Definition plain_nonneg (dq : DisqualificationValue.t) : Prop :=
  match DisqualificationValue.value dq with
  | DisqualificationValue.Counted _ => True
  | DisqualificationValue.Plain v => 0 <= PlayerValue.points v
  end.

(** The table update both potential branches perform. *)
Definition max_step (table : dict ident Z) (e : ident * Z) : dict ident Z :=
  dict_set e.1 (Z.max e.2 (default 0 (dict_get e.1 table))) table.

(** The score kept for id [k] after the entries [es], starting from [a]:
    the running maximum the table update computes. *)
Definition running_best (k : ident) (es : list (ident * Z)) (a : Z) : Z :=
  fold_left (fun a e => if bool_decide (e.1 = k) then Z.max e.2 a else a) es a.

(** What [get_dqs] guarantees of the DQ map: distinct keys, each the
    player id of the entrant stored under it, with at least one DQ. *)
Definition dq_list_wf (dq_list : dict ident (Entrant.t * Z)) : Prop :=
  NoDup (dict_keys dq_list)
  /\ Forall (fun kv => Entrant.id_ kv.2.1 = kv.1 /\ 1 <= kv.2.2) dq_list.

(** Every score a registry value can contribute to this tournament
    satisfies [P]. *)
Definition registry_scores (P : Z -> Prop)
    (scored_players : dict ident PlayerValueGroup.t) (self : Tournament.t)
    : Prop :=
  forall g v,
    g ∈ dict_values scored_players ->
    v ∈ PlayerValueGroup.values g ->
    P (Tournament.value_score self v).

(** ** Vocabulary of the further properties *)

(** The shape of the group [read_players] stores under key [k]: it and
    its values carry the key as id, the values carry the group's tag and
    invitational bonus, there is at least one value, and the values are
    in descending order of points. *)
Definition group_shape (k : ident) (g : PlayerValueGroup.t) : Prop :=
  PlayerValueGroup.id_ g = k
  /\ PlayerValueGroup.values g <> []
  /\ values_sorted g
  /\ forall v,
       v ∈ PlayerValueGroup.values g ->
       PlayerValue.id_ v = k
       /\ PlayerValue.tag v = PlayerValueGroup.tag g
       /\ PlayerValue.invitational_val v = PlayerValueGroup.invitational_val g.

(** The value [add_value] appends before it sorts. *)
Definition new_value (g : PlayerValueGroup.t) (points : Z) (note : string)
    (start_time end_time : option date) : PlayerValue.t :=
  PlayerValue.mk (PlayerValueGroup.tag g) (PlayerValueGroup.id_ g) points note
    (PlayerValueGroup.invitational_val g) start_time end_time.

(** The invariant the loops of [read_players] keep. *)
Definition registry_shape (players : dict ident PlayerValueGroup.t) : Prop :=
  NoDup (dict_keys players)
  /\ forall k g, dict_get k players = Some g -> group_shape k g.

(** The tag set holds the lowercased form of every alternate tag of the
    tag table, and the lowercased canonical tag and the alternate tags
    of every group. *)
Definition alt_tags_covered (lower : string -> string)
    (alt_tags : dict string (list string)) (tags : gset string) : Prop :=
  forall key alts a,
    dict_get key alt_tags = Some alts -> a ∈ alts -> lower a ∈ tags.

Definition groups_covered (lower : string -> string)
    (players : dict ident PlayerValueGroup.t) (tags : gset string) : Prop :=
  forall g,
    g ∈ dict_values players ->
    lower (PlayerValueGroup.tag g) ∈ tags
    /\ forall o, o ∈ PlayerValueGroup.other_tags g -> o ∈ tags.

(** The slot of the loser of a set won by entrant [winnerId]. *)
Definition set_loser_slot (s : SetData) (winnerId : Z) : Slot :=
  if winnerId =? slot_entrant_id (set_slot0 s) then set_slot1 s
  else set_slot0 s.

(** A set that [get_dqs] counts as a disqualification: it has a winner
    and either no slot has a standing or the loser's score is −1. *)
Definition is_dq_set (s : SetData) : bool :=
  match set_winnerId s with
  | None => false
  | Some w =>
      match slot_standing (set_slot0 s), slot_standing (set_slot1 s) with
      | None, None => true
      | _, _ =>
          bool_decide (slot_standing (set_loser_slot s w) = Some (Some (-1)))
      end
  end.

(** A set that [get_dqs] counts as played: it has a winner and the loser
    has a standing with a score other than −1. *)
Definition is_played_set (s : SetData) : bool :=
  match set_winnerId s with
  | None => false
  | Some w =>
      match slot_standing (set_loser_slot s w) with
      | None => false
      | Some game_count => negb (bool_decide (game_count = Some (-1)))
      end
  end.

Module Samples3.
(** A rule for Fresno, California, and an address in Oakland,
    California. *)
Definition fresno_rule : RegionValue.t :=
  RegionValue.mk "us" "US-CA" "" "Fresno" "" 2 48 200 "Fresno".

Definition oakland_address : gmap string string :=
  {[ "country_code" := "us"; "ISO3166-2-lvl4" := "US-CA";
     "city" := "Oakland" ]}.
End Samples3.


(** * Paged requests, bulk scoring and the event search *)

(** ** Paged collections ([get_sets_in_phases], [get_entrants])

    Both functions run [while True] over the pages of a connection: they
    request page [page], consume its nodes, and stop when
    [page >= pageInfo.totalPages] of the response just received.  The
    server decides how many rounds that takes, so the loop carries fuel:
    [None] is a run that has not returned within [fuel] requests. *)

Record PageResp (A : Type) : Type := mkPageResp {
  page_nodes : list A;
  page_totalPages : Z
}.
Arguments mkPageResp {A} _ _.
Arguments page_nodes {A} _.
Arguments page_totalPages {A} _.

Section Paged.
Context {E A St : Type}.
(** [send_request] for page [page]: the nodes and [totalPages], or the
    exception raised while the response is read. *)
Variable fetch : Z -> E + PageResp A.
(** What the loop body does with the nodes of one page. *)
Variable step : St -> list A -> St.

Fixpoint paged_loop (fuel : nat) (page : Z) (acc : St) : option (E + St) :=
  match fuel with
  | O => None
  | S fuel' =>
      match fetch page with
      | inl e => Some (inl e)
      | inr resp =>
          let acc := step acc (page_nodes resp) in
          if page >=? page_totalPages resp then Some (inr acc)
          else paged_loop fuel' (page + 1) acc
      end
  end.
End Paged.

(** [get_sets_in_phases]: [sets.extend(nodes)] per page. *)
Definition get_sets_in_phases_paged (fetch : Z -> exn + PageResp SetData)
    (fuel : nat) : option (exn + list SetData) :=
  paged_loop fetch (fun sets nodes => (sets ++ nodes)%list) fuel 1 [].

(** [get_entrants]: [participants.add(player_data)] per node. *)
Definition get_entrants_paged (fetch : Z -> exn + PageResp Entrant.t)
    (fuel : nat) : option (exn + list Entrant.t) :=
  paged_loop fetch
    (fun participants nodes =>
       fold_left (fun participants player_data =>
                    set_add player_data participants) nodes participants)
    fuel 1 [].

(** The pages [first], [first + 1], ... ([count] of them). *)
Fixpoint pages_from (first : Z) (count : nat) : list Z :=
  match count with
  | O => []
  | S count' => first :: pages_from (first + 1) count'
  end.

(** ** [ultrank_bulk.bulk_score] *)

Module Bulk.
(** An element of [results]: a tiering result, or the slug that was
    skipped or whose scoring raised. *)
Inductive entry : Type :=
| Scored (result : TournamentTieringResult.t)
| Unscored (slug : string).

Section BulkScore.
Variable lower : string -> string.
Variable scored_players : dict ident PlayerValueGroup.t.
Variable scored_tags : gset string.
Variable region_mults : list RegionValue.t.
(** [startgg_slug_regex.fullmatch(slug)] *)
Variable fullmatch : string -> bool.
(** What start.gg and the geocoder answer for the tournament built from
    a slug. *)
Variable world : string -> Collaborators.

(** [t = Tournament(slug, invit); result = t.calculate_tier()] *)
Definition score_one (slug : string) (invit : bool)
    : exn + TournamentTieringResult.t :=
  bind_exn (Tournament.init (world slug) slug invit true) (fun t =>
  (Tournament.calculate_tier lower scored_players scored_tags region_mults
     (world slug) t).1).

(** One iteration of [for slug_obj in slugs]. *)
Definition bulk_score_step (results : list entry) (slug_obj : string * bool)
    : list entry :=
  let '(slug, invit) := slug_obj in
  if fullmatch slug then
    match score_one slug invit with
    | inr result => (results ++ [Scored result])%list
    | inl _ => (results ++ [Unscored slug])%list
    end
  else (results ++ [Unscored slug])%list.

Definition bulk_score (slugs : list (string * bool)) : list entry :=
  fold_left bulk_score_step slugs [].
End BulkScore.
End Bulk.

(** ** [ultrank_search]: related tournaments and the event search *)

(** The exceptions of the search module. *)
Inductive search_error : Type :=
| RequestError (msg : string)
| IndexError.

(** [class Tournament] of [ultrank_search.py]. *)
Module SearchTournament.
Record t : Type := mk {
  name : string;
  slug : string;
  start_at : Z;
  time_since : Z
}.

#[global] Instance eq_dec : EqDecision t.
Proof. solve_decision. Defined.

Definition init (name_ slug_ : string) (start_at_ : Z) : t :=
  mk name_ slug_ start_at_ start_at_.

Definition set_time_since (self : t) (v : Z) : t :=
  mk (name self) (slug self) (start_at self) v.
End SearchTournament.

(** One node of [owner.tournaments.nodes]. *)
Record OwnedNode : Type := mkOwnedNode {
  node_name : string;
  node_slug : string;
  node_startAt : Z;
  node_owner : Z
}.

(** One response of [admin_query]: the requested tournament and one page
    of its owner's tournaments. *)
Record AdminResp : Type := mkAdminResp {
  adm_name : string;
  adm_owner : Z;
  adm_startAt : Z;
  adm_nodes : list OwnedNode;
  adm_totalPages : Z
}.

(** The four variables [get_admined_tournaments] sets from the first
    response and keeps. *)
Record Latched : Type := mkLatched {
  tournament_name : string;
  tournament_owner_id : Z;
  tournament_start : Z;
  range_start : Z
}.

(** One event of a tournament node; [numEntrants] may be [null]. *)
Record Event : Type := mkEvent {
  ev_name : string;
  ev_slug : string;
  ev_type : Z;
  ev_videogame : Z;
  ev_numEntrants : option Z
}.

Record TournamentNode : Type := mkTournamentNode {
  tn_slug : string;
  tn_name : string;
  tn_events : list Event
}.

(** Why an event is written with [Used = False]. *)
Inductive skip_reason : Type :=
| ContainsWeekly
| ContainsArcadian
| SideEvent (word : string)
| Waitlist
| OtherLargerEvent
| PrecededBy (t : SearchTournament.t).

(** One row of [events.csv]; [None] is [Used = True]. *)
Record EventRow : Type := mkEventRow {
  er_tournament : string;
  er_event : string;
  er_slug : string;
  er_skipped : option skip_reason
}.

(** [s.find(sub) != -1] *)
Fixpoint contains (s sub : string) : bool :=
  String.prefix sub s
  || match s with
     | EmptyString => false
     | String _ rest => contains rest sub
     end.

Module Search.
Section Admined.
(** [(datetime.fromtimestamp(start) - timedelta(days=day_range)).timestamp()],
    computed in local time. *)
Variable days_before : Z -> Z -> Z.
(** [send_request] for page [page] of [admin_query(tournament_slug, page)]. *)
Variable fetch : Z -> search_error + AdminResp.
Variable tournament_slug : string.
Variable day_range : Z.

(** The condition of the list comprehension that gathers tournaments. *)
Definition gathered (l : Latched) (n : OwnedNode) : bool :=
  (node_owner n =? tournament_owner_id l)
  && negb (String.eqb (node_slug n) tournament_slug)
  && (range_start l <=? node_startAt n)
  && (node_startAt n <=? tournament_start l).

(** The condition of the comprehension whose length decides the early
    [break]; it reads the owner from the response at hand. *)
Definition not_after (resp : AdminResp) (l : Latched) (n : OwnedNode) : bool :=
  (node_owner n =? adm_owner resp)
  && (node_startAt n <=? tournament_start l).

Definition of_node (n : OwnedNode) : SearchTournament.t :=
  SearchTournament.init (node_name n) (node_slug n) (node_startAt n).

(** The [while True] loop; [latched] is [None] while the four variables
    are still [None]. *)
Fixpoint admined_loop (fuel : nat) (page : Z) (latched : option Latched)
    (tournaments : list SearchTournament.t)
    : option (search_error + (Latched * list SearchTournament.t)) :=
  match fuel with
  | O => None
  | S fuel' =>
      match fetch page with
      | inl e => Some (inl e)
      | inr resp =>
          let l :=
            match latched with
            | Some l => l
            | None =>
                mkLatched (adm_name resp) (adm_owner resp) (adm_startAt resp)
                  (days_before day_range (adm_startAt resp))
            end in
          let tournaments :=
            (tournaments
             ++ map of_node (List.filter (gathered l) (adm_nodes resp)))%list
          in
          if (length (List.filter (not_after resp l) (adm_nodes resp))
              =? 0)%nat
          then Some (inr (l, tournaments))
          else if page >=? adm_totalPages resp
               then Some (inr (l, tournaments))
               else admined_loop fuel' (page + 1) (Some l) tournaments
      end
  end.

(** [get_admined_tournaments]: the loop, then
    [tournaments.insert(0, Tournament(name, slug, start))]. *)
Definition get_admined_tournaments (fuel : nat)
    : option (search_error + list SearchTournament.t) :=
  match admined_loop fuel 1 None [] with
  | None => None
  | Some (inl e) => Some (inl e)
  | Some (inr (l, tournaments)) =>
      Some (inr (SearchTournament.init (tournament_name l) tournament_slug
                   (tournament_start l) :: tournaments))
  end.
End Admined.

Section Weekly.
Variable days_before : Z -> Z -> Z.
(** [jaro_winkler(a, b, score_cutoff=MINIMUM_JARO_SIMILARITY) != 0] *)
Variable similar : string -> string -> bool.

(** The body of [check_potential_weekly] below the call of
    [get_admined_tournaments]. *)
Definition first_similar (other_admined_tournaments : list SearchTournament.t)
    : search_error + option SearchTournament.t :=
  match other_admined_tournaments with
  | [] => inl IndexError
  | base_tournament :: rest =>
      inr (match find (fun tournament =>
                         similar (SearchTournament.name base_tournament)
                           (SearchTournament.name tournament)) rest with
           | Some tournament =>
               Some (SearchTournament.set_time_since tournament
                       (SearchTournament.start_at base_tournament
                        - SearchTournament.start_at tournament))
           | None => None
           end)
  end.

Definition check_potential_weekly (fetch : Z -> search_error + AdminResp)
    (tournament_slug : string) (fuel : nat)
    : option (search_error + option SearchTournament.t) :=
  match get_admined_tournaments days_before fetch tournament_slug 15 fuel with
  | None => None
  | Some (inl e) => Some (inl e)
  | Some (inr other_admined_tournaments) =>
      Some (first_similar other_admined_tournaments)
  end.
End Weekly.

Section Events.
Variable lower : string -> string.
(** The outcome of [check_potential_weekly(slug)]. *)
Variable potential_weekly_of : string -> search_error + option SearchTournament.t.

(** The chain of name tests in front of the [added_event] test, in the
    order of the code. *)
Definition exclusion (tournament_name event_name : string)
    : option skip_reason :=
  let tn := lower tournament_name in
  let en := lower event_name in
  if contains tn "weekly" || contains en "weekly" then Some ContainsWeekly
  else if contains tn "arcadian" || contains en "arcadian"
  then Some ContainsArcadian
  else if contains en "redemption" then Some (SideEvent "redemption")
  else if contains en "buster" then Some (SideEvent "buster")
  else if contains en "amateur" then Some (SideEvent "amateur")
  else if contains en "squad" then Some (SideEvent "squad")
  else if contains en "random" then Some (SideEvent "random")
  else if contains en "cpu" then Some (SideEvent "cpu")
  else if contains en "amiibo" then Some (SideEvent "amiibo")
  else if contains en "hdr" then Some (SideEvent "hdr")
  else if contains en "wait" then Some Waitlist
  else None.

Definition is_monthly (tournament_name event_name : string) : bool :=
  contains (lower tournament_name) "monthly"
  || contains (lower event_name) "monthly".

(** The list comprehension over [tournament['events']]. *)
Definition eligible (event : Event) : bool :=
  (ev_type event =? 1) && (ev_videogame event =? 1386)
  && match ev_numEntrants event with Some _ => true | None => false end.

(** The sort key; [numEntrants] is not [None] after the filter. *)
Definition num_entrants (event : Event) : Z :=
  match ev_numEntrants event with Some n => n | None => 0 end.

Definition sorted_events (tournament : TournamentNode) : list Event :=
  sort_reverse_by num_entrants Z.ltb
    (List.filter eligible (tn_events tournament)).

(** [slugs] and the rows written so far. *)
Definition output : Type := list string * list EventRow.

Definition write_row (tournament : TournamentNode) (event : Event)
    (skipped : option skip_reason) (out : output) : output :=
  (out.1,
   (out.2 ++ [mkEventRow (tn_name tournament) (ev_name event) (ev_slug event)
                skipped])%list).

Definition use_event (tournament : TournamentNode) (event : Event)
    (out : output) : output :=
  ((out.1 ++ [ev_slug event])%list,
   (out.2 ++ [mkEventRow (tn_name tournament) (ev_name event) (ev_slug event)
                None])%list).

(** [for event in events] inside the [try]: [added_event] and
    [potential_weekly] ([None] is ["not checked"]) are the loop's
    variables.  An exception of [check_potential_weekly] leaves the loop;
    the handler prints and goes on with the next tournament, and what was
    appended and written before stays. *)
Fixpoint events_loop (tournament : TournamentNode) (events : list Event)
    (added_event : bool) (potential_weekly : option (option SearchTournament.t))
    (out : output) : output :=
  match events with
  | [] => out
  | event :: rest =>
      match exclusion (tn_name tournament) (ev_name event) with
      | Some reason =>
          events_loop tournament rest added_event potential_weekly
            (write_row tournament event (Some reason) out)
      | None =>
          if added_event then
            events_loop tournament rest added_event potential_weekly
              (write_row tournament event (Some OtherLargerEvent) out)
          else if is_monthly (tn_name tournament) (ev_name event) then
            events_loop tournament rest true potential_weekly
              (use_event tournament event out)
          else
            match
              match potential_weekly with
              | None => potential_weekly_of (tn_slug tournament)
              | Some checked => inr checked
              end
            with
            | inl _ => out
            | inr (Some weekly) =>
                events_loop tournament rest true (Some (Some weekly))
                  (write_row tournament event (Some (PrecededBy weekly)) out)
            | inr None =>
                events_loop tournament rest true (Some None)
                  (use_event tournament event out)
            end
      end
  end.

(** One iteration of [for tournament in nodes]. *)
Definition tournament_step (out : output) (tournament : TournamentNode)
    : output :=
  events_loop tournament (sorted_events tournament) false None out.

(** [retrieve_event_slugs]: the pages of [tournaments_query]; the result
    is [slugs]. *)
Definition retrieve_event_slugs
    (fetch : Z -> search_error + PageResp TournamentNode) (fuel : nat)
    : option (search_error + list string) :=
  match paged_loop fetch (fun out nodes => fold_left tournament_step nodes out)
          fuel 1 ([], []) with
  | None => None
  | Some (inl e) => Some (inl e)
  | Some (inr out) => Some (inr out.1)
  end.

(** An event that none of the name tests excludes. *)
Definition passes (tournament : TournamentNode) (event : Event) : bool :=
  match exclusion (tn_name tournament) (ev_name event) with
  | None => true
  | Some _ => false
  end.

(** The closed form of one run of [events_loop] from its initial state
    (it is not a function of the source; the theorems relate it to the
    loop): the first of the sorted events that passes the name tests,
    when it is a monthly or no similar earlier tournament is found. *)
Definition chosen_event (tournament : TournamentNode) : option Event :=
  match List.filter (passes tournament) (sorted_events tournament) with
  | [] => None
  | event :: _ =>
      if is_monthly (tn_name tournament) (ev_name event) then Some event
      else match potential_weekly_of (tn_slug tournament) with
           | inr None => Some event
           | _ => None
           end
  end.
End Events.
End Search.

(** ** Concrete servers for the examples *)

Module Samples4.
(** Two pages of entrants; Bob is listed on both. *)
Definition entrants_two_pages : Z -> exn + PageResp Entrant.t :=
  fun page =>
    if page =? 1 then inr (mkPageResp [Samples.alice; Samples.bob] 2)
    else if page =? 2 then inr (mkPageResp [Samples.bob; Samples.zed] 2)
    else inl (CollaboratorError "no such page").

(** The second of three pages cannot be read. *)
Definition entrants_broken : Z -> exn + PageResp Entrant.t :=
  fun page =>
    if page =? 1 then inr (mkPageResp [Samples.alice] 3)
    else inl (CollaboratorError "bad response").

(** A server that always announces one more page. *)
Definition entrants_endless : Z -> exn + PageResp Entrant.t :=
  fun page => inr (mkPageResp [Samples.alice] (page + 1)).

Definition entrants_source : Collaborators :=
  mkCollaborators
    (fun s => Some s)
    (inr [])
    (fun _ => inr [])
    (inr [Samples.alice; Samples.bob; Samples.bob; Samples.zed])
    (inr ("40.7", "-74.0"))
    Samples.geo_ok
    (inr 738000)
    (inr ("Weekly", "Singles")).
End Samples4.

Module Samples5.
(** The owner's page for the twelfth edition of a series: the eleventh
    edition a week earlier, an unrelated tournament of another owner,
    and an edition from long before. *)
Definition days_before (day_range start : Z) : Z := start - day_range * 86400.

Definition admin_page : Z -> search_error + AdminResp :=
  fun page =>
    if page =? 1 then
      inr (mkAdminResp "Harbor Clash 12" 7 2000000
             [mkOwnedNode "Harbor Clash 12" "tournament/harbor-clash-12"
                2000000 7;
              mkOwnedNode "Harbor Clash 11" "tournament/harbor-clash-11"
                1395200 7;
              mkOwnedNode "City Open" "tournament/city-open" 1900000 8;
              mkOwnedNode "Harbor Clash 1" "tournament/harbor-clash-1"
                100000 7]
             1)
    else inl (RequestError "no such page").

(** Names are similar when they agree on their first twelve characters. *)
Definition similar (a b : string) : bool :=
  String.eqb (String.substring 0 12 a) (String.substring 0 12 b).

Definition singles : Event :=
  mkEvent "Ultimate Singles" "tournament/harbor/event/singles" 1 1386
    (Some 64).
Definition doubles : Event :=
  mkEvent "Ultimate Doubles" "tournament/harbor/event/doubles" 5 1386
    (Some 20).
Definition redemption : Event :=
  mkEvent "Redemption Bracket" "tournament/harbor/event/redemption" 1 1386
    (Some 96).
Definition squad_strike : Event :=
  mkEvent "Squad Strike" "tournament/harbor/event/squad" 1 1386 (Some 12).

Definition ladder : Event :=
  mkEvent "Ultimate Ladder" "tournament/harbor/event/ladder" 1 1386 (Some 30).

Definition harbor : TournamentNode :=
  mkTournamentNode "tournament/harbor-clash-12" "Harbor Clash 12"
    [squad_strike; ladder; singles; doubles; redemption].

Definition no_weekly : string -> search_error + option SearchTournament.t :=
  fun _ => inr None.

Definition tournament_pages : Z -> search_error + PageResp TournamentNode :=
  fun page =>
    if page =? 1 then inr (mkPageResp [harbor] 1)
    else inl (RequestError "no such page").
End Samples5.
(** * Properties *)

(** ** Sorting *)

Section SortFacts.
Context {A K : Type} (key : A -> K) (ltb : K -> K -> bool).

Lemma insert_by_Permutation (x : A) (l : list A) :
  insert_by key ltb x l ≡ₚ x :: l.
Proof.
  induction l as [|y rest IH]; simpl; [reflexivity|].
  destruct (ltb (key y) (key x)); [|reflexivity].
  rewrite IH. apply perm_swap.
Qed.

Lemma sort_by_Permutation (l : list A) : sort_by key ltb l ≡ₚ l.
Proof.
  induction l as [|x rest IH]; simpl; [reflexivity|].
  rewrite insert_by_Permutation. by rewrite IH.
Qed.

Hypothesis ltb_asym : forall a b, ltb a b = true -> ltb b a = false.

Lemma insert_by_Sorted (x : A) (l : list A) :
  Sorted (not_before key ltb) l -> Sorted (not_before key ltb) (insert_by key ltb x l).
Proof.
  induction l as [|y rest IH]; intros Hs; simpl.
  - repeat constructor.
  - destruct (ltb (key y) (key x)) eqn:Hlt.
    + inversion Hs as [|? ? Hrest Hhd]; subst.
      constructor; [by apply IH|].
      destruct rest as [|z rest']; simpl.
      * constructor. unfold not_before. by apply ltb_asym.
      * destruct (ltb (key z) (key x)).
        -- inversion Hhd; subst. by constructor.
        -- constructor. unfold not_before. by apply ltb_asym.
    + constructor; [done|]. by constructor.
Qed.

Lemma sort_by_Sorted (l : list A) : Sorted (not_before key ltb) (sort_by key ltb l).
Proof.
  induction l as [|x rest IH]; simpl; [constructor|].
  by apply insert_by_Sorted.
Qed.
End SortFacts.

Lemma sort_reverse_by_Permutation {A K : Type} (key : A -> K)
    (ltb : K -> K -> bool) (l : list A) :
  sort_reverse_by key ltb l ≡ₚ l.
Proof. apply sort_by_Permutation. Qed.

(** A list sorted with [reverse=True] on an integer key is descending. *)
Lemma sort_reverse_by_descending {A : Type} (key : A -> Z) (l : list A) :
  StronglySorted (fun a b => key b <= key a) (sort_reverse_by key Z.ltb l).
Proof.
  apply Sorted_StronglySorted; [intros a b c ? ?; lia|].
  assert (Hs : Sorted (not_before key (fun a b => b <? a))
                 (sort_reverse_by key Z.ltb l)).
  { apply sort_by_Sorted. intros a b Hab.
    apply Z.ltb_lt in Hab. apply Z.ltb_ge. lia. }
  induction Hs as [|a l' Hl IH Hhd]; constructor; [done|].
  destruct Hhd as [|b l'' Hb]; constructor.
  unfold not_before in Hb. apply Z.ltb_ge in Hb. lia.
Qed.

(** ** The player-value registry *)

Lemma is_within_timeframe_spec (v : PlayerValue.t) (d : date) :
  PlayerValue.is_within_timeframe v d = true <-> window_contains v d.
Proof.
  unfold PlayerValue.is_within_timeframe, window_contains.
  destruct (PlayerValue.start_time v) as [s|],
           (PlayerValue.end_time v) as [e|];
    repeat match goal with
      | |- context [d <? ?s] => destruct (Z.ltb_spec d s)
      | |- context [d >=? ?e] => destruct (Z.geb_spec d e)
      end;
    split; try discriminate; try done;
    try (intros [H1 H2]; try specialize (H1 _ eq_refl);
         try specialize (H2 _ eq_refl); lia);
    try (intros _; split; intros ? [=]; subst; lia).
Qed.

Lemma init_values_sorted lower id tag inv others :
  values_sorted (PlayerValueGroup.init lower id tag inv others).
Proof. constructor. Qed.

Lemma add_value_values_sorted g points note s e :
  values_sorted (PlayerValueGroup.add_value g points note s e).
Proof. apply sort_reverse_by_descending. Qed.

Lemma set_invitational_val_values_sorted g value :
  values_sorted g ->
  values_sorted (PlayerValueGroup.set_invitational_val g value).
Proof.
  unfold values_sorted. simpl.
  induction 1 as [|v l Hl IH Hall]; simpl; constructor; [exact IH|].
  rewrite Forall_map. eapply Forall_impl; [exact Hall|]. by intros.
Qed.

(** The scan of [retrieve_value] over a descending list, by its
    outcome. *)
Lemma retrieve_value_cases (g : PlayerValueGroup.t) (d : date) :
  values_sorted g ->
  match PlayerValueGroup.retrieve_value g d with
  | Some v =>
      v ∈ PlayerValueGroup.values g
      /\ window_contains v d
      /\ forall v', v' ∈ PlayerValueGroup.values g -> window_contains v' d ->
                    PlayerValue.points v' <= PlayerValue.points v
  | None =>
      forall v', v' ∈ PlayerValueGroup.values g -> ~ window_contains v' d
  end.
Proof.
  unfold values_sorted, PlayerValueGroup.retrieve_value.
  induction 1 as [|v l Hl IH Hall]; simpl.
  - intros v' Hin. by apply not_elem_of_nil in Hin.
  - destruct (PlayerValue.is_within_timeframe v d) eqn:Hw.
    + apply is_within_timeframe_spec in Hw.
      split; [left|]. split; [done|].
      intros v' Hin _. apply elem_of_cons in Hin as [->|Hin]; [lia|].
      rewrite Forall_forall in Hall. by apply Hall.
    + assert (Hnot : ~ window_contains v d).
      { rewrite <- is_within_timeframe_spec. by rewrite Hw. }
      destruct (find _ l) as [w|].
      * destruct IH as (Hin & Hwin & Hmax).
        split; [by right|]. split; [done|].
        intros v' Hin' Hwin'. apply elem_of_cons in Hin' as [->|Hin'];
          [done|by apply Hmax].
      * intros v' Hin'. apply elem_of_cons in Hin' as [->|Hin'];
          [done|by apply IH].
Qed.

(** C2. For a group whose values are in descending order of points (the
    order [add_value] leaves them in) and every date, the value
    [retrieve_value] returns is a stored value whose window
    [[valid_from, valid_until)] (unbounded on an absent side) contains
    the date, with the highest points among the stored values whose
    window contains the date; and [retrieve_value] returns none exactly
    when no stored value's window contains the date. *)
Theorem retrieve_value_highest_in_window (g : PlayerValueGroup.t) (d : date) :
  values_sorted g ->
  (forall v,
     PlayerValueGroup.retrieve_value g d = Some v ->
     v ∈ PlayerValueGroup.values g
     /\ window_contains v d
     /\ forall v', v' ∈ PlayerValueGroup.values g -> window_contains v' d ->
                   PlayerValue.points v' <= PlayerValue.points v)
  /\ (PlayerValueGroup.retrieve_value g d = None
      <-> forall v', v' ∈ PlayerValueGroup.values g -> ~ window_contains v' d).
Proof.
  intros Hsorted. pose proof (retrieve_value_cases g d Hsorted) as Hcases.
  destruct (PlayerValueGroup.retrieve_value g d) as [v|].
  - split; [by intros v0 [= <-]|].
    split; [done|]. intros Hnone.
    destruct Hcases as (Hin & Hwin & _). by destruct (Hnone v Hin).
  - split; [done|]. by split.
Qed.

Lemma retrieve_value_highest_in_window_witness :
  values_sorted Samples2.alice_group
  /\ forall v,
       PlayerValueGroup.retrieve_value Samples2.alice_group 738050 = Some v ->
       v ∈ PlayerValueGroup.values Samples2.alice_group
       /\ window_contains v 738050
       /\ forall v', v' ∈ PlayerValueGroup.values Samples2.alice_group ->
                     window_contains v' 738050 ->
                     PlayerValue.points v' <= PlayerValue.points v.
Proof.
  assert (Hs : values_sorted Samples2.alice_group).
  { unfold values_sorted. simpl. repeat constructor; simpl; lia. }
  split; [exact Hs|].
  exact (proj1 (retrieve_value_highest_in_window Samples2.alice_group 738050
                  Hs)).
Defined.

(** On day 738050 the 150-point value is in its window and wins over the
    unbounded 100-point value; after the window only the latter is left. *)
Example retrieve_value_inside_window :
  PlayerValue.points
    <$> PlayerValueGroup.retrieve_value Samples2.alice_group 738050
  = Some 150.
Proof. reflexivity. Qed.

Example retrieve_value_after_window :
  PlayerValue.points
    <$> PlayerValueGroup.retrieve_value Samples2.alice_group 738100
  = Some 100.
Proof. reflexivity. Qed.

(** ** Dictionaries *)

Section DictFacts.
Context {K V : Type} `{EqDecision K}.
Implicit Types (d : dict K V) (k : K) (v : V).

Lemma dict_get_set d k k' v :
  dict_get k' (dict_set k v d)
  = if decide (k' = k) then Some v else dict_get k' d.
Proof.
  induction d as [|[k0 v0] rest IH]; simpl.
  - destruct (decide (k' = k)); done.
  - destruct (decide (k = k0)) as [->|Hne]; simpl.
    + destruct (decide (k' = k0)); done.
    + destruct (decide (k' = k0)) as [->|Hne'].
      * destruct (decide (k0 = k)); [congruence|done].
      * exact IH.
Qed.

Lemma dict_get_set_eq d k v : dict_get k (dict_set k v d) = Some v.
Proof. rewrite dict_get_set. by destruct (decide (k = k)). Qed.

Lemma dict_get_set_ne d k k' v :
  k' <> k -> dict_get k' (dict_set k v d) = dict_get k' d.
Proof. intros Hne. rewrite dict_get_set. by destruct (decide (k' = k)). Qed.

Lemma dict_get_None_keys d k : dict_get k d = None <-> k ∉ dict_keys d.
Proof.
  induction d as [|[k0 v0] rest IH]; simpl.
  - split; [intros _; apply not_elem_of_nil|done].
  - rewrite not_elem_of_cons. destruct (decide (k = k0)) as [->|Hne].
    + split; [done|]. by intros [? _].
    + rewrite IH. split; [done|]. by intros [_ ?].
Qed.

Lemma dict_get_Some_values d k v : dict_get k d = Some v -> v ∈ dict_values d.
Proof.
  induction d as [|[k0 v0] rest IH]; simpl; [done|].
  destruct (decide (k = k0)).
  - intros [= ->]. left.
  - intros H. right. by apply IH.
Qed.

(** Setting a key keeps the key list, or appends the new key. *)
Lemma dict_keys_set d k v :
  dict_keys (dict_set k v d)
  = if dict_mem k d then dict_keys d else (dict_keys d ++ [k])%list.
Proof.
  unfold dict_mem. induction d as [|[k0 v0] rest IH]; simpl; [done|].
  destruct (decide (k = k0)); simpl; [done|].
  rewrite IH. by destruct (dict_get k rest).
Qed.

Lemma dict_keys_set_NoDup d k v :
  NoDup (dict_keys d) -> NoDup (dict_keys (dict_set k v d)).
Proof.
  intros Hnd. rewrite dict_keys_set. unfold dict_mem.
  destruct (dict_get k d) eqn:Hget; [done|].
  apply dict_get_None_keys in Hget.
  apply NoDup_app. split; [done|]. split.
  - intros x Hx Hx'. apply list_elem_of_singleton in Hx' as ->. done.
  - apply NoDup_singleton.
Qed.
End DictFacts.

(** ** The registry built by [read_players] *)

Lemma init_group_wf lower k tag inv others :
  group_wf k (PlayerValueGroup.init lower k tag inv others).
Proof.
  split; [done|]. split; [|apply init_values_sorted].
  intros v Hin. by apply not_elem_of_nil in Hin.
Qed.

Lemma add_value_group_wf k g points note s e :
  group_wf k g -> group_wf k (PlayerValueGroup.add_value g points note s e).
Proof.
  intros (Hid & Hvals & _). split; [done|].
  split; [|apply add_value_values_sorted].
  intros v. simpl. rewrite sort_reverse_by_Permutation, elem_of_app.
  intros [Hin|Hin]; [by apply Hvals|].
  apply list_elem_of_singleton in Hin as ->. done.
Qed.

Lemma set_invitational_val_group_wf k g value :
  group_wf k g -> group_wf k (PlayerValueGroup.set_invitational_val g value).
Proof.
  intros (Hid & Hvals & Hsorted). split; [done|].
  split; [|by apply set_invitational_val_values_sorted].
  intros v. simpl. rewrite list_elem_of_fmap.
  intros (v0 & -> & Hin). simpl. by apply Hvals.
Qed.

Lemma players_step_registry_wf lower strip alt_tags acc row :
  registry_wf acc.1 ->
  registry_wf (players_step lower strip alt_tags acc row).1.
Proof.
  destruct acc as [players tags]. unfold players_step. simpl. intros Hwf.
  destruct (String.eqb (strip (row_player row)) ""); [done|]. simpl.
  intros k g. rewrite dict_get_set.
  destruct (decide (k = _)) as [->|Hne]; [|by apply Hwf].
  intros [= <-]. apply add_value_group_wf.
  destruct (dict_get _ players) as [g0|] eqn:Hget;
    [by apply Hwf|apply init_group_wf].
Qed.

Lemma invit_step_registry_wf players row :
  registry_wf players -> registry_wf (invit_step players row).
Proof.
  unfold invit_step. intros Hwf.
  destruct (dict_get _ players) as [g0|] eqn:Hget; [|done].
  intros k g. rewrite dict_get_set.
  destruct (decide (k = _)) as [->|Hne]; [|by apply Hwf].
  intros [= <-]. apply set_invitational_val_group_wf. by apply Hwf.
Qed.

(** Every registry [read_players] returns is well formed: a group sits
    under its own id, so do its values, and they are in descending order
    of points. *)
Lemma read_players_registry_wf lower strip tag_rows player_rows invit_rows :
  registry_wf (read_players lower strip tag_rows player_rows invit_rows).1.
Proof.
  unfold read_players.
  destruct (fold_left (tags_step lower) _ _) as [alt_tags tags].
  assert (Hplayers : forall rows acc,
            registry_wf acc.1 ->
            registry_wf
              (fold_left (players_step lower strip alt_tags) rows acc).1).
  { induction rows as [|row rest IH]; intros acc Hacc; simpl; [done|].
    apply IH. by apply players_step_registry_wf. }
  specialize (Hplayers player_rows ([], tags)).
  destruct (fold_left (players_step lower strip alt_tags) _ _)
    as [players tags'].
  simpl in *.
  assert (Hinvit : forall rows players0,
            registry_wf players0 ->
            registry_wf (fold_left invit_step rows players0)).
  { induction rows as [|row rest IH]; intros players0 H0; simpl; [done|].
    apply IH. by apply invit_step_registry_wf. }
  apply Hinvit, Hplayers. intros k g. done.
Qed.

Lemma registry_wf_ids scored_players :
  registry_wf scored_players -> registry_ids_wf scored_players.
Proof. intros Hwf k g v Hget Hin. by apply (Hwf k g Hget). Qed.

(** ** Region matching *)

Lemma match_fallback (self : RegionValue.t) (address : gmap string string) :
  RegionValue.country_code self = "" -> RegionValue.match_ self address = 1.
Proof. intros H. unfold RegionValue.match_. by rewrite H. Qed.

Lemma match_nonneg (self : RegionValue.t) (address : gmap string string) :
  0 <= RegionValue.match_ self address.
Proof.
  unfold RegionValue.match_.
  repeat match goal with
         | |- context [if ?b then _ else _] => destruct b
         end; lia.
Qed.

(** C4 (as the code has it). For a rule with a country code equal to the
    address's: a wildcard subdivision gives +1 and the county/city step is
    skipped; a subdivision equal to the address's gives +2 and then the
    county/city step (+1 when the rule names neither county nor city, +2
    when the county or city it names equals the address's); a subdivision
    that differs gives nothing and skips the step. *)
Theorem match_county_city_step (self : RegionValue.t)
    (address : gmap string string) :
  RegionValue.country_code self <> "" ->
  RegionValue.get address "country_code" "" = RegionValue.country_code self ->
  (RegionValue.iso2 self = "" ->
     RegionValue.match_ self address = 2 + 1 + postal_gain self address)
  /\ (RegionValue.iso2 self <> "" -> subdivision_matches self address = true ->
        RegionValue.match_ self address
        = 2 + 2 + county_city_gain self address + postal_gain self address)
  /\ (RegionValue.iso2 self <> "" -> subdivision_matches self address = false ->
        RegionValue.match_ self address = 2 + postal_gain self address).
Proof.
  intros Hcc Hcountry.
  unfold RegionValue.match_, postal_gain, county_city_gain,
    subdivision_matches.
  rewrite Hcountry, String.eqb_refl.
  destruct (String.eqb_spec (RegionValue.country_code self) "") as [?|_];
    [done|].
  split; [|split].
  - intros ->. simpl.
    repeat match goal with
           | |- context [if ?b then _ else _] => destruct b
           end; lia.
  - intros Hiso Hsub. rewrite Hsub.
    destruct (String.eqb_spec (RegionValue.iso2 self) "") as [?|_]; [done|].
    repeat match goal with
           | |- context [if ?b then _ else _] => destruct b
           end; lia.
  - intros Hiso Hsub. rewrite Hsub.
    destruct (String.eqb_spec (RegionValue.iso2 self) "") as [?|_]; [done|].
    repeat match goal with
           | |- context [if ?b then _ else _] => destruct b
           end; lia.
Qed.

Lemma match_county_city_step_witness :
  RegionValue.country_code Samples.us_rule <> ""
  /\ RegionValue.get Samples.us_address "country_code" ""
     = RegionValue.country_code Samples.us_rule
  /\ RegionValue.match_ Samples.us_rule Samples.us_address
     = 2 + 1 + postal_gain Samples.us_rule Samples.us_address.
Proof.
  assert (H1 : RegionValue.country_code Samples.us_rule <> "") by done.
  assert (H2 : RegionValue.get Samples.us_address "country_code" ""
               = RegionValue.country_code Samples.us_rule)
    by (vm_compute; reflexivity).
  split; [exact H1|]. split; [exact H2|].
  exact (proj1 (match_county_city_step Samples.us_rule Samples.us_address
                  H1 H2) eq_refl).
Defined.

(** C4, counterexample. With a wildcard subdivision the county/city step
    is not evaluated: the country-only rule scores 3 on a matching
    address, not the 4 the specified steps add up to. *)
Lemma match_wildcard_subdivision_skips_county_city :
  RegionValue.match_ Samples.us_rule Samples.us_address = 3
  /\ match_as_specified Samples.us_rule Samples.us_address = 4.
Proof. split; vm_compute; reflexivity. Qed.

(** ** Region selection *)

Lemma region_loop_raised (self : Tournament.t) (rules : list RegionValue.t)
    (e : exn) :
  fold_left (Tournament.region_step self) rules (inl e) = inl e.
Proof. induction rules as [|r rest IH]; simpl; [done|exact IH]. Qed.

Lemma region_loop_address (self : Tournament.t) (a : gmap string string)
    (rules : list RegionValue.t) (acc : Z * option RegionValue.t) :
  Tournament.address self = Some a ->
  fold_left (Tournament.region_step self) rules (inr acc)
  = inr (fold_left (best_step a) rules acc).
Proof.
  intros Ha. revert acc.
  induction rules as [|r rest IH]; intros [bm br]; simpl; [done|].
  rewrite Ha.
  assert (Hstep : best_step a (bm, br) r
                  = if RegionValue.match_ r a >? bm
                    then (RegionValue.match_ r a, Some r) else (bm, br))
    by reflexivity.
  rewrite Hstep.
  destruct (RegionValue.match_ r a >? bm); apply IH.
Qed.

Lemma region_loop_unset (self : Tournament.t) (r : RegionValue.t)
    (rest : list RegionValue.t) :
  Tournament.address self = None ->
  Tournament.select_region (r :: rest) self = inl (AttributeError "address").
Proof.
  intros Ha. unfold Tournament.select_region. simpl. rewrite Ha.
  apply region_loop_raised.
Qed.

(** The loop keeps the first rule that reaches the highest specificity
    above the initial [best_match]; it keeps the initial pair when no rule
    scores above it. *)
Lemma best_step_fold_spec (a : gmap string string)
    (rules : list RegionValue.t) (bm : Z) (br : option RegionValue.t) :
  (fold_left (best_step a) rules (bm, br) = (bm, br)
   /\ forall r', r' ∈ rules -> RegionValue.match_ r' a <= bm)
  \/ (exists r,
        fold_left (best_step a) rules (bm, br)
        = (RegionValue.match_ r a, Some r)
        /\ bm < RegionValue.match_ r a
        /\ first_best rules a r).
Proof.
  revert bm br. induction rules as [|x rest IH]; intros bm br; simpl.
  - left. split; [done|]. intros r' Hin. by apply not_elem_of_nil in Hin.
  - assert (Hstep : best_step a (bm, br) x
                    = if RegionValue.match_ x a >? bm
                      then (RegionValue.match_ x a, Some x) else (bm, br))
      by reflexivity.
    rewrite Hstep. clear Hstep.
    destruct (Z.gtb_spec (RegionValue.match_ x a) bm) as [Hgt|Hle].
    + right.
      destruct (IH (RegionValue.match_ x a) (Some x))
        as [[Heq Hall]|(r & Heq & Hlt & l1 & l2 & -> & H1 & H2)].
      * exists x. split; [done|]. split; [lia|].
        exists [], rest. split; [done|]. split; [|done].
        intros r' Hin. by apply not_elem_of_nil in Hin.
      * exists r. split; [done|]. split; [lia|].
        exists (x :: l1), l2. split; [done|]. split; [|done].
        intros r' Hin. apply elem_of_cons in Hin as [->|Hin]; [lia|].
        by apply H1.
    + destruct (IH bm br)
        as [[Heq Hall]|(r & Heq & Hlt & l1 & l2 & -> & H1 & H2)].
      * left. split; [done|].
        intros r' Hin. apply elem_of_cons in Hin as [->|Hin]; [lia|].
        by apply Hall.
      * right. exists r. split; [done|]. split; [done|].
        exists (x :: l1), l2. split; [done|]. split; [|done].
        intros r' Hin. apply elem_of_cons in Hin as [->|Hin]; [lia|].
        by apply H1.
Qed.

Lemma first_best_maximal (rules : list RegionValue.t)
    (a : gmap string string) (r : RegionValue.t) :
  first_best rules a r ->
  r ∈ rules
  /\ forall r', r' ∈ rules -> RegionValue.match_ r' a <= RegionValue.match_ r a.
Proof.
  intros (l1 & l2 & -> & H1 & H2). split.
  - apply elem_of_app. right. left.
  - intros r' Hin. apply elem_of_app in Hin as [Hin|Hin].
    + specialize (H1 r' Hin). lia.
    + apply elem_of_cons in Hin as [->|Hin]; [lia|by apply H2].
Qed.

(** Selection over a known address: a rule is selected exactly when some
    rule scores above 0, and it is then the first best one. *)
Lemma select_region_spec (region_mults : list RegionValue.t)
    (self : Tournament.t) (a : gmap string string) :
  Tournament.address self = Some a ->
  (Tournament.select_region region_mults self = inr (0, None)
   /\ forall r', r' ∈ region_mults -> RegionValue.match_ r' a <= 0)
  \/ (exists r,
        Tournament.select_region region_mults self
        = inr (RegionValue.match_ r a, Some r)
        /\ 0 < RegionValue.match_ r a
        /\ first_best region_mults a r).
Proof.
  intros Ha. unfold Tournament.select_region.
  rewrite (region_loop_address self a region_mults (0, None) Ha).
  destruct (best_step_fold_spec a region_mults 0 None)
    as [[-> Hall]|(r & -> & Hlt & Hfb)].
  - by left.
  - right. by exists r.
Qed.

(** ** The entrant loops of [calculate_tier] *)

Lemma Zsum_app (l1 l2 : list Z) : Zsum (l1 ++ l2) = Zsum l1 + Zsum l2.
Proof. induction l1 as [|x l1 IH]; simpl; [done|]. rewrite IH. lia. Qed.

Lemma Zsum_Permutation (l1 l2 : list Z) : l1 ≡ₚ l2 -> Zsum l1 = Zsum l2.
Proof. induction 1; simpl; lia. Qed.

Section TieringFacts.
Variable lower : string -> string.
Variable scored_players : dict ident PlayerValueGroup.t.
Variable scored_tags : gset string.
Variable region_mults : list RegionValue.t.

Local Abbreviation participant_step :=
  (Tournament.participant_step lower scored_players scored_tags).
Local Abbreviation dq_step := (Tournament.dq_step lower scored_players scored_tags).
Local Abbreviation tag_matches := (Tournament.tag_matches lower scored_players).
Local Abbreviation compute_tier :=
  (Tournament.compute_tier lower scored_players scored_tags region_mults).

(** Once a rule is selected, the result is assembled from the two loops
    and the three sorts. *)
Lemma compute_tier_selected (c : Collaborators) (self : Tournament.t)
    (m : Z) (r : RegionValue.t) :
  Tournament.select_region region_mults self = inr (m, Some r) ->
  let l1 := participants_loop lower scored_players scored_tags self r in
  let l2 := dqs_loop lower scored_players scored_tags self l1.2 in
  compute_tier c self
  = bind_exn (get_name c) (fun name =>
      inr (TournamentTieringResult.init (Tournament.event_slug self)
             l1.1.1 (Tournament.total_entrants self) r
             (sort_reverse_by CountedValue.points Z.ltb l1.1.2)
             (sort_reverse_by Tournament.dq_sort_key
                (pair_ltb Z.ltb Z.eqb Z.ltb) l2.1)
             (map TournamentTieringResult.PotMatch
                (sort_by Tournament.potential_sort_key
                   (pair_ltb Z.ltb Z.eqb String.ltb) l2.2))
             (Tournament.is_invitational self)
             (map phase_name (Tournament.phases self))
             (Tournament.total_dqs self) name)).
Proof.
  intros Hsel. unfold Tournament.compute_tier, participants_loop, dqs_loop.
  rewrite Hsel. simpl.
  destruct (fold_left (participant_step self) _ _) as [[s v] p]. simpl.
  destruct (fold_left (dq_step self) _ _) as [d p']. reflexivity.
Qed.

Lemma compute_tier_no_region (c : Collaborators) (self : Tournament.t)
    (m : Z) :
  Tournament.select_region region_mults self = inr (m, None) ->
  compute_tier c self = inl (AttributeError "multiplier").
Proof. intros Hsel. unfold Tournament.compute_tier. by rewrite Hsel. Qed.

Lemma compute_tier_select_raised (c : Collaborators) (self : Tournament.t)
    (e : exn) :
  Tournament.select_region region_mults self = inl e ->
  compute_tier c self = inl e.
Proof. intros Hsel. unfold Tournament.compute_tier. by rewrite Hsel. Qed.

(** The tag fallback appends one line per matching group with a valid
    value. *)
Lemma tag_matches_elem (self : Tournament.t) (p : Entrant.t) (n : Z)
    (pm : list PotentialMatchWithDqs.t) (m : PotentialMatchWithDqs.t) :
  m ∈ tag_matches self p n pm
  <-> m ∈ pm
      \/ exists g pv,
           g ∈ dict_values scored_players
           /\ PlayerValueGroup.match_tag lower g (Entrant.tag p) = true
           /\ PlayerValueGroup.retrieve_value g (Tournament.start_time self)
              = Some pv
           /\ m = PotentialMatchWithDqs.init (Entrant.tag p) (Entrant.id_ p)
                    (Tournament.value_score self pv) (PlayerValue.note pv)
                    (PlayerValue.tag pv) n.
Proof.
  unfold Tournament.tag_matches.
  generalize (dict_values scored_players) as groups.
  intros groups. revert pm.
  induction groups as [|g rest IH]; intros pm; simpl.
  - split; [by left|]. intros [H|(g & pv & Hin & _)]; [done|].
    by apply not_elem_of_nil in Hin.
  - rewrite IH. clear IH.
    destruct (PlayerValueGroup.match_tag lower g (Entrant.tag p)) eqn:Hm;
      [destruct (PlayerValueGroup.retrieve_value g
                   (Tournament.start_time self)) as [pv|] eqn:Hr|].
    + rewrite elem_of_app, list_elem_of_singleton. split.
      * intros [[H| ->]|(g' & pv' & Hin & H)].
        -- by left.
        -- right. exists g, pv. split; [left|done].
        -- right. exists g', pv'. split; [by right|done].
      * intros [H|(g' & pv' & Hin & Hm' & Hr' & ->)]; [by left; left|].
        apply elem_of_cons in Hin as [->|Hin].
        -- left. right. congruence.
        -- right. by exists g', pv'.
    + split.
      * intros [H|(g' & pv' & Hin & H)]; [by left|].
        right. exists g', pv'. split; [by right|done].
      * intros [H|(g' & pv' & Hin & Hm' & Hr' & ->)]; [by left|].
        apply elem_of_cons in Hin as [->|Hin]; [congruence|].
        right. by exists g', pv'.
    + split.
      * intros [H|(g' & pv' & Hin & H)]; [by left|].
        right. exists g', pv'. split; [by right|done].
      * intros [H|(g' & pv' & Hin & Hm' & Hr' & ->)]; [by left|].
        apply elem_of_cons in Hin as [->|Hin]; [congruence|].
        right. by exists g', pv'.
Qed.

(** One iteration of the participant loop, case by case. *)
Lemma participant_step_eq (self : Tournament.t) (s : Z)
    (v : list CountedValue.t) (pm : list PotentialMatchWithDqs.t)
    (p : Entrant.t) :
  participant_step self (s, v, pm) p
  = if dict_mem (Entrant.id_ p) (Tournament.dq_list self) then (s, v, pm)
    else
      match dict_get (Entrant.id_ p) scored_players with
      | Some g =>
          match PlayerValueGroup.retrieve_value g (Tournament.start_time self)
          with
          | Some pv =>
              (s + Tournament.value_score self pv,
               (v ++ [CountedValue.init pv (Tournament.value_score self pv)
                        (Entrant.tag p)])%list,
               pm)
          | None => (s, v, pm)
          end
      | None =>
          if bool_decide (lower (Entrant.tag p) ∈ scored_tags)
          then (s, v, tag_matches self p 0 pm)
          else (s, v, pm)
      end.
Proof. reflexivity. Qed.

Lemma dq_step_eq (self : Tournament.t) (d : list DisqualificationValue.t)
    (pm : list PotentialMatchWithDqs.t) (p : Entrant.t) (n : Z) :
  dq_step self (d, pm) (p, n)
  = match dict_get (Entrant.id_ p) scored_players with
    | Some g =>
        match PlayerValueGroup.retrieve_value g (Tournament.start_time self)
        with
        | Some pv =>
            ((d ++ [DisqualificationValue.mk
                      (DisqualificationValue.Counted
                         (CountedValue.init pv (Tournament.value_score self pv)
                            (Entrant.tag p)))
                      n])%list,
             pm)
        | None => (d, pm)
        end
    | None =>
        if bool_decide (lower (Entrant.tag p) ∈ scored_tags)
        then (d, tag_matches self p n pm)
        else (d, pm)
    end.
Proof. reflexivity. Qed.

Ltac step_cases self p :=
  destruct (dict_get (Entrant.id_ p) scored_players) as [?g|] eqn:?Hget;
  [destruct (PlayerValueGroup.retrieve_value _ (Tournament.start_time self))
     as [?pv|] eqn:?Hret
  |destruct (bool_decide (lower (Entrant.tag p) ∈ scored_tags)) eqn:?Htag].

(** The realized score grows by exactly the points of the appended valued
    lines. *)
Lemma participant_step_score (self : Tournament.t)
    (acc : Z * list CountedValue.t * list PotentialMatchWithDqs.t)
    (p : Entrant.t) :
  (participant_step self acc p).1.1
  - Zsum (map CountedValue.points (participant_step self acc p).1.2)
  = acc.1.1 - Zsum (map CountedValue.points acc.1.2).
Proof.
  destruct acc as [[s v] pm]. rewrite participant_step_eq.
  destruct (dict_mem _ _); [done|].
  step_cases self p; simpl; try done.
  rewrite map_app, Zsum_app. simpl. lia.
Qed.

Lemma participant_step_valued (self : Tournament.t)
    (acc : Z * list CountedValue.t * list PotentialMatchWithDqs.t)
    (p : Entrant.t) (cv : CountedValue.t) :
  cv ∈ (participant_step self acc p).1.2
  <-> cv ∈ acc.1.2 \/ valued_line_of scored_players self p cv.
Proof.
  destruct acc as [[s v] pm]. rewrite participant_step_eq.
  unfold valued_line_of.
  destruct (dict_mem _ _) eqn:Hdq.
  { simpl. split; [by left|]. by intros [H|[? _]]. }
  step_cases self p; simpl.
  - rewrite elem_of_app, list_elem_of_singleton. split.
    + intros [H| ->]; [by left|]. right. split; [done|]. by exists g, pv.
    + intros [H|[_ (g' & pv' & Hg & Hr & ->)]]; [by left|].
      right. congruence.
  - split; [by left|].
    intros [H|[_ (g' & pv' & Hg & Hr & _)]]; [done|congruence].
  - split; [by left|].
    intros [H|[_ (g' & pv' & Hg & _)]]; [done|congruence].
  - split; [by left|].
    intros [H|[_ (g' & pv' & Hg & _)]]; [done|congruence].
Qed.

Lemma participant_step_potential (self : Tournament.t)
    (acc : Z * list CountedValue.t * list PotentialMatchWithDqs.t)
    (p : Entrant.t) (m : PotentialMatchWithDqs.t) :
  m ∈ (participant_step self acc p).2
  <-> m ∈ acc.2
      \/ (dict_mem (Entrant.id_ p) (Tournament.dq_list self) = false
          /\ potential_line_of lower scored_players scored_tags self p 0 m).
Proof.
  destruct acc as [[s v] pm]. rewrite participant_step_eq.
  unfold potential_line_of.
  destruct (dict_mem _ _) eqn:Hdq.
  { simpl. split; [by left|]. by intros [H|[? _]]. }
  step_cases self p; simpl.
  - split; [by left|]. intros [H|[_ [? _]]]; [done|congruence].
  - split; [by left|]. intros [H|[_ [? _]]]; [done|congruence].
  - apply bool_decide_eq_true in Htag. rewrite tag_matches_elem. split.
    + intros [H|(g' & pv' & H)]; [by left|].
      right. do 3 (split; [done|]). by exists g', pv'.
    + intros [H|(_ & _ & _ & g' & pv' & H)]; [by left|].
      right. by exists g', pv'.
  - apply bool_decide_eq_false in Htag.
    split; [by left|]. intros [H|[_ (_ & ? & _)]]; done.
Qed.

Lemma dq_step_dqs (self : Tournament.t)
    (acc : list DisqualificationValue.t * list PotentialMatchWithDqs.t)
    (entry : Entrant.t * Z) (d : DisqualificationValue.t) :
  d ∈ (dq_step self acc entry).1
  <-> d ∈ acc.1 \/ dq_line_of scored_players self entry.1 entry.2 d.
Proof.
  destruct acc as [ds pm], entry as [p n]. rewrite dq_step_eq.
  unfold dq_line_of. step_cases self p; simpl.
  - rewrite elem_of_app, list_elem_of_singleton. split.
    + intros [H| ->]; [by left|]. right. by exists g, pv.
    + intros [H|(g' & pv' & Hg & Hr & ->)]; [by left|]. right. congruence.
  - split; [by left|].
    intros [H|(g' & pv' & Hg & Hr & _)]; [done|congruence].
  - split; [by left|]. intros [H|(g' & pv' & Hg & _)]; [done|congruence].
  - split; [by left|]. intros [H|(g' & pv' & Hg & _)]; [done|congruence].
Qed.

Lemma dq_step_potential (self : Tournament.t)
    (acc : list DisqualificationValue.t * list PotentialMatchWithDqs.t)
    (entry : Entrant.t * Z) (m : PotentialMatchWithDqs.t) :
  m ∈ (dq_step self acc entry).2
  <-> m ∈ acc.2
      \/ potential_line_of lower scored_players scored_tags self
           entry.1 entry.2 m.
Proof.
  destruct acc as [ds pm], entry as [p n]. rewrite dq_step_eq.
  unfold potential_line_of. step_cases self p; simpl.
  - split; [by left|]. intros [H|[? _]]; [done|congruence].
  - split; [by left|]. intros [H|[? _]]; [done|congruence].
  - apply bool_decide_eq_true in Htag. rewrite tag_matches_elem. split.
    + intros [H|(g' & pv' & H)]; [by left|].
      right. do 2 (split; [done|]). by exists g', pv'.
    + intros [H|(_ & _ & g' & pv' & H)]; [by left|].
      right. by exists g', pv'.
  - apply bool_decide_eq_false in Htag.
    split; [by left|]. intros [H|(_ & ? & _)]; done.
Qed.

Lemma participants_fold_score (self : Tournament.t) (ps : list Entrant.t)
    (acc : Z * list CountedValue.t * list PotentialMatchWithDqs.t) :
  (fold_left (participant_step self) ps acc).1.1
  - Zsum (map CountedValue.points
            (fold_left (participant_step self) ps acc).1.2)
  = acc.1.1 - Zsum (map CountedValue.points acc.1.2).
Proof.
  revert acc. induction ps as [|p rest IH]; intros acc; simpl; [done|].
  rewrite IH. apply participant_step_score.
Qed.
End TieringFacts.

(** Membership in a list accumulated by a loop, from membership after one
    iteration. *)
Lemma fold_left_elem {A B C : Type} (f : A -> B -> A) (proj : A -> list C)
    (Q : B -> C -> Prop) :
  (forall a x y, y ∈ proj (f a x) <-> y ∈ proj a \/ Q x y) ->
  forall l a y,
    y ∈ proj (fold_left f l a) <-> y ∈ proj a \/ exists x, x ∈ l /\ Q x y.
Proof.
  intros Hstep l. induction l as [|x rest IH]; intros a y; simpl.
  - split; [by left|]. intros [H|(x & Hin & _)]; [done|].
    by apply not_elem_of_nil in Hin.
  - rewrite IH, Hstep. split.
    + intros [[H|H]|(x' & Hin & H)].
      * by left.
      * right. exists x. split; [left|done].
      * right. exists x'. split; [by right|done].
    + intros [H|(x' & Hin & H)]; [by left; left|].
      apply elem_of_cons in Hin as [->|Hin].
      * left. by right.
      * right. by exists x'.
Qed.

(** ** What a computed result contains *)

Section ResultFacts.
Variable lower : string -> string.
Variable scored_players : dict ident PlayerValueGroup.t.
Variable scored_tags : gset string.
Variable region_mults : list RegionValue.t.

Local Abbreviation compute_tier :=
  (Tournament.compute_tier lower scored_players scored_tags region_mults).

(** A computed result: the selected rule, the score, and the origin of
    every line of its three lists. *)
Lemma compute_tier_result (c : Collaborators) (self : Tournament.t)
    (res : TournamentTieringResult.t) :
  compute_tier c self = inr res ->
  exists m r,
    Tournament.select_region region_mults self = inr (m, Some r)
    /\ TournamentTieringResult.region res = r
    /\ TournamentTieringResult.entrants res = Tournament.total_entrants self
    /\ TournamentTieringResult.dq_count res = Tournament.total_dqs self
    /\ TournamentTieringResult.max_score res = None
    /\ TournamentTieringResult.score res
       = Tournament.total_entrants self * RegionValue.multiplier r
         + Zsum (map CountedValue.points (TournamentTieringResult.values res))
    /\ (forall cv,
          cv ∈ TournamentTieringResult.values res
          <-> exists p, p ∈ Tournament.participants self
                        /\ valued_line_of scored_players self p cv)
    /\ (forall d,
          d ∈ TournamentTieringResult.dqs res
          <-> exists e, e ∈ dict_values (Tournament.dq_list self)
                        /\ dq_line_of scored_players self e.1 e.2 d)
    /\ (forall x,
          x ∈ TournamentTieringResult.potential res
          <-> exists pm,
                x = TournamentTieringResult.PotMatch pm
                /\ ((exists p,
                       p ∈ Tournament.participants self
                       /\ dict_mem (Entrant.id_ p) (Tournament.dq_list self)
                          = false
                       /\ potential_line_of lower scored_players scored_tags
                            self p 0 pm)
                    \/ (exists e,
                          e ∈ dict_values (Tournament.dq_list self)
                          /\ potential_line_of lower scored_players scored_tags
                               self e.1 e.2 pm))).
Proof.
  intros Hres.
  destruct (Tournament.select_region region_mults self) as [e|[m [r|]]]
    eqn:Hsel.
  { by rewrite (compute_tier_select_raised _ _ _ _ c self e Hsel) in Hres. }
  2:{ by rewrite (compute_tier_no_region _ _ _ _ c self m Hsel) in Hres. }
  rewrite (compute_tier_selected _ _ _ _ c self m r Hsel) in Hres.
  destruct (get_name c) as [e|name]; [done|]. simpl in Hres.
  injection Hres as <-. exists m, r. simpl.
  do 5 (split; [done|]).
  split; [|split; [|split]].
  - rewrite (Zsum_Permutation _ _
               (Permutation_map _ (sort_reverse_by_Permutation _ _ _))).
    pose proof (participants_fold_score lower scored_players scored_tags self
                  (Tournament.participants self)
                  (0 + Tournament.total_entrants self
                       * RegionValue.multiplier r, [], [])) as Hs.
    simpl in Hs. unfold participants_loop. lia.
  - intros cv. rewrite sort_reverse_by_Permutation. unfold participants_loop.
    rewrite (fold_left_elem _ (fun a => a.1.2)
               (valued_line_of scored_players self)
               (participant_step_valued _ _ _ self)).
    simpl. split; [|by right].
    intros [H|H]; [by apply not_elem_of_nil in H|done].
  - intros d. rewrite sort_reverse_by_Permutation. unfold dqs_loop.
    rewrite (fold_left_elem _ fst
               (fun e d => dq_line_of scored_players self e.1 e.2 d)
               (dq_step_dqs _ _ _ self)).
    simpl. split; [|by right].
    intros [H|H]; [by apply not_elem_of_nil in H|done].
  - intros x. rewrite list_elem_of_fmap.
    setoid_rewrite (sort_by_Permutation Tournament.potential_sort_key).
    unfold dqs_loop.
    setoid_rewrite (fold_left_elem _ snd
               (fun e pm => potential_line_of lower scored_players scored_tags
                              self e.1 e.2 pm)
               (dq_step_potential _ _ _ self)).
    unfold participants_loop.
    setoid_rewrite (fold_left_elem _ snd
               (fun p pm =>
                  dict_mem (Entrant.id_ p) (Tournament.dq_list self) = false
                  /\ potential_line_of lower scored_players scored_tags
                       self p 0 pm)
               (participant_step_potential _ _ _ self)).
    simpl. split.
    + intros (pm & -> & [[H|(p & Hp & Hdq & Hline)]|H]).
      * by apply not_elem_of_nil in H.
      * exists pm. split; [done|]. left. by exists p.
      * exists pm. split; [done|]. by right.
    + intros (pm & -> & [(p & Hp & Hdq & Hline)|H]).
      * exists pm. split; [done|]. left. right. by exists p.
      * exists pm. split; [done|]. by right.
Qed.
End ResultFacts.

(** ** Invariants of constructed tournaments and computed results *)

Lemma dict_get_Some_elem {K V : Type} `{EqDecision K} (d : dict K V) (k : K)
    (v : V) :
  dict_get k d = Some v -> (k, v) ∈ d.
Proof.
  induction d as [|[k0 v0] rest IH]; simpl; [done|].
  destruct (decide (k = k0)) as [->|].
  - intros [= ->]. left.
  - intros H. right. by apply IH.
Qed.

Lemma dict_set_Forall {K V : Type} `{EqDecision K} (P : K * V -> Prop)
    (d : dict K V) (k : K) (v : V) :
  Forall P d -> P (k, v) -> Forall P (dict_set k v d).
Proof.
  intros Hall Hv. induction d as [|[k0 v0] rest IH]; simpl.
  - by constructor.
  - inversion Hall; subst.
    destruct (decide (k = k0)) as [->|]; constructor; auto.
Qed.

Lemma record_dq_wf (dq_list : dict ident (Entrant.t * Z)) (player_id : ident)
    (loser : Entrant.t) :
  dq_list_wf dq_list ->
  Entrant.id_ loser = player_id ->
  dq_list_wf (record_dq dq_list player_id loser).
Proof.
  intros [Hnd Hall] Hid. unfold record_dq.
  destruct (dict_get player_id dq_list) as [[e n]|] eqn:Hget.
  - split; [by apply dict_keys_set_NoDup|].
    apply dict_set_Forall; [done|].
    apply dict_get_Some_elem in Hget. rewrite Forall_forall in Hall.
    destruct (Hall _ Hget) as [He Hn]. simpl in *. split; [done|lia].
  - split; [by apply dict_keys_set_NoDup|].
    apply dict_set_Forall; [done|]. simpl. split; [done|lia].
Qed.

Lemma get_dqs_step_wf acc set_data dq_list participants :
  match acc with
  | inr (dq_list0, _) => dq_list_wf dq_list0
  | inl _ => True
  end ->
  get_dqs_step acc set_data = inr (dq_list, participants) ->
  dq_list_wf dq_list.
Proof.
  destruct acc as [e|[dq_list0 participants0]]; simpl; [done|].
  intros Hwf. destruct (set_winnerId set_data) as [winnerId|];
    [|by intros [= <- _]].
  assert (Hrec : dq_list_wf
            (record_dq dq_list0
               (Entrant.id_
                  (slot_player
                     (if winnerId =? slot_entrant_id (set_slot0 set_data)
                      then set_slot1 set_data else set_slot0 set_data)))
               (if winnerId =? slot_entrant_id (set_slot0 set_data)
                then slot_player (set_slot1 set_data)
                else slot_player (set_slot0 set_data)))).
  { apply record_dq_wf; [done|]. by destruct (winnerId =? _). }
  destruct (slot_standing (set_slot0 set_data)) as [s0|],
           (slot_standing (set_slot1 set_data)) as [s1|];
    try (destruct (slot_standing _) as [game_count|]; [|done];
         destruct (bool_decide _); by intros [= <- _]).
  by intros [= <- _].
Qed.

Lemma get_dqs_wf (c : Collaborators) (phase_ids : list Z) dq_list participants :
  get_dqs c phase_ids = inr (dq_list, participants) -> dq_list_wf dq_list.
Proof.
  unfold get_dqs. destruct (get_sets_in_phases c phase_ids) as [e|sets];
    simpl; [done|].
  assert (Hfold : forall sets acc,
            match acc with
            | inr (dq_list0, _) => dq_list_wf dq_list0
            | inl _ => True
            end ->
            fold_left get_dqs_step sets acc = inr (dq_list, participants) ->
            dq_list_wf dq_list).
  { clear. induction sets as [|set_data rest IH]; intros acc Hacc; simpl.
    - intros ->. exact Hacc.
    - apply IH.
      destruct (get_dqs_step acc set_data) as [e|[d p]] eqn:Hstep; [done|].
      by eapply get_dqs_step_wf. }
  apply Hfold. split; [constructor|constructor].
Qed.

(** Every constructed tournament has a well-formed DQ map and an empty
    cache. *)
Lemma init_dq_list_wf (c : Collaborators) (event_slug : string)
    (is_invitational location : bool) (t : Tournament.t) :
  Tournament.init c event_slug is_invitational location = inr t ->
  dq_list_wf (Tournament.dq_list t) /\ Tournament.tier t = None.
Proof.
  unfold Tournament.init.
  destruct (slug_regex_search c event_slug) as [slug|]; [|done].
  destruct (Tournament.gather_entrant_counts c) as [e|counts] eqn:Hcounts;
    simpl; [done|].
  destruct (if location then _ else _) as [e|address_]; simpl; [done|].
  destruct (Tournament.retrieve_start_time c) as [e|start_time_]; simpl;
    [done|].
  intros [= <-]. simpl. split; [|done].
  revert Hcounts. unfold Tournament.gather_entrant_counts.
  destruct (check_phase_completed c) as [e|[|]]; simpl; [done| |].
  - destruct (collect_phases c) as [e|phases_]; simpl; [done|].
    destruct (get_dqs c _) as [e|[dq_list_ participants_]] eqn:Hdqs; simpl;
      [done|].
    intros [= <-]. simpl. by eapply get_dqs_wf.
  - destruct (get_entrants c) as [e|participants_]; simpl; [done|].
    intros [= <-]. simpl. split; constructor.
Qed.

(** The tally counts the DQ'd ids that are no participant's id. *)
Lemma count_dqs_spec (dq_list : dict ident (Entrant.t * Z))
    (participants : list Entrant.t) :
  Tournament.count_dqs dq_list participants
  = Z.of_nat
      (length
         (List.filter
            (fun player_id =>
               negb (bool_decide (player_id ∈ map Entrant.id_ participants)))
            (dict_keys dq_list))).
Proof.
  unfold Tournament.count_dqs.
  assert (Hgen : forall keys total,
            fold_left
              (fun total player_id =>
                 if negb (bool_decide
                            (player_id ∈ map Entrant.id_ participants))
                 then total + 1 else total) keys total
            = total
              + Z.of_nat
                  (length
                     (List.filter
                        (fun player_id =>
                           negb (bool_decide
                                   (player_id
                                      ∈ map Entrant.id_ participants)))
                        keys))).
  { induction keys as [|k rest IH]; intros total; simpl; [lia|].
    rewrite IH. destruct (negb _); simpl; lia. }
  rewrite Hgen. lia.
Qed.

Section ReachFacts.
Variable lower : string -> string.
Variable scored_players : dict ident PlayerValueGroup.t.
Variable scored_tags : gset string.
Variable region_mults : list RegionValue.t.

Local Abbreviation dq_step :=
  (Tournament.dq_step lower scored_players scored_tags).
Local Abbreviation compute_tier :=
  (Tournament.compute_tier lower scored_players scored_tags region_mults).

(** The DQ loop appends at most one DQ'd-valued line per entry, in order,
    under the id of the entry's entrant. *)
Lemma dq_loop_ids_sublist (self : Tournament.t)
    (entries : list (Entrant.t * Z)) (d : list DisqualificationValue.t)
    (pm : list PotentialMatchWithDqs.t) :
  registry_ids_wf scored_players ->
  exists d',
    (fold_left (dq_step self) entries (d, pm)).1 = (d ++ d')%list
    /\ map (fun dq => (dq_entry dq).1) d'
       `sublist_of` map (fun e => Entrant.id_ e.1) entries.
Proof.
  intros Hwf. revert d pm.
  induction entries as [|[p n] rest IH]; intros d pm.
  - exists []. simpl. by rewrite app_nil_r.
  - cbn [fold_left]. rewrite dq_step_eq.
    destruct (dict_get (Entrant.id_ p) scored_players) as [g|] eqn:Hget;
      [destruct (PlayerValueGroup.retrieve_value g
                   (Tournament.start_time self)) as [v|] eqn:Hret|].
    + destruct (IH (d ++ [DisqualificationValue.mk
                           (DisqualificationValue.Counted
                              (CountedValue.init v
                                 (Tournament.value_score self v)
                                 (Entrant.tag p))) n])%list pm)
        as (d' & -> & Hsub).
      eexists (_ :: d'). split; [by rewrite <- app_assoc|].
      simpl. unfold CountedValue.id_. simpl.
      rewrite (Hwf (Entrant.id_ p) g v Hget).
      * by apply sublist_skip.
      * unfold PlayerValueGroup.retrieve_value in Hret.
        apply find_some in Hret as [Hin _]. by apply list_elem_of_In.
    + destruct (IH d pm) as (d' & -> & Hsub).
      exists d'. split; [done|]. simpl. by apply sublist_cons.
    + destruct (IH d (if bool_decide (lower (Entrant.tag p) ∈ scored_tags)
                      then Tournament.tag_matches lower scored_players self
                             p n pm
                      else pm)) as (d' & Heq & Hsub).
      exists d'. split; [|simpl; by apply sublist_cons].
      rewrite <- Heq. by destruct (bool_decide _).
Qed.

(** In a computed result the DQ'd-valued lines have pairwise distinct
    player ids. *)
Lemma computed_result_dq_ids_distinct (c : Collaborators)
    (self : Tournament.t) (res : TournamentTieringResult.t) :
  registry_ids_wf scored_players ->
  dq_list_wf (Tournament.dq_list self) ->
  compute_tier c self = inr res ->
  NoDup (map (fun dq => (dq_entry dq).1) (TournamentTieringResult.dqs res)).
Proof.
  intros Hwf [Hnd Hall] Hres.
  destruct (Tournament.select_region region_mults self) as [e|[m [r|]]]
    eqn:Hsel.
  { by rewrite (compute_tier_select_raised _ _ _ _ c self e Hsel) in Hres. }
  2:{ by rewrite (compute_tier_no_region _ _ _ _ c self m Hsel) in Hres. }
  rewrite (compute_tier_selected _ _ _ _ c self m r Hsel) in Hres.
  destruct (get_name c) as [e|name]; [done|]. simpl in Hres.
  injection Hres as <-. simpl.
  rewrite (Permutation_map _ (sort_reverse_by_Permutation _ _ _)).
  unfold dqs_loop.
  destruct (dq_loop_ids_sublist self (dict_values (Tournament.dq_list self))
              [] (participants_loop lower scored_players scored_tags
                    self r).2 Hwf) as (d' & -> & Hsub).
  simpl. eapply sublist_NoDup; [|exact Hsub].
  assert (Hids : map (fun e : Entrant.t * Z => Entrant.id_ e.1)
                   (dict_values (Tournament.dq_list self))
                 = dict_keys (Tournament.dq_list self)).
  { unfold dict_values, dict_keys. rewrite map_map.
    apply map_ext_in. intros kv Hin. rewrite Forall_forall in Hall.
    apply list_elem_of_In in Hin. by destruct (Hall kv Hin). }
  by rewrite Hids.
Qed.

(** The points of the potential-match and DQ'd-valued lines of a computed
    result are scores of registry values. *)
Lemma computed_result_scores (P : Z -> Prop) (c : Collaborators)
    (self : Tournament.t) (res : TournamentTieringResult.t) :
  registry_scores P scored_players self ->
  compute_tier c self = inr res ->
  Forall (fun pot => P (pot_entry pot).2)
    (TournamentTieringResult.potential res)
  /\ Forall (fun dq => P (dq_entry dq).2) (TournamentTieringResult.dqs res).
Proof.
  intros HP Hres.
  apply compute_tier_result in Hres
    as (m & r & _ & _ & _ & _ & _ & _ & _ & Hdqs & Hpot).
  split; apply Forall_forall.
  - intros x Hin.
    apply Hpot in Hin
      as (pm & -> & [(p & _ & _ & _ & _ & g & v & Hg & _ & Hret & ->)
                    |(e & _ & _ & _ & g & v & Hg & _ & Hret & ->)]);
      simpl; apply (HP g v Hg);
      unfold PlayerValueGroup.retrieve_value in Hret;
      apply find_some in Hret as [Hin _]; by apply list_elem_of_In.
  - intros d Hin.
    apply Hdqs in Hin as (e & _ & g & v & Hg & Hret & ->). simpl.
    apply (HP g v); [by eapply dict_get_Some_values|].
    unfold PlayerValueGroup.retrieve_value in Hret.
    apply find_some in Hret as [Hin _]. by apply list_elem_of_In.
Qed.
End ReachFacts.

(** ** Region selection in [calculate_tier] *)

Lemma init_sample_tournament :
  Tournament.init (Samples.source Samples.geo_ok) Samples.slug false true
  = inr Samples.tournament.
Proof. vm_compute. reflexivity. Qed.

Lemma init_sample_tournament_ca :
  Tournament.init (Samples.source Samples.geo_ca) Samples.slug false true
  = inr Samples.tournament_ca.
Proof. vm_compute. reflexivity. Qed.

(** With a cache that is still empty, [calculate_tier] returns what its
    body computes. *)
Lemma calculate_tier_fresh lower scored_players scored_tags region_mults
    (c : Collaborators) (self : Tournament.t) :
  Tournament.tier self = None ->
  (Tournament.calculate_tier lower scored_players scored_tags region_mults
     c self).1
  = Tournament.compute_tier lower scored_players scored_tags region_mults
      c self.
Proof.
  intros Hfresh. unfold Tournament.calculate_tier. rewrite Hfresh.
  by destruct (Tournament.compute_tier _ _ _ _ _ _).
Qed.

(** A selected rule leads to a result as soon as [get_name] answers. *)
Lemma compute_tier_selected_result lower scored_players scored_tags
    region_mults (c : Collaborators) (self : Tournament.t) (m : Z)
    (r : RegionValue.t) (name : string * string) :
  Tournament.select_region region_mults self = inr (m, Some r) ->
  get_name c = inr name ->
  exists res,
    Tournament.compute_tier lower scored_players scored_tags region_mults
      c self = inr res
    /\ TournamentTieringResult.region res = r
    /\ TournamentTieringResult.score res
       = Tournament.total_entrants self * RegionValue.multiplier r
         + Zsum (map CountedValue.points (TournamentTieringResult.values res)).
Proof.
  intros Hsel Hname.
  pose proof (compute_tier_selected lower scored_players scored_tags
                region_mults c self m r Hsel) as Heq.
  rewrite Hname in Heq. simpl in Heq.
  eexists. split; [exact Heq|].
  apply compute_tier_result in Heq
    as (m' & r' & Hsel' & Hreg & _ & _ & _ & Hscore & _).
  rewrite Hsel in Hsel'. injection Hsel' as _ <-. done.
Qed.

(** C3 (as the code has it). For an address that some loaded rule matches
    with a positive specificity, region selection returns the first rule
    of maximal specificity: no loaded rule scores higher and every rule
    seen before it scores strictly lower, so the incumbent is replaced
    only on a strictly higher score.  That rule is the result's region,
    whose floors eligibility reads, and its multiplier scales the entrant
    count in the score.  For an address that no loaded rule matches, no
    rule is selected and the multiplier lookup fails. *)
Theorem select_region_first_best lower scored_players scored_tags
    (region_mults : list RegionValue.t) (c : Collaborators)
    (self : Tournament.t) (a : gmap string string) :
  Tournament.address self = Some a ->
  ((exists r', r' ∈ region_mults /\ 0 < RegionValue.match_ r' a) ->
   exists r,
     Tournament.select_region region_mults self
     = inr (RegionValue.match_ r a, Some r)
     /\ r ∈ region_mults
     /\ (forall r', r' ∈ region_mults ->
           RegionValue.match_ r' a <= RegionValue.match_ r a)
     /\ first_best region_mults a r
     /\ forall name,
          get_name c = inr name ->
          exists res,
            Tournament.compute_tier lower scored_players scored_tags
              region_mults c self = inr res
            /\ TournamentTieringResult.region res = r
            /\ TournamentTieringResult.score res
               = Tournament.total_entrants self * RegionValue.multiplier r
                 + Zsum (map CountedValue.points
                           (TournamentTieringResult.values res)))
  /\ ((forall r', r' ∈ region_mults -> RegionValue.match_ r' a <= 0) ->
      Tournament.select_region region_mults self = inr (0, None)
      /\ Tournament.compute_tier lower scored_players scored_tags
           region_mults c self = inl (AttributeError "multiplier")).
Proof.
  intros Ha. split.
  - intros (r' & Hin & Hpos).
    destruct (select_region_spec region_mults self a Ha)
      as [[_ Hall]|(r & Hsel & Hlt & Hfb)].
    { specialize (Hall r' Hin). lia. }
    exists r. split; [done|].
    destruct (first_best_maximal _ _ _ Hfb) as [Hr Hmax].
    do 3 (split; [done|]).
    intros name Hname. by eapply compute_tier_selected_result.
  - intros Hnone.
    destruct (select_region_spec region_mults self a Ha)
      as [[Hsel _]|(r & _ & Hlt & Hfb)].
    + split; [done|]. by eapply compute_tier_no_region.
    + destruct (first_best_maximal _ _ _ Hfb) as [Hr _].
      specialize (Hnone r Hr). lia.
Qed.

Lemma select_region_first_best_witness :
  Tournament.address Samples.tournament = Some Samples.us_address
  /\ (exists r', r' ∈ [Samples.fallback_rule; Samples.us_rule]
                 /\ 0 < RegionValue.match_ r' Samples.us_address)
  /\ exists r,
       Tournament.select_region [Samples.fallback_rule; Samples.us_rule]
         Samples.tournament
       = inr (RegionValue.match_ r Samples.us_address, Some r)
       /\ first_best [Samples.fallback_rule; Samples.us_rule]
            Samples.us_address r.
Proof.
  assert (H1 : Tournament.address Samples.tournament
               = Some Samples.us_address) by reflexivity.
  assert (H2 : exists r', r' ∈ [Samples.fallback_rule; Samples.us_rule]
                          /\ 0 < RegionValue.match_ r' Samples.us_address).
  { exists Samples.fallback_rule. split; [left|]. vm_compute. reflexivity. }
  split; [exact H1|]. split; [exact H2|].
  destruct (proj1 (select_region_first_best ascii_lower [] ∅
                     [Samples.fallback_rule; Samples.us_rule]
                     (Samples.source Samples.geo_ok) Samples.tournament
                     Samples.us_address H1) H2)
    as (r & Hsel & _ & _ & Hfb & _).
  exists r. split; [exact Hsel|exact Hfb].
Defined.

(** C3, counterexample. An address that no loaded rule matches: the only
    rule has the maximal specificity 0, yet none is selected and the
    multiplier lookup fails. *)
Lemma select_region_none_without_match :
  Tournament.init (Samples.source Samples.geo_ca) Samples.slug false true
  = inr Samples.tournament_ca
  /\ (forall r', r' ∈ [Samples.us_rule] ->
        RegionValue.match_ r' Samples.ca_address
        <= RegionValue.match_ Samples.us_rule Samples.ca_address)
  /\ Tournament.select_region [Samples.us_rule] Samples.tournament_ca
     = inr (0, None)
  /\ (Tournament.calculate_tier ascii_lower (Samples.registry_ids).1
        (Samples.registry_ids).2 [Samples.us_rule]
        (Samples.source Samples.geo_ca) Samples.tournament_ca).1
     = inl (AttributeError "multiplier").
Proof.
  split; [apply init_sample_tournament_ca|]. split; [|split].
  - intros r' Hin. apply list_elem_of_singleton in Hin as ->. lia.
  - vm_compute. reflexivity.
  - vm_compute. reflexivity.
Qed.

(** C8. When the loaded rules contain the universal fallback rule (empty
    country code, specificity 1 for every address), [calculate_tier]
    selects a rule for every address: the multiplier and floor lookups
    never meet an absent rule, the only exception [calculate_tier] can
    still raise is the one of [get_name], and the computed result carries
    the selected rule. *)
Theorem fallback_rule_always_selects lower scored_players scored_tags
    (region_mults : list RegionValue.t) (c : Collaborators)
    (self : Tournament.t) (a : gmap string string) :
  Tournament.address self = Some a ->
  (exists fb, fb ∈ region_mults /\ RegionValue.country_code fb = "") ->
  exists r,
    Tournament.select_region region_mults self
    = inr (RegionValue.match_ r a, Some r)
    /\ r ∈ region_mults
    /\ 1 <= RegionValue.match_ r a
    /\ (forall e,
          (Tournament.calculate_tier lower scored_players scored_tags
             region_mults c self).1 = inl e ->
          get_name c = inl e)
    /\ (forall name,
          get_name c = inr name ->
          exists res,
            Tournament.compute_tier lower scored_players scored_tags
              region_mults c self = inr res
            /\ TournamentTieringResult.region res = r).
Proof.
  intros Ha (fb & Hin & Hfb).
  pose proof (match_fallback fb a Hfb) as Hone.
  destruct (select_region_spec region_mults self a Ha)
    as [[_ Hall]|(r & Hsel & Hlt & Hbest)].
  { specialize (Hall fb Hin). lia. }
  exists r. split; [done|].
  destruct (first_best_maximal _ _ _ Hbest) as [Hr Hmax].
  split; [done|]. split; [specialize (Hmax fb Hin); lia|]. split.
  - intros e. unfold Tournament.calculate_tier.
    destruct (Tournament.tier self) as [cached|]; [done|].
    rewrite (compute_tier_selected lower scored_players scored_tags
               region_mults c self _ r Hsel).
    destruct (get_name c); simpl; [by intros [= ->]|done].
  - intros name Hname.
    destruct (compute_tier_selected_result lower scored_players scored_tags
                region_mults c self _ r name Hsel Hname)
      as (res & Hres & Hreg & _).
    by exists res.
Qed.

Lemma fallback_rule_always_selects_witness :
  Tournament.address Samples.tournament_ca = Some Samples.ca_address
  /\ (exists fb, fb ∈ [Samples.us_rule; Samples.fallback_rule]
                 /\ RegionValue.country_code fb = "")
  /\ exists r,
       Tournament.select_region [Samples.us_rule; Samples.fallback_rule]
         Samples.tournament_ca
       = inr (RegionValue.match_ r Samples.ca_address, Some r)
       /\ 1 <= RegionValue.match_ r Samples.ca_address.
Proof.
  assert (H1 : Tournament.address Samples.tournament_ca
               = Some Samples.ca_address) by reflexivity.
  assert (H2 : exists fb, fb ∈ [Samples.us_rule; Samples.fallback_rule]
                          /\ RegionValue.country_code fb = "").
  { exists Samples.fallback_rule. split; [right; left|reflexivity]. }
  split; [exact H1|]. split; [exact H2|].
  destruct (fallback_rule_always_selects ascii_lower [] ∅
              [Samples.us_rule; Samples.fallback_rule]
              (Samples.source Samples.geo_ca) Samples.tournament_ca
              Samples.ca_address H1 H2)
    as (r & Hsel & _ & Hone & _).
  exists r. split; [exact Hsel|exact Hone].
Defined.

(** ** Construction: location and entrant counts *)

Lemma reverse_loop_all_fail (geo : nat -> exn + gmap string string)
    (remaining i : nat) :
  (forall j, exists e, geo j = inl e) ->
  Tournament.reverse_loop geo i remaining = None.
Proof.
  intros Hfail. revert i.
  induction remaining as [|n IH]; intros i; simpl; [done|].
  destruct (Hfail i) as [e ->]. apply IH.
Qed.

(** Whatever the geocoder does, [gather_location_info] raises only what
    the coordinates query raises. *)
Lemma gather_location_info_swallows (c : Collaborators) (xy : string * string) :
  resp_location c = inr xy ->
  exists address, Tournament.gather_location_info c = inr address.
Proof.
  intros Hloc. unfold Tournament.gather_location_info. rewrite Hloc.
  simpl. by eexists.
Qed.

(** Construction goes through when the geocoder fails on every call, and
    leaves [address] unset. *)
Lemma init_without_address (c : Collaborators) (event_slug slug : string)
    (is_invitational : bool) (counts : Tournament.entrant_counts)
    (xy : string * string) (start_time_ : date) :
  slug_regex_search c event_slug = Some slug ->
  Tournament.gather_entrant_counts c = inr counts ->
  resp_location c = inr xy ->
  resp_start_at c = inr start_time_ ->
  (forall j, exists e, geo_reverse c j = inl e) ->
  exists t,
    Tournament.init c event_slug is_invitational true = inr t
    /\ Tournament.address t = None.
Proof.
  intros Hslug Hcounts Hloc Hstart Hgeo.
  unfold Tournament.init, Tournament.gather_location_info,
    Tournament.retrieve_start_time.
  rewrite Hslug, Hcounts, Hloc, Hstart.
  rewrite (reverse_loop_all_fail _ 5 0 Hgeo). simpl.
  eexists. split; reflexivity.
Qed.

(** A second call returns the cached result. *)
Lemma calculate_tier_cached lower scored_players scored_tags region_mults
    (c c' : Collaborators) (self : Tournament.t)
    (res : TournamentTieringResult.t) :
  (Tournament.calculate_tier lower scored_players scored_tags region_mults
     c self).1 = inr res ->
  (Tournament.calculate_tier lower scored_players scored_tags region_mults c'
     (Tournament.calculate_tier lower scored_players scored_tags region_mults
        c self).2).1
  = inr res.
Proof.
  unfold Tournament.calculate_tier.
  destruct (Tournament.tier self) as [cached|] eqn:Htier; simpl.
  - intros [= <-]. by rewrite Htier.
  - destruct (Tournament.compute_tier _ _ _ _ c self) as [e|r]; simpl;
      [done|].
    by intros [= <-].
Qed.

(** C9, at the failing input. With a geocoder that fails on every call,
    [__init__] still returns a tournament; its [address] is unset, and
    the error surfaces only in [calculate_tier], as an attribute error. *)
Theorem geocoder_failure_is_swallowed :
  Tournament.init (Samples.source Samples.geo_down) Samples.slug false true
  = inr Samples.tournament_unlocated
  /\ Tournament.address Samples.tournament_unlocated = None
  /\ (Tournament.calculate_tier ascii_lower (Samples.registry_ids).1
        (Samples.registry_ids).2 [Samples.fallback_rule]
        (Samples.source Samples.geo_down) Samples.tournament_unlocated).1
     = inl (AttributeError "address").
Proof.
  split; [|split].
  - vm_compute. reflexivity.
  - reflexivity.
  - rewrite calculate_tier_fresh by reflexivity.
    apply compute_tier_select_raised. by apply region_loop_unset.
Qed.

Lemma gather_entrant_counts_total_dqs (c : Collaborators)
    (counts : Tournament.entrant_counts) :
  Tournament.gather_entrant_counts c = inr counts ->
  Tournament.ec_total_dqs counts = -1
  /\ (check_phase_completed c = inr true ->
        Tournament.ec_total_entrants counts
        = Z.of_nat (length (Tournament.ec_participants counts))
          + Tournament.count_dqs (Tournament.ec_dq_list counts)
              (Tournament.ec_participants counts))
  /\ (check_phase_completed c = inr false ->
        Tournament.ec_total_entrants counts
        = Z.of_nat (length (Tournament.ec_participants counts))
        /\ Tournament.ec_dq_list counts = []).
Proof.
  unfold Tournament.gather_entrant_counts.
  destruct (check_phase_completed c) as [e|[|]]; simpl; [done| |].
  - destruct (collect_phases c) as [e|phases_]; simpl; [done|].
    destruct (get_dqs c _) as [e|[dq_list_ participants_]]; simpl; [done|].
    intros [= <-]. simpl. by split.
  - destruct (get_entrants c) as [e|participants_]; simpl; [done|].
    intros [= <-]. simpl. split; [done|]. by split.
Qed.

(** C7 (as the code has it). Every constructed tournament has the DQ
    count −1, the "unknown" sentinel, and so has every result computed
    from it, whether or not a non-exhibition phase has completed.  When
    one has, the derived tally (disqualified ids that are no
    participant's id) only enters the entrant count. *)
Theorem dq_count_always_unknown (c : Collaborators) (event_slug : string)
    (is_invitational location : bool) (t : Tournament.t) :
  Tournament.init c event_slug is_invitational location = inr t ->
  Tournament.total_dqs t = -1
  /\ (forall lower scored_players scored_tags region_mults c' res,
        Tournament.compute_tier lower scored_players scored_tags region_mults
          c' t = inr res ->
        TournamentTieringResult.dq_count res = -1)
  /\ (check_phase_completed c = inr true ->
        Tournament.total_entrants t
        = Z.of_nat (length (Tournament.participants t))
          + Tournament.count_dqs (Tournament.dq_list t)
              (Tournament.participants t))
  /\ (check_phase_completed c = inr false ->
        Tournament.total_entrants t
        = Z.of_nat (length (Tournament.participants t))
        /\ Tournament.dq_list t = []).
Proof.
  unfold Tournament.init.
  destruct (slug_regex_search c event_slug) as [slug|]; [|done].
  destruct (Tournament.gather_entrant_counts c) as [e|counts] eqn:Hcounts;
    simpl; [done|].
  destruct (if location then _ else _) as [e|address_]; simpl; [done|].
  destruct (Tournament.retrieve_start_time c) as [e|start_time_]; simpl;
    [done|].
  intros [= <-]. simpl.
  destruct (gather_entrant_counts_total_dqs c counts Hcounts)
    as (Hdq & Hprog & Hnot).
  split; [done|]. split; [|by split].
  intros lower scored_players scored_tags region_mults c' res Hres.
  apply compute_tier_result in Hres
    as (m & r & _ & _ & _ & Hcount & _).
  by rewrite Hcount.
Qed.

Lemma dq_count_always_unknown_witness :
  Tournament.init (Samples.source Samples.geo_ok) Samples.slug false true
  = inr Samples.tournament
  /\ Tournament.total_dqs Samples.tournament = -1.
Proof.
  assert (H : Tournament.init (Samples.source Samples.geo_ok) Samples.slug
                false true = inr Samples.tournament)
    by (vm_compute; reflexivity).
  split; [exact H|].
  exact (proj1 (dq_count_always_unknown (Samples.source Samples.geo_ok)
                  Samples.slug false true Samples.tournament H)).
Defined.

(** C7, counterexample. A completed non-exhibition phase with one
    disqualified player who is no participant: the derived tally is 1,
    the tournament and its result carry −1. *)
Lemma dq_count_unknown_after_completed_phase :
  check_phase_completed (Samples.source Samples.geo_ok) = inr true
  /\ Tournament.init (Samples.source Samples.geo_ok) Samples.slug false true
     = inr Samples.tournament
  /\ Tournament.count_dqs (Tournament.dq_list Samples.tournament)
       (Tournament.participants Samples.tournament) = 1
  /\ Tournament.total_dqs Samples.tournament = -1
  /\ match (Tournament.calculate_tier ascii_lower (Samples.registry_ids).1
              (Samples.registry_ids).2 [Samples.fallback_rule]
              (Samples.source Samples.geo_ok) Samples.tournament).1 with
     | inr res => TournamentTieringResult.dq_count res = -1
     | inl _ => False
     end.
Proof.
  split; [reflexivity|]. split; [apply init_sample_tournament|].
  split; [reflexivity|]. split; [reflexivity|].
  vm_compute. reflexivity.
Qed.

(** ** Entrants in [calculate_tier] *)

Section EntrantClaims.
Variable lower : string -> string.
Variable scored_players : dict ident PlayerValueGroup.t.
Variable scored_tags : gset string.
Variable region_mults : list RegionValue.t.

Local Abbreviation participant_step :=
  (Tournament.participant_step lower scored_players scored_tags).
Local Abbreviation compute_tier :=
  (Tournament.compute_tier lower scored_players scored_tags region_mults).

(** An entrant whose step changes nothing can be left out of the
    participant set. *)
Lemma compute_tier_without_participant (c : Collaborators)
    (self : Tournament.t) (p : Entrant.t) (l1 l2 : list Entrant.t) :
  (forall acc, participant_step self acc p = acc) ->
  Tournament.participants self = (l1 ++ p :: l2)%list ->
  compute_tier c self = compute_tier c (with_participants self (l1 ++ l2)).
Proof.
  intros Hid Hparts.
  assert (Hloop : forall r,
            participants_loop lower scored_players scored_tags
              (with_participants self (l1 ++ l2)) r
            = participants_loop lower scored_players scored_tags self r).
  { intros r. unfold participants_loop. simpl. rewrite Hparts.
    change (Tournament.participant_step lower scored_players scored_tags
              (with_participants self (l1 ++ l2)))
      with (participant_step self).
    rewrite !fold_left_app. simpl. by rewrite Hid. }
  assert (Hsame : Tournament.select_region region_mults
                    (with_participants self (l1 ++ l2))
                  = Tournament.select_region region_mults self)
    by reflexivity.
  destruct (Tournament.select_region region_mults self) as [e|[m [r|]]]
    eqn:Hsel.
  - rewrite (compute_tier_select_raised _ _ _ _ c _ e Hsel).
    by rewrite (compute_tier_select_raised _ _ _ _ c _ e Hsame).
  - rewrite (compute_tier_selected _ _ _ _ c _ m r Hsel).
    rewrite (compute_tier_selected _ _ _ _ c _ m r Hsame).
    simpl. by rewrite Hloop.
  - rewrite (compute_tier_no_region _ _ _ _ c _ m Hsel).
    by rewrite (compute_tier_no_region _ _ _ _ c _ m Hsame).
Qed.

(** C10. A non-disqualified entrant whose player id is in the registry
    but whose group has no value valid on the event date leaves the
    score, the valued-participant list and the potential-match list
    untouched, whatever the global tag set contains: the result is the
    one computed without that entrant in the participant set.  The tag
    fallback runs only for ids absent from the registry: every
    potential-match line carries such an id. *)
Theorem valueless_known_entrant_records_nothing (c : Collaborators)
    (self : Tournament.t) (p : Entrant.t) (g : PlayerValueGroup.t) :
  dict_mem (Entrant.id_ p) (Tournament.dq_list self) = false ->
  dict_get (Entrant.id_ p) scored_players = Some g ->
  PlayerValueGroup.retrieve_value g (Tournament.start_time self) = None ->
  (forall acc, participant_step self acc p = acc)
  /\ (forall l1 l2,
        Tournament.participants self = (l1 ++ p :: l2)%list ->
        compute_tier c self
        = compute_tier c (with_participants self (l1 ++ l2)))
  /\ (forall res pm,
        compute_tier c self = inr res ->
        TournamentTieringResult.PotMatch pm
          ∈ TournamentTieringResult.potential res ->
        dict_get (PotentialMatchWithDqs.id_ pm) scored_players = None).
Proof.
  intros Hdq Hget Hret.
  assert (Hid : forall acc, participant_step self acc p = acc).
  { intros [[s v] pm]. rewrite participant_step_eq.
    by rewrite Hdq, Hget, Hret. }
  split; [exact Hid|]. split.
  - intros l1 l2 Hparts.
    by apply (compute_tier_without_participant c self p l1 l2).
  - intros res pm Hres Hin.
    apply compute_tier_result in Hres
      as (m & r & _ & _ & _ & _ & _ & _ & _ & _ & Hpot).
    apply Hpot in Hin
      as (pm' & [= <-]
          & [(p' & _ & _ & Hnone & _ & g' & pv & _ & _ & _ & ->)
            |(e & _ & Hnone & _ & g' & pv & _ & _ & _ & ->)]);
      exact Hnone.
Qed.

(** C1 (as the code has it). A disqualified entrant matched by player id
    is recorded in the DQ'd-valued list and nowhere else, with the
    accumulated DQ count; one whose id the registry lacks and whose tag
    matches is recorded in the potential matches, again with the DQ
    count.  Neither reaches the realized score, which is the entrant
    score plus the points of the valued participants.  Hence no id of the
    DQ map is the id of a valued participant, and a potential match
    carries an id of the DQ map only as the tag fallback of that
    disqualified entrant. *)
Theorem disqualified_entrants_never_score (c : Collaborators)
    (self : Tournament.t) (res : TournamentTieringResult.t) :
  registry_ids_wf scored_players ->
  compute_tier c self = inr res ->
  (forall d,
     d ∈ TournamentTieringResult.dqs res
     <-> exists e, e ∈ dict_values (Tournament.dq_list self)
                   /\ dq_line_of scored_players self e.1 e.2 d)
  /\ (forall e pm,
        e ∈ dict_values (Tournament.dq_list self) ->
        potential_line_of lower scored_players scored_tags self e.1 e.2 pm ->
        TournamentTieringResult.PotMatch pm
          ∈ TournamentTieringResult.potential res
        /\ PotentialMatchWithDqs.dqs pm = e.2
        /\ PotentialMatchWithDqs.id_ pm = Entrant.id_ e.1)
  /\ TournamentTieringResult.score res
     = Tournament.total_entrants self
       * RegionValue.multiplier (TournamentTieringResult.region res)
       + Zsum (map CountedValue.points (TournamentTieringResult.values res))
  /\ (forall cv,
        cv ∈ TournamentTieringResult.values res ->
        dict_mem (CountedValue.id_ cv) (Tournament.dq_list self) = false)
  /\ (forall pm,
        TournamentTieringResult.PotMatch pm
          ∈ TournamentTieringResult.potential res ->
        dict_mem (PotentialMatchWithDqs.id_ pm) (Tournament.dq_list self)
        = true ->
        exists e,
          e ∈ dict_values (Tournament.dq_list self)
          /\ potential_line_of lower scored_players scored_tags self
               e.1 e.2 pm).
Proof.
  intros Hwf Hres.
  apply compute_tier_result in Hres
    as (m & r & _ & <- & _ & _ & _ & Hscore & Hvalued & Hdqs & Hpot).
  split; [exact Hdqs|]. split; [|split; [exact Hscore|split]].
  - intros e pm He Hline. split.
    + apply Hpot. exists pm. split; [done|]. right. by exists e.
    + by destruct Hline as (_ & _ & g & pv & _ & _ & _ & ->).
  - intros cv Hin.
    apply Hvalued in Hin as (p & _ & Hdq & g & pv & Hget & Hret & ->).
    unfold CountedValue.id_. simpl.
    rewrite (Hwf (Entrant.id_ p) g pv Hget); [done|].
    unfold PlayerValueGroup.retrieve_value in Hret.
    apply find_some in Hret as [Hin _]. by apply list_elem_of_In.
  - intros pm Hin Hmem.
    apply Hpot in Hin as (pm' & [= <-] & [(p & _ & Hdq & Hline)|H]);
      [|done].
    destruct Hline as (_ & _ & g & pv & _ & _ & _ & ->).
    simpl in Hmem. congruence.
Qed.
End EntrantClaims.

Lemma valueless_known_entrant_records_nothing_witness :
  bool_decide (ascii_lower (Entrant.tag Samples.bob)
               ∈ (Samples.registry_late).2) = true
  /\ dict_mem (Entrant.id_ Samples.bob)
       (Tournament.dq_list Samples.tournament) = false
  /\ exists g,
       dict_get (Entrant.id_ Samples.bob) (Samples.registry_late).1 = Some g
       /\ PlayerValueGroup.retrieve_value g
            (Tournament.start_time Samples.tournament) = None
       /\ Tournament.participant_step ascii_lower (Samples.registry_late).1
            (Samples.registry_late).2 Samples.tournament (0, [], [])
            Samples.bob
          = (0, [], []).
Proof.
  split; [vm_compute; reflexivity|]. split; [reflexivity|]. eexists.
  split; [vm_compute; reflexivity|]. split; [reflexivity|].
  eapply (valueless_known_entrant_records_nothing ascii_lower
            (Samples.registry_late).1 (Samples.registry_late).2
            [Samples.fallback_rule] (Samples.source Samples.geo_ok)
            Samples.tournament Samples.bob);
    [reflexivity|vm_compute; reflexivity|reflexivity].
Defined.

Lemma disqualified_entrants_never_score_witness :
  registry_ids_wf (Samples.registry_tags).1
  /\ exists res,
       Tournament.compute_tier ascii_lower (Samples.registry_tags).1
         (Samples.registry_tags).2 [Samples.fallback_rule]
         (Samples.source Samples.geo_ok) Samples.tournament = inr res
       /\ TournamentTieringResult.score res
          = Tournament.total_entrants Samples.tournament
            * RegionValue.multiplier (TournamentTieringResult.region res)
            + Zsum (map CountedValue.points
                      (TournamentTieringResult.values res)).
Proof.
  assert (Hwf : registry_ids_wf (Samples.registry_tags).1)
    by apply registry_wf_ids, read_players_registry_wf.
  split; [exact Hwf|]. eexists.
  assert (Hres : Tournament.compute_tier ascii_lower (Samples.registry_tags).1
                   (Samples.registry_tags).2 [Samples.fallback_rule]
                   (Samples.source Samples.geo_ok) Samples.tournament
                 = inr _) by (vm_compute; reflexivity).
  split; [exact Hres|].
  exact (proj1 (proj2 (proj2
           (disqualified_entrants_never_score ascii_lower
              (Samples.registry_tags).1 (Samples.registry_tags).2
              [Samples.fallback_rule] (Samples.source Samples.geo_ok)
              Samples.tournament _ Hwf Hres)))).
Defined.

(** C1, counterexample. Zed is disqualified and unknown by id, but the
    tag matches a registry group: the match is recorded among the
    potential matches, under Zed's id, which is in the DQ map, and the
    DQ'd-valued list stays empty. *)
Lemma disqualified_tag_match_is_potential :
  Tournament.init (Samples.source Samples.geo_ok) Samples.slug false true
  = inr Samples.tournament
  /\ dict_mem (IdNum 3) (Tournament.dq_list Samples.tournament) = true
  /\ match Tournament.compute_tier ascii_lower (Samples.registry_tags).1
             (Samples.registry_tags).2 [Samples.fallback_rule]
             (Samples.source Samples.geo_ok) Samples.tournament with
     | inr res =>
         TournamentTieringResult.dqs res = []
         /\ exists pm,
              TournamentTieringResult.potential res
              = [TournamentTieringResult.PotMatch pm]
              /\ PotentialMatchWithDqs.id_ pm = IdNum 3
              /\ PotentialMatchWithDqs.dqs pm = 1
     | inl _ => False
     end.
Proof.
  split; [apply init_sample_tournament|]. split; [reflexivity|]. vm_compute.
  split; [reflexivity|]. eexists. split; [reflexivity|]. by split.
Qed.

(** ** [max_potential_score] and eligibility *)

Lemma fold_left_Zadd (l : list Z) (a : Z) : fold_left Z.add l a = a + Zsum l.
Proof.
  revert a. induction l as [|x rest IH]; intros a; simpl; [lia|].
  rewrite IH. lia.
Qed.

Lemma Zsum_nonneg (l : list Z) : Forall (fun x => 0 <= x) l -> 0 <= Zsum l.
Proof. induction 1; simpl; lia. Qed.

Lemma Zsum_pos (l : list Z) :
  Forall (fun x => 0 < x) l -> l <> [] -> 0 < Zsum l.
Proof.
  intros Hall Hne. destruct Hall as [|x rest Hx Hrest]; [done|]. simpl.
  assert (0 <= Zsum rest); [|lia].
  apply Zsum_nonneg. eapply Forall_impl; [exact Hrest|]. simpl. lia.
Qed.

Lemma dict_values_set_Forall {K V : Type} `{EqDecision K} (P : V -> Prop)
    (d : dict K V) (k : K) (v : V) :
  Forall P (dict_values d) -> P v -> Forall P (dict_values (dict_set k v d)).
Proof.
  intros Hall Hv. induction d as [|[k0 v0] rest IH]; simpl.
  - by constructor.
  - inversion Hall; subst.
    destruct (decide (k = k0)); simpl; constructor; auto.
Qed.

Lemma compute_max_score_eq (r : TournamentTieringResult.t) :
  TournamentTieringResult.compute_max_score r
  = TournamentTieringResult.score r
    + Zsum (dict_values
              (fold_left TournamentTieringResult.potential_step
                 (TournamentTieringResult.potential r) []))
    + Zsum (dict_values
              (fold_left TournamentTieringResult.dq_step
                 (TournamentTieringResult.dqs r) [])).
Proof.
  unfold TournamentTieringResult.compute_max_score,
    TournamentTieringResult.add_values.
  by rewrite !fold_left_Zadd.
Qed.

Lemma max_potential_score_cache_ok (r : TournamentTieringResult.t) :
  cache_ok r ->
  (TournamentTieringResult.max_potential_score r).1
  = TournamentTieringResult.compute_max_score r.
Proof.
  unfold TournamentTieringResult.max_potential_score.
  intros [-> | ->]; reflexivity.
Qed.

(** A call leaves the cache consistent and the lists untouched. *)
Lemma max_potential_score_keeps_cache_ok (r : TournamentTieringResult.t) :
  cache_ok r -> cache_ok (TournamentTieringResult.max_potential_score r).2.
Proof.
  unfold TournamentTieringResult.max_potential_score.
  intros [Hc|Hc]; rewrite Hc; simpl; [|by right].
  right. reflexivity.
Qed.

Lemma init_cache_ok slug score entrants region values dqs potential inv
    phases dq_count name :
  cache_ok (TournamentTieringResult.init slug score entrants region values
              dqs potential inv phases dq_count name).
Proof. by left. Qed.

Lemma computed_result_cache_ok lower scored_players scored_tags region_mults
    (c : Collaborators) (self : Tournament.t)
    (res : TournamentTieringResult.t) :
  Tournament.compute_tier lower scored_players scored_tags region_mults
    c self = inr res ->
  cache_ok res.
Proof.
  intros Hres.
  apply compute_tier_result in Hres as (m & r & _ & _ & _ & _ & Hnone & _).
  by left.
Qed.

(** The potential-match table never holds a negative score. *)
Lemma potential_table_nonneg (pots : list TournamentTieringResult.potential_entry)
    (table : dict ident Z) :
  Forall (fun x => 0 <= x) (dict_values table) ->
  Forall (fun x => 0 <= x)
    (dict_values (fold_left TournamentTieringResult.potential_step pots table)).
Proof.
  revert table. induction pots as [|pot rest IH]; intros table Hall; simpl;
    [done|].
  apply IH. apply dict_values_set_Forall; [done|].
  assert (0 <= default 0
            (dict_get (TournamentTieringResult.pot_id pot) table)); [|lia].
  destruct (dict_get _ table) as [old|] eqn:Hget; simpl; [|lia].
  apply dict_get_Some_values in Hget.
  rewrite Forall_forall in Hall. by apply Hall.
Qed.

Lemma dq_table_nonneg (dqs : list DisqualificationValue.t)
    (table : dict ident Z) :
  Forall (fun dq => 0 <= (dq_entry dq).2) dqs ->
  Forall (fun x => 0 <= x) (dict_values table) ->
  Forall (fun x => 0 <= x)
    (dict_values (fold_left TournamentTieringResult.dq_step dqs table)).
Proof.
  intros Hdqs. revert table.
  induction Hdqs as [|dq rest Hdq Hrest IH]; intros table Hall; simpl; [done|].
  apply IH. unfold TournamentTieringResult.dq_step.
  unfold dq_entry in Hdq. simpl in Hdq.
  destruct (DisqualificationValue.value dq) as [cv|v]; simpl in Hdq;
    apply dict_values_set_Forall; try done; lia.
Qed.

(** Without negative DQ'd values, the best case is at least the realized
    score. *)
Lemma compute_max_score_ge (r : TournamentTieringResult.t) :
  Forall (fun dq => 0 <= (dq_entry dq).2) (TournamentTieringResult.dqs r) ->
  TournamentTieringResult.score r
  <= TournamentTieringResult.compute_max_score r.
Proof.
  intros Hdqs. rewrite compute_max_score_eq.
  pose proof (Zsum_nonneg _
                (potential_table_nonneg (TournamentTieringResult.potential r)
                   [] (Forall_nil_2 _))).
  pose proof (Zsum_nonneg _
                (dq_table_nonneg (TournamentTieringResult.dqs r) [] Hdqs
                   (Forall_nil_2 _))).
  lia.
Qed.

(** C5 (as the code has it). For a result whose DQ'd-valued entries carry
    no negative points, [should_count_strict()] implies [should_count()]:
    when the entrant floor is met both hold, and otherwise the best-case
    score is at least the realized score and the lenient count includes
    the valued participants. *)
Theorem should_count_strict_implies_should_count
    (r : TournamentTieringResult.t) :
  cache_ok r ->
  Forall (fun dq => 0 <= (dq_entry dq).2) (TournamentTieringResult.dqs r) ->
  TournamentTieringResult.should_count_strict r = true ->
  (TournamentTieringResult.should_count r).1 = true.
Proof.
  intros Hcache Hdqs.
  unfold TournamentTieringResult.should_count_strict,
    TournamentTieringResult.should_count.
  destruct (TournamentTieringResult.entrants r >=? _); [done|]. simpl.
  pose proof (max_potential_score_cache_ok r Hcache) as Hmax.
  destruct (TournamentTieringResult.max_potential_score r) as [m r'].
  simpl in *. subst m.
  pose proof (compute_max_score_ge r Hdqs) as Hge.
  rewrite !andb_true_iff, !Z.geb_le. unfold NUM_PLAYERS_FLOOR. lia.
Qed.

(** ** The score tables of [max_potential_score] *)

Lemma dict_set_fresh {K V : Type} `{EqDecision K} (d : dict K V) (k : K)
    (v : V) :
  dict_get k d = None -> dict_set k v d = (d ++ [(k, v)])%list.
Proof.
  induction d as [|[k0 v0] rest IH]; simpl; [done|].
  destruct (decide (k = k0)); [done|]. intros H. by rewrite IH.
Qed.

(** In a table with distinct keys, the values are the lookups of the
    keys. *)
Lemma dict_sum_keys (d : dict ident Z) :
  NoDup (dict_keys d) ->
  Zsum (dict_values d)
  = Zsum (map (fun k => default 0 (dict_get k d)) (dict_keys d)).
Proof.
  induction d as [|[k0 v0] rest IH]; simpl; [done|].
  intros Hnd. apply NoDup_cons in Hnd as [Hnotin Hnd].
  destruct (decide (k0 = k0)); [|done]. simpl. rewrite IH by done.
  f_equal. f_equal. apply map_ext_in. intros k Hin.
  destruct (decide (k = k0)) as [->|]; [|done].
  apply list_elem_of_In in Hin. done.
Qed.

Lemma max_table_fold_map (pots : list TournamentTieringResult.potential_entry)
    (table : dict ident Z) :
  fold_left TournamentTieringResult.potential_step pots table
  = fold_left max_step (map pot_entry pots) table.
Proof.
  revert table. induction pots as [|pot rest IH]; intros table; simpl; [done|].
  apply IH.
Qed.

Lemma max_table_lookup (es : list (ident * Z)) (table : dict ident Z)
    (k : ident) :
  default 0 (dict_get k (fold_left max_step es table))
  = running_best k es (default 0 (dict_get k table)).
Proof.
  revert table. induction es as [|e rest IH]; intros table; simpl; [done|].
  rewrite IH. f_equal. unfold max_step. rewrite dict_get_set.
  destruct (decide (k = e.1)) as [->|Hne].
  - by rewrite bool_decide_eq_true_2.
  - by rewrite bool_decide_eq_false_2.
Qed.

Lemma max_table_keys (es : list (ident * Z)) (table : dict ident Z)
    (k : ident) :
  k ∈ dict_keys (fold_left max_step es table)
  <-> k ∈ dict_keys table \/ k ∈ map fst es.
Proof.
  revert table. induction es as [|e rest IH]; intros table; simpl.
  - split; [by left|]. intros [H|H]; [done|by apply not_elem_of_nil in H].
  - rewrite IH. unfold max_step. rewrite dict_keys_set, elem_of_cons.
    unfold dict_mem.
    destruct (dict_get e.1 table) eqn:Hget.
    + assert (e.1 ∈ dict_keys table).
      { destruct (decide (e.1 ∈ dict_keys table)) as [|Hn]; [done|].
        apply dict_get_None_keys in Hn. congruence. }
      split; [tauto|]. intros [H'|[->|H']]; tauto.
    + rewrite elem_of_app, list_elem_of_singleton. tauto.
Qed.

Lemma max_table_NoDup (es : list (ident * Z)) (table : dict ident Z) :
  NoDup (dict_keys table) -> NoDup (dict_keys (fold_left max_step es table)).
Proof.
  revert table. induction es as [|e rest IH]; intros table Hnd; simpl; [done|].
  apply IH. by apply dict_keys_set_NoDup.
Qed.

Lemma Zmax_list_ge_head (x : Z) (l : list Z) : x <= Zmax_list x l.
Proof. destruct l; simpl; lia. Qed.

Lemma Zmax_list_max (x y : Z) (l : list Z) :
  Zmax_list (Z.max x y) l = Z.max x (Zmax_list y l).
Proof. destruct l as [|z rest]; simpl; lia. Qed.

Lemma fold_max_Zmax_list (l : list Z) (a : Z) :
  fold_left (fun a x => Z.max x a) l a = Zmax_list a l.
Proof.
  revert a. induction l as [|y rest IH]; intros a; simpl; [done|].
  rewrite IH, Zmax_list_max. destruct rest; simpl; lia.
Qed.

Lemma running_best_points_of (k : ident) (es : list (ident * Z)) (a : Z) :
  running_best k es a = fold_left (fun a x => Z.max x a) (points_of k es) a.
Proof.
  unfold running_best, points_of. revert a.
  induction es as [|e rest IH]; intros a; simpl; [done|].
  destruct (bool_decide (e.1 = k)); simpl; apply IH.
Qed.

Lemma points_of_elem (k : ident) (es : list (ident * Z)) (x : Z) :
  x ∈ points_of k es -> (k, x) ∈ es.
Proof.
  unfold points_of. rewrite list_elem_of_fmap. intros ([k' x'] & -> & Hin).
  apply list_elem_of_In, filter_In in Hin as [Hin Hk].
  apply bool_decide_eq_true in Hk. simpl in Hk. subst k'.
  by apply list_elem_of_In.
Qed.

(** Without negative points, the kept score is the best points of the
    id. *)
Lemma running_best_best_points (k : ident) (es : list (ident * Z)) :
  Forall (fun e => 0 <= e.2) es -> running_best k es 0 = best_points k es.
Proof.
  intros Hall. rewrite running_best_points_of, fold_max_Zmax_list.
  unfold best_points.
  destruct (points_of k es) as [|x rest] eqn:Hpts; [done|]. simpl.
  assert (0 <= x).
  { rewrite Forall_forall in Hall.
    apply (Hall (k, x)), points_of_elem. rewrite Hpts. left. }
  pose proof (Zmax_list_ge_head x rest). lia.
Qed.

(** The potential-match table sums to the best points per distinct id. *)
Lemma potential_table_sum (pots : list TournamentTieringResult.potential_entry) :
  Forall (fun pot => 0 <= (pot_entry pot).2) pots ->
  Zsum (dict_values (fold_left TournamentTieringResult.potential_step pots []))
  = sum_best (map pot_entry pots).
Proof.
  intros Hall. rewrite max_table_fold_map.
  set (es := map pot_entry pots).
  assert (Hes : Forall (fun e => 0 <= e.2) es)
    by (unfold es; by rewrite Forall_map).
  assert (Hnd : NoDup (dict_keys (fold_left max_step es [])))
    by (apply max_table_NoDup; constructor).
  rewrite dict_sum_keys by done. unfold sum_best.
  rewrite (map_ext _ (fun k => best_points k es)).
  - apply Zsum_Permutation, Permutation_map, NoDup_Permutation.
    + exact Hnd.
    + apply NoDup_remove_dups.
    + intros k. rewrite max_table_keys, elem_of_remove_dups. simpl.
      split; [|by right].
      intros [H|H]; [by apply not_elem_of_nil in H|done].
  - intros k. rewrite max_table_lookup. simpl.
    by apply running_best_best_points.
Qed.

(** With distinct ids and no negative points, the DQ table lists the
    entries as they come. *)
Lemma dq_table_distinct (dqs : list DisqualificationValue.t)
    (table : dict ident Z) :
  NoDup (dict_keys table ++ map (fun dq => (dq_entry dq).1) dqs) ->
  Forall (fun dq => 0 <= (dq_entry dq).2) dqs ->
  fold_left TournamentTieringResult.dq_step dqs table
  = (table ++ map dq_entry dqs)%list.
Proof.
  revert table. induction dqs as [|dq rest IH]; intros table Hnd Hall; simpl.
  - by rewrite app_nil_r.
  - inversion Hall as [|? ? Hdq Hrest]; subst.
    assert (Hfresh : dict_get (dq_entry dq).1 table = None).
    { apply dict_get_None_keys. intros Hin.
      apply NoDup_app in Hnd as (_ & Hdisj & _).
      apply (Hdisj _ Hin). left. }
    assert (Hstep : TournamentTieringResult.dq_step table dq
                    = (table ++ [dq_entry dq])%list).
    { unfold TournamentTieringResult.dq_step, dq_entry in *.
      destruct (DisqualificationValue.value dq) as [cv|v]; simpl in *.
      - by apply dict_set_fresh.
      - rewrite Hfresh. simpl. rewrite dict_set_fresh by done.
        do 3 f_equal. lia. }
    rewrite Hstep, IH; [by rewrite <- app_assoc| |done].
    unfold dict_keys in *. rewrite map_app. simpl.
    rewrite <- app_assoc. exact Hnd.
Qed.

Lemma remove_dups_NoDup_id (l : list ident) : NoDup l -> remove_dups l = l.
Proof.
  induction 1 as [|x l Hx Hl IH]; simpl; [done|].
  destruct (decide_rel _ x l); [done|]. by rewrite IH.
Qed.

Lemma points_of_absent (k : ident) (es : list (ident * Z)) :
  k ∉ map fst es -> points_of k es = [].
Proof.
  unfold points_of. induction es as [|e rest IH]; simpl; [done|].
  rewrite not_elem_of_cons. intros [Hne Hrest].
  rewrite bool_decide_eq_false_2 by done. by apply IH.
Qed.

Lemma sum_best_distinct (es : list (ident * Z)) :
  NoDup (map fst es) -> sum_best es = Zsum (map snd es).
Proof.
  intros Hnd. unfold sum_best. rewrite remove_dups_NoDup_id by done.
  f_equal. rewrite map_map. apply map_ext_in. intros e Hin.
  unfold best_points.
  assert (Hpts : points_of e.1 es = [e.2]); [|by rewrite Hpts].
  clear -Hnd Hin. induction es as [|e0 rest IH]; [done|].
  simpl in Hnd. apply NoDup_cons in Hnd as [Hnotin Hnd].
  destruct Hin as [->|Hin].
  - unfold points_of. simpl. rewrite bool_decide_eq_true_2 by done.
    simpl. f_equal. by apply points_of_absent.
  - unfold points_of. simpl. rewrite bool_decide_eq_false_2.
    + by apply IH.
    + intros Heq. apply Hnotin. rewrite Heq.
      apply list_elem_of_fmap. exists e. split; [done|].
      by apply list_elem_of_In.
Qed.

Lemma should_count_strict_implies_should_count_witness :
  cache_ok Samples2.result_valued
  /\ Forall (fun dq => 0 <= (dq_entry dq).2)
       (TournamentTieringResult.dqs Samples2.result_valued)
  /\ TournamentTieringResult.should_count_strict Samples2.result_valued = true
  /\ (TournamentTieringResult.should_count Samples2.result_valued).1 = true.
Proof.
  assert (H1 : cache_ok Samples2.result_valued) by (left; reflexivity).
  assert (H2 : Forall (fun dq => 0 <= (dq_entry dq).2)
                 (TournamentTieringResult.dqs Samples2.result_valued))
    by constructor.
  assert (H3 : TournamentTieringResult.should_count_strict
                 Samples2.result_valued = true) by reflexivity.
  split; [exact H1|]. split; [exact H2|]. split; [exact H3|].
  exact (should_count_strict_implies_should_count Samples2.result_valued
           H1 H2 H3).
Defined.

(** C5, counterexample. Zed is disqualified and worth −300 points: the
    computed result passes the strict test on its realized score of 253
    with two valued participants, while its best-case score is −47 and
    the lenient test fails. *)
Lemma should_count_fails_on_negative_dq_value :
  Tournament.init (Samples.source Samples.geo_ok) Samples.slug false true
  = inr Samples.tournament
  /\ match Tournament.compute_tier ascii_lower (Samples.registry_negative).1
             (Samples.registry_negative).2 [Samples.fallback_rule]
             (Samples.source Samples.geo_ok) Samples.tournament with
     | inr res =>
         TournamentTieringResult.score res = 253
         /\ (TournamentTieringResult.max_potential_score res).1 = -47
         /\ TournamentTieringResult.should_count_strict res = true
         /\ (TournamentTieringResult.should_count res).1 = false
     | inl _ => False
     end.
Proof. split; [apply init_sample_tournament|]. vm_compute. repeat split. Qed.

(** *** The tables in general *)

(** The score the first loop keeps for an id is its best points, or 0
    when they are negative. *)
Lemma running_best_floor (k : ident) (es : list (ident * Z)) :
  running_best k es 0 = Z.max 0 (best_points k es).
Proof.
  rewrite running_best_points_of, fold_max_Zmax_list. unfold best_points.
  destruct (points_of k es) as [|x rest]; [done|]. reflexivity.
Qed.

(** The potential-match table sums, over the distinct ids, the best
    points of each id, a negative best counting as 0. *)
Lemma potential_table_sum_floor
    (pots : list TournamentTieringResult.potential_entry) :
  Zsum (dict_values (fold_left TournamentTieringResult.potential_step pots []))
  = Zsum (map (fun k => Z.max 0 (best_points k (map pot_entry pots)))
            (remove_dups (map fst (map pot_entry pots)))).
Proof.
  rewrite max_table_fold_map.
  set (es := map pot_entry pots).
  assert (Hnd : NoDup (dict_keys (fold_left max_step es [])))
    by (apply max_table_NoDup; constructor).
  rewrite dict_sum_keys by done.
  rewrite (map_ext _ (fun k => Z.max 0 (best_points k es))).
  - apply Zsum_Permutation, Permutation_map, NoDup_Permutation.
    + exact Hnd.
    + apply NoDup_remove_dups.
    + intros k. rewrite max_table_keys, elem_of_remove_dups. simpl.
      split; [|by right].
      intros [H|H]; [by apply not_elem_of_nil in H|done].
  - intros k. rewrite max_table_lookup. simpl. apply running_best_floor.
Qed.

Lemma best_points_of_key (P : Z -> Prop) (es : list (ident * Z)) (k : ident) :
  Forall (fun e => P (best_points e.1 es)) es ->
  k ∈ remove_dups (map fst es) ->
  P (best_points k es).
Proof.
  intros Hall Hk. apply elem_of_remove_dups, list_elem_of_fmap in Hk
    as (e & -> & He).
  rewrite Forall_forall in Hall. by apply Hall.
Qed.

Lemma sum_floor_best_nonneg (es : list (ident * Z)) :
  best_nonneg es ->
  Zsum (map (fun k => Z.max 0 (best_points k es)) (remove_dups (map fst es)))
  = sum_best es.
Proof.
  intros Hall. unfold sum_best. f_equal. apply map_ext_in. intros k Hk.
  apply list_elem_of_In in Hk.
  pose proof (best_points_of_key (fun b => 0 <= b) es k Hall Hk) as Hb.
  simpl in Hb. lia.
Qed.

Lemma sum_floor_nonneg (es : list (ident * Z)) :
  0 <= Zsum (map (fun k => Z.max 0 (best_points k es))
               (remove_dups (map fst es))).
Proof. apply Zsum_nonneg, Forall_map, Forall_forall. intros k _. simpl. lia. Qed.

Lemma sum_floor_best_positive (es : list (ident * Z)) :
  best_positive es -> es <> [] ->
  0 < Zsum (map (fun k => Z.max 0 (best_points k es))
              (remove_dups (map fst es))).
Proof.
  intros Hall Hne. apply Zsum_pos.
  - apply Forall_map, Forall_forall. intros k Hk. simpl.
    pose proof (best_points_of_key (fun b => 0 < b) es k Hall Hk) as Hb.
    simpl in Hb. lia.
  - destruct es as [|e rest]; [done|]. intros Hnil.
    apply fmap_nil_inv in Hnil.
    assert (Hin : e.1 ∈ remove_dups (map fst (e :: rest))).
    { apply elem_of_remove_dups. simpl. left. }
    rewrite Hnil in Hin. by apply not_elem_of_nil in Hin.
Qed.

(** Entries without negative points have bests without negative points,
    and entries with positive points have positive bests. *)
Lemma best_points_ge_entry (P : Z -> Prop) (es : list (ident * Z)) :
  (forall x y, P x -> x <= y -> P y) ->
  Forall (fun e => P e.2) es ->
  Forall (fun e => P (best_points e.1 es)) es.
Proof.
  intros Hup Hall. apply Forall_forall. intros e He. unfold best_points.
  destruct (points_of e.1 es) as [|x rest] eqn:Hpts.
  - assert (Hin : e.2 ∈ points_of e.1 es).
    { unfold points_of. apply list_elem_of_fmap. exists e. split; [done|].
      apply list_elem_of_In, filter_In. split; [by apply list_elem_of_In|].
      by apply bool_decide_eq_true. }
    rewrite Hpts in Hin. by apply not_elem_of_nil in Hin.
  - apply (Hup x); [|apply Zmax_list_ge_head].
    rewrite Forall_forall in Hall.
    apply (Hall (e.1, x)), points_of_elem. rewrite Hpts. left.
Qed.

Lemma entries_nonneg_best_nonneg (es : list (ident * Z)) :
  Forall (fun e => 0 <= e.2) es -> best_nonneg es.
Proof. apply (best_points_ge_entry (fun x => 0 <= x)). intros x y. lia. Qed.

Lemma entries_positive_best_positive (es : list (ident * Z)) :
  Forall (fun e => 0 < e.2) es -> best_positive es.
Proof. apply (best_points_ge_entry (fun x => 0 < x)). intros x y. lia. Qed.

(** The DQ table holds no negative score when no [CountedValue] does. *)
Lemma dq_table_counted_nonneg (dqs : list DisqualificationValue.t)
    (table : dict ident Z) :
  Forall counted_nonneg dqs ->
  Forall (fun x => 0 <= x) (dict_values table) ->
  Forall (fun x => 0 <= x)
    (dict_values (fold_left TournamentTieringResult.dq_step dqs table)).
Proof.
  intros Hdqs. revert table.
  induction Hdqs as [|dq rest Hdq Hrest IH]; intros table Hall; simpl; [done|].
  apply IH. unfold TournamentTieringResult.dq_step.
  unfold counted_nonneg in Hdq.
  destruct (DisqualificationValue.value dq) as [cv|v];
    apply dict_values_set_Forall; try done.
  assert (0 <= default 0 (dict_get (PlayerValue.id_ v) table)); [|lia].
  destruct (dict_get _ table) as [old|] eqn:Hget; simpl; [|lia].
  apply dict_get_Some_values in Hget.
  rewrite Forall_forall in Hall. by apply Hall.
Qed.

Lemma dq_table_positive (dqs : list DisqualificationValue.t)
    (table : dict ident Z) :
  Forall (fun dq => 0 < (dq_entry dq).2) dqs ->
  Forall (fun x => 0 < x) (dict_values table) ->
  Forall (fun x => 0 < x)
    (dict_values (fold_left TournamentTieringResult.dq_step dqs table)).
Proof.
  intros Hdqs. revert table.
  induction Hdqs as [|dq rest Hdq Hrest IH]; intros table Hall; simpl; [done|].
  apply IH. unfold TournamentTieringResult.dq_step.
  unfold dq_entry in Hdq. simpl in Hdq.
  destruct (DisqualificationValue.value dq) as [cv|v]; simpl in Hdq;
    apply dict_values_set_Forall; try done; lia.
Qed.

Lemma dict_set_nonempty {K V : Type} `{EqDecision K} (d : dict K V) (k : K)
    (v : V) :
  dict_set k v d <> [].
Proof. destruct d as [|[k0 v0] rest]; simpl; [done|]. by destruct (decide _). Qed.

Lemma dq_table_grows (dqs : list DisqualificationValue.t)
    (table : dict ident Z) :
  table <> [] ->
  fold_left TournamentTieringResult.dq_step dqs table <> [].
Proof.
  revert table. induction dqs as [|dq rest IH]; intros table Hne; simpl;
    [done|].
  apply IH. unfold TournamentTieringResult.dq_step.
  destruct (DisqualificationValue.value dq); apply dict_set_nonempty.
Qed.

Lemma dq_table_nonempty (dq : DisqualificationValue.t)
    (rest : list DisqualificationValue.t) :
  dict_values (fold_left TournamentTieringResult.dq_step (dq :: rest) [])
  <> [].
Proof.
  simpl. intros Hnil. apply fmap_nil_inv in Hnil. revert Hnil.
  apply dq_table_grows. unfold TournamentTieringResult.dq_step.
  destruct (DisqualificationValue.value dq); apply dict_set_nonempty.
Qed.

(** With distinct ids, and no negative points on a value that is no
    [CountedValue], the DQ table lists the entries as they come. *)
Lemma dq_table_distinct_plain (dqs : list DisqualificationValue.t)
    (table : dict ident Z) :
  NoDup (dict_keys table ++ map (fun dq => (dq_entry dq).1) dqs) ->
  Forall plain_nonneg dqs ->
  fold_left TournamentTieringResult.dq_step dqs table
  = (table ++ map dq_entry dqs)%list.
Proof.
  revert table. induction dqs as [|dq rest IH]; intros table Hnd Hall; simpl.
  - by rewrite app_nil_r.
  - inversion Hall as [|? ? Hdq Hrest]; subst.
    assert (Hfresh : dict_get (dq_entry dq).1 table = None).
    { apply dict_get_None_keys. intros Hin.
      apply NoDup_app in Hnd as (_ & Hdisj & _).
      apply (Hdisj _ Hin). left. }
    assert (Hstep : TournamentTieringResult.dq_step table dq
                    = (table ++ [dq_entry dq])%list).
    { unfold TournamentTieringResult.dq_step, dq_entry, plain_nonneg in *.
      destruct (DisqualificationValue.value dq) as [cv|v]; simpl in *.
      - by apply dict_set_fresh.
      - rewrite Hfresh. simpl. rewrite dict_set_fresh by done.
        do 3 f_equal. lia. }
    rewrite Hstep, IH; [by rewrite <- app_assoc| |done].
    unfold dict_keys in *. rewrite map_app. simpl.
    rewrite <- app_assoc. exact Hnd.
Qed.

(** C6 (as the code has it). [max_potential_score()] is at least the
    realized score for every result in which no DQ'd [CountedValue]
    carries negative points.  It equals the realized score whenever the
    potential-matches list and the DQ'd-valued list are both empty, and
    only then when every player id among the potential matches has a
    candidate with positive points and every DQ'd-valued entry carries
    positive points.  When every player id among the potential matches
    has a candidate without negative points, no DQ'd value other than a
    [CountedValue] carries negative points and the DQ'd-valued entries
    have pairwise distinct player ids, it exceeds the realized score by
    the best points per distinct player id among the potential matches
    plus the best points per distinct DQ'd id.  Entries that all carry
    positive points, or none negative, meet these conditions
    ([entries_positive_best_positive], [entries_nonneg_best_nonneg]). *)
Theorem max_potential_score_surplus (r : TournamentTieringResult.t) :
  cache_ok r ->
  (Forall counted_nonneg (TournamentTieringResult.dqs r) ->
   TournamentTieringResult.score r
   <= (TournamentTieringResult.max_potential_score r).1)
  /\ (TournamentTieringResult.potential r = []
      /\ TournamentTieringResult.dqs r = [] ->
      (TournamentTieringResult.max_potential_score r).1
      = TournamentTieringResult.score r)
  /\ (best_positive (map pot_entry (TournamentTieringResult.potential r)) ->
      Forall (fun dq => 0 < (dq_entry dq).2) (TournamentTieringResult.dqs r) ->
      (TournamentTieringResult.max_potential_score r).1
      = TournamentTieringResult.score r ->
      TournamentTieringResult.potential r = []
      /\ TournamentTieringResult.dqs r = [])
  /\ (best_nonneg (map pot_entry (TournamentTieringResult.potential r)) ->
      Forall plain_nonneg (TournamentTieringResult.dqs r) ->
      NoDup (map (fun dq => (dq_entry dq).1) (TournamentTieringResult.dqs r)) ->
      (TournamentTieringResult.max_potential_score r).1
      - TournamentTieringResult.score r
      = sum_best (map pot_entry (TournamentTieringResult.potential r))
        + sum_best (map dq_entry (TournamentTieringResult.dqs r))).
Proof.
  intros Hcache.
  rewrite (max_potential_score_cache_ok r Hcache), compute_max_score_eq.
  rewrite potential_table_sum_floor.
  pose proof (sum_floor_nonneg
                (map pot_entry (TournamentTieringResult.potential r))) as HP.
  split; [|split; [|split]].
  - intros Hdqs.
    pose proof (Zsum_nonneg _
                  (dq_table_counted_nonneg (TournamentTieringResult.dqs r) []
                     Hdqs (Forall_nil_2 _))).
    lia.
  - intros [-> ->]. simpl. lia.
  - intros Hpots Hdqs Heq.
    assert (HD : 0 <= Zsum (dict_values
                   (fold_left TournamentTieringResult.dq_step
                      (TournamentTieringResult.dqs r) []))).
    { apply Zsum_nonneg. eapply Forall_impl.
      - apply (dq_table_positive _ [] Hdqs). constructor.
      - simpl. lia. }
    split.
    + destruct (TournamentTieringResult.potential r) as [|pot pots]; [done|].
      pose proof (sum_floor_best_positive _ Hpots ltac:(done)). lia.
    + destruct (TournamentTieringResult.dqs r) as [|dq dqs]; [done|].
      pose proof (Zsum_pos _
                    (dq_table_positive (dq :: dqs) [] Hdqs (Forall_nil_2 _))
                    (dq_table_nonempty dq dqs)).
      lia.
  - intros Hpots Hdqs Hnd.
    rewrite (sum_floor_best_nonneg _ Hpots).
    rewrite (dq_table_distinct_plain _ [] Hnd Hdqs). simpl.
    rewrite (sum_best_distinct
               (map dq_entry (TournamentTieringResult.dqs r)));
      [unfold dict_values; lia|].
    rewrite map_map. exact Hnd.
Qed.

Lemma max_potential_score_surplus_witness :
  cache_ok Samples2.result_mixed
  /\ (TournamentTieringResult.max_potential_score Samples2.result_mixed).1
     - TournamentTieringResult.score Samples2.result_mixed
     = sum_best (map pot_entry
                   (TournamentTieringResult.potential Samples2.result_mixed))
       + sum_best (map dq_entry
                     (TournamentTieringResult.dqs Samples2.result_mixed)).
Proof.
  assert (H1 : cache_ok Samples2.result_mixed) by (left; reflexivity).
  split; [exact H1|].
  refine (proj2 (proj2 (proj2 (max_potential_score_surplus
                                 Samples2.result_mixed H1))) _ _ _).
  - constructor; [|constructor]. vm_compute. discriminate.
  - constructor; [|constructor]. exact I.
  - simpl. apply NoDup_singleton.
Defined.

(** C6, counterexample. (1) A potential match worth 0 points: the list is
    not empty and the best case equals the realized score.  (2) A DQ'd
    value of −300 points: the best case is below the realized score.
    (3) Two DQ'd-valued lines of one player id, worth 90 then 50: the
    surplus is the 50 of the last line, not the best 90.  (4) A potential
    match worth −20 points: the surplus is 0, not −20.  (5) A DQ'd value
    that is no [CountedValue], worth −30 points: the surplus is 0, not
    −30. *)
Lemma max_potential_score_surplus_fails :
  match Tournament.compute_tier ascii_lower (Samples.registry_zero).1
          (Samples.registry_zero).2 [Samples.fallback_rule]
          (Samples.source Samples.geo_ok) Samples.tournament with
  | inr res =>
      TournamentTieringResult.potential res <> []
      /\ (TournamentTieringResult.max_potential_score res).1
         = TournamentTieringResult.score res
  | inl _ => False
  end
  /\ match Tournament.compute_tier ascii_lower (Samples.registry_negative).1
             (Samples.registry_negative).2 [Samples.fallback_rule]
             (Samples.source Samples.geo_ok) Samples.tournament with
     | inr res =>
         (TournamentTieringResult.max_potential_score res).1
         < TournamentTieringResult.score res
     | inl _ => False
     end
  /\ (TournamentTieringResult.max_potential_score
        Samples2.result_repeated_dq).1
     - TournamentTieringResult.score Samples2.result_repeated_dq = 50
  /\ sum_best (map dq_entry
                 (TournamentTieringResult.dqs Samples2.result_repeated_dq))
     = 90
  /\ (TournamentTieringResult.max_potential_score
        Samples2.result_negative_potential).1
     - TournamentTieringResult.score Samples2.result_negative_potential = 0
  /\ sum_best (map pot_entry
                 (TournamentTieringResult.potential
                    Samples2.result_negative_potential))
     = -20
  /\ (TournamentTieringResult.max_potential_score Samples2.result_plain_dq).1
     - TournamentTieringResult.score Samples2.result_plain_dq = 0
  /\ sum_best (map dq_entry
                 (TournamentTieringResult.dqs Samples2.result_plain_dq))
     = -30.
Proof.
  split; [|split; [|split; [|split; [|split; [|split; [|split]]]]]].
  - vm_compute. split; [done|reflexivity].
  - vm_compute. reflexivity.
  - vm_compute. reflexivity.
  - vm_compute. reflexivity.
  - vm_compute. reflexivity.
  - vm_compute. reflexivity.
  - vm_compute. reflexivity.
  - vm_compute. reflexivity.
Qed.

(** The scenarios of the specification: 50 entrants with valued
    participants worth 100, 80 and 50 count strictly on the score; a
    player disqualified twice and worth 90 adds nothing to the realized
    score and 90 to the best case. *)
Example should_count_strict_on_score :
  TournamentTieringResult.should_count_strict Samples2.result_valued = true.
Proof. reflexivity. Qed.

Example max_potential_score_mixed :
  TournamentTieringResult.score Samples2.result_mixed = 140
  /\ (TournamentTieringResult.max_potential_score Samples2.result_mixed).1
     = 140 + 60 + 90.
Proof. split; reflexivity. Qed.

Example should_count_lenient_only :
  TournamentTieringResult.should_count_strict Samples2.result_mixed = false
  /\ (TournamentTieringResult.should_count Samples2.result_mixed).1 = true.
Proof. split; reflexivity. Qed.

(** * Further properties *)

(** ** The registry *)

Lemma dict_values_set_elem {K V : Type} `{EqDecision K} (d : dict K V) (k : K)
    (v x : V) :
  x ∈ dict_values (dict_set k v d) -> x = v \/ x ∈ dict_values d.
Proof.
  induction d as [|[k0 v0] rest IH]; simpl.
  - intros Hin. apply list_elem_of_singleton in Hin. by left.
  - destruct (decide (k = k0)); simpl; rewrite !elem_of_cons.
    + intros [->|Hin]; [by left|right; by right].
    + intros [->|Hin]; [right; by left|].
      destruct (IH Hin) as [->|Hin']; [by left|right; by right].
Qed.

Lemma add_value_group_shape k g points note s e :
  PlayerValueGroup.id_ g = k ->
  (forall v,
     v ∈ PlayerValueGroup.values g ->
     PlayerValue.id_ v = k
     /\ PlayerValue.tag v = PlayerValueGroup.tag g
     /\ PlayerValue.invitational_val v = PlayerValueGroup.invitational_val g) ->
  group_shape k (PlayerValueGroup.add_value g points note s e).
Proof.
  intros Hid Hvals. split; [done|]. split; [|split].
  - simpl. intros Hnil.
    pose proof (sort_reverse_by_Permutation PlayerValue.points Z.ltb
                  (PlayerValueGroup.values g
                   ++ [new_value g points note s e])) as Hperm.
    unfold new_value in Hperm. rewrite Hnil in Hperm.
    apply Permutation_nil in Hperm. by destruct (PlayerValueGroup.values g).
  - apply add_value_values_sorted.
  - intros v. simpl. rewrite sort_reverse_by_Permutation, elem_of_app.
    intros [Hin|Hin]; [by apply Hvals|].
    apply list_elem_of_singleton in Hin as ->. done.
Qed.

Lemma set_invitational_val_group_shape k g value :
  group_shape k g ->
  group_shape k (PlayerValueGroup.set_invitational_val g value).
Proof.
  intros (Hid & Hne & Hsorted & Hvals). split; [done|]. split; [|split].
  - simpl. by destruct (PlayerValueGroup.values g).
  - by apply set_invitational_val_values_sorted.
  - intros v. simpl. rewrite list_elem_of_fmap. intros (v0 & -> & Hin).
    simpl. destruct (Hvals v0 Hin) as (H1 & H2 & _). done.
Qed.

Section RegistryShape.
Variable lower : string -> string.
Variable strip : string -> string.

Lemma players_step_shape alt_tags acc row :
  registry_shape acc.1 ->
  registry_shape (players_step lower strip alt_tags acc row).1.
Proof.
  destruct acc as [players tags]. unfold players_step. simpl.
  intros [Hnd Hwf].
  destruct (String.eqb (strip (row_player row)) ""); [done|]. simpl.
  split; [by apply dict_keys_set_NoDup|].
  intros k g. rewrite dict_get_set.
  destruct (decide (k = _)) as [->|Hne]; [|by apply Hwf].
  intros [= <-].
  destruct (dict_get _ players) as [g0|] eqn:Hget.
  - destruct (Hwf _ _ Hget) as (Hid & _ & _ & Hvals).
    by apply add_value_group_shape.
  - apply add_value_group_shape; [done|].
    intros v Hin. by apply not_elem_of_nil in Hin.
Qed.

Lemma invit_step_shape players row :
  registry_shape players -> registry_shape (invit_step players row).
Proof.
  unfold invit_step. intros [Hnd Hwf].
  destruct (dict_get _ players) as [g0|] eqn:Hget; [|done].
  split; [by apply dict_keys_set_NoDup|].
  intros k g. rewrite dict_get_set.
  destruct (decide (k = _)) as [->|Hne]; [|by apply Hwf].
  intros [= <-]. apply set_invitational_val_group_shape. by apply Hwf.
Qed.

(** X1. Whatever the tables hold, the registry [read_players] returns
    has distinct keys and stores under each key a group with that id, at
    least one value, values in descending order of points, and values
    that all carry the group's id, tag and invitational bonus. *)
Theorem read_players_registry_shape tag_rows player_rows invit_rows :
  NoDup (dict_keys (read_players lower strip tag_rows player_rows invit_rows).1)
  /\ forall k g,
       dict_get k (read_players lower strip tag_rows player_rows invit_rows).1
       = Some g ->
       group_shape k g.
Proof.
  unfold read_players.
  destruct (fold_left (tags_step lower) _ _) as [alt_tags tags].
  assert (Hplayers : forall rows acc,
            registry_shape acc.1 ->
            registry_shape
              (fold_left (players_step lower strip alt_tags) rows acc).1).
  { induction rows as [|row rest IH]; intros acc Hacc; simpl; [done|].
    apply IH. by apply players_step_shape. }
  specialize (Hplayers player_rows ([], tags)).
  destruct (fold_left (players_step lower strip alt_tags) _ _)
    as [players tags'].
  simpl in *.
  assert (Hinvit : forall rows players0,
            registry_shape players0 ->
            registry_shape (fold_left invit_step rows players0)).
  { induction rows as [|row rest IH]; intros players0 H0; simpl; [done|].
    apply IH. by apply invit_step_shape. }
  apply Hinvit, Hplayers. split; [constructor|done].
Qed.
End RegistryShape.

(** Sorting a descending list with one more element at its end puts the
    element behind every element with at least its key. *)
Lemma sort_reverse_by_snoc {A : Type} (key : A -> Z) (l : list A) (x : A) :
  StronglySorted (fun a b => key b <= key a) l ->
  sort_reverse_by key Z.ltb (l ++ [x])
  = (List.filter (fun y => key x <=? key y) l
     ++ x :: List.filter (fun y => key y <? key x) l)%list.
Proof.
  unfold sort_reverse_by, sort_by. rewrite foldr_app. simpl.
  induction 1 as [|y l Hl IH Hall]; simpl; [done|].
  rewrite IH. clear IH.
  destruct (Z.leb_spec (key x) (key y)) as [Hle|Hlt].
  - destruct (Z.ltb_spec (key y) (key x)); [lia|].
    destruct (List.filter (fun y0 => key x <=? key y0) l) as [|z rest] eqn:Hf;
      simpl.
    + destruct (Z.ltb_spec (key y) (key x)); [lia|done].
    + assert (Hz : In z (List.filter (fun y0 => key x <=? key y0) l))
        by (rewrite Hf; left; done).
      apply filter_In in Hz as [Hz _]. rewrite Forall_forall in Hall.
      apply list_elem_of_In in Hz. specialize (Hall z Hz). simpl in Hall.
      destruct (Z.ltb_spec (key y) (key z)); [lia|done].
  - destruct (Z.ltb_spec (key y) (key x)); [|lia].
    assert (Hnone : List.filter (fun y0 => key x <=? key y0) l = []).
    { clear -Hall Hlt. induction l as [|z l IH]; simpl; [done|].
      inversion Hall; subst.
      destruct (Z.leb_spec (key x) (key z)); [lia|]. by apply IH. }
    assert (Hall' : List.filter (fun y0 => key y0 <? key x) l = l).
    { clear -Hall Hlt. induction l as [|z l IH]; simpl; [done|].
      inversion Hall; subst.
      destruct (Z.ltb_spec (key z) (key x)); [|lia]. f_equal. by apply IH. }
    rewrite Hnone, Hall'. simpl.
    destruct (Z.ltb_spec (key y) (key x)); [|lia]. f_equal.
    destruct l as [|z l']; simpl; [done|].
    inversion Hall; subst.
    destruct (Z.ltb_spec (key y) (key z)); [lia|done].
Qed.

(** X2. On a group whose values are in descending order, [add_value]
    places the new value behind the values with at least as many points
    and in front of the values with fewer, and moves no other value:
    among values of equal points the one added first stays first, and is
    the one [retrieve_value] meets first. *)
Theorem add_value_position (g : PlayerValueGroup.t) (points : Z)
    (note : string) (start_time end_time : option date) :
  values_sorted g ->
  PlayerValueGroup.values
    (PlayerValueGroup.add_value g points note start_time end_time)
  = (List.filter (fun v => points <=? PlayerValue.points v)
       (PlayerValueGroup.values g)
     ++ new_value g points note start_time end_time
        :: List.filter (fun v => PlayerValue.points v <? points)
             (PlayerValueGroup.values g))%list.
Proof.
  intros Hsorted. simpl.
  exact (sort_reverse_by_snoc PlayerValue.points (PlayerValueGroup.values g)
           (new_value g points note start_time end_time) Hsorted).
Qed.

Lemma add_value_position_witness :
  values_sorted Samples2.alice_group
  /\ PlayerValue.note
       <$> PlayerValueGroup.values
             (PlayerValueGroup.add_value Samples2.alice_group 150 "later"
                None None)
     = ["major"; "later"; "season"].
Proof.
  assert (Hs : values_sorted Samples2.alice_group).
  { unfold values_sorted. simpl. repeat constructor; simpl; lia. }
  split; [exact Hs|].
  rewrite (add_value_position Samples2.alice_group 150 "later" None None Hs).
  reflexivity.
Defined.

(** ** The global tag set *)

Section TagIndex.
Variable lower : string -> string.
Variable strip : string -> string.

Lemma tags_fold_elem (alts : list string) (tags : gset string) (x : string) :
  x ∈ fold_left (fun tags tag => {[ lower tag ]} ∪ tags) alts tags
  <-> x ∈ tags \/ exists a, a ∈ alts /\ x = lower a.
Proof.
  revert tags. induction alts as [|a rest IH]; intros tags; simpl.
  - split; [by left|]. intros [H|(a & Hin & _)]; [done|].
    by apply not_elem_of_nil in Hin.
  - rewrite IH, elem_of_union, elem_of_singleton. split.
    + intros [[->|H]|(a' & Hin & ->)].
      * right. exists a. split; [left|done].
      * by left.
      * right. exists a'. split; [by right|done].
    + intros [H|(a' & Hin & ->)]; [left; by right|].
      apply elem_of_cons in Hin as [->|Hin]; [left; by left|].
      right. by exists a'.
Qed.

Lemma tags_step_covered acc row :
  alt_tags_covered lower acc.1 acc.2 ->
  alt_tags_covered lower (tags_step lower acc row).1
    (tags_step lower acc row).2.
Proof.
  destruct acc as [alt_tags tags]. unfold tags_step. simpl. intros Hcov.
  destruct (negb _); [|done]. simpl.
  intros key alts a. rewrite dict_get_set, tags_fold_elem.
  destruct (decide (key = row.1)) as [->|Hne].
  - intros [= <-] Hin. right. by exists a.
  - intros Hget Hin. left. by eapply Hcov.
Qed.

Lemma players_step_covered alt_tags acc row :
  alt_tags_covered lower alt_tags acc.2 ->
  groups_covered lower acc.1 acc.2 ->
  alt_tags_covered lower alt_tags
    (players_step lower strip alt_tags acc row).2
  /\ groups_covered lower (players_step lower strip alt_tags acc row).1
       (players_step lower strip alt_tags acc row).2.
Proof.
  destruct acc as [players tags]. unfold players_step. simpl.
  intros Halt Hgroups.
  destruct (String.eqb (strip (row_player row)) ""); [done|]. simpl. split.
  - intros key alts a Hget Hin. apply elem_of_union. right.
    by eapply Halt.
  - intros g Hin. apply dict_values_set_elem in Hin as [->|Hin].
    + simpl.
      destruct (dict_get (row_ident _ _) players) as [g0|] eqn:Hget; simpl.
      * apply dict_get_Some_values in Hget.
        destruct (Hgroups g0 Hget) as [Htag Hothers].
        split; [apply elem_of_union; by right|].
        intros o Ho. apply elem_of_union. right. by apply Hothers.
      * split; [apply elem_of_union; left; by apply elem_of_singleton|].
        intros o Ho. apply list_elem_of_fmap in Ho as (a & -> & Ha).
        apply elem_of_union. right.
        destruct (dict_get (row_player row) alt_tags) as [alts|] eqn:Halts;
          simpl in Ha; [by eapply Halt|by apply not_elem_of_nil in Ha].
    + destruct (Hgroups g Hin) as [Htag Hothers].
      split; [apply elem_of_union; by right|].
      intros o Ho. apply elem_of_union. right. by apply Hothers.
Qed.

Lemma invit_step_covered players tags row :
  groups_covered lower players tags ->
  groups_covered lower (invit_step players row) tags.
Proof.
  unfold invit_step. intros Hgroups.
  destruct (dict_get _ players) as [g0|] eqn:Hget; [|done].
  intros g Hin. apply dict_values_set_elem in Hin as [->|Hin];
    [|by apply Hgroups].
  apply dict_get_Some_values in Hget. by apply (Hgroups g0).
Qed.

Lemma read_players_covered tag_rows player_rows invit_rows :
  groups_covered lower
    (read_players lower strip tag_rows player_rows invit_rows).1
    (read_players lower strip tag_rows player_rows invit_rows).2.
Proof.
  unfold read_players.
  assert (Htags : forall rows acc,
            alt_tags_covered lower acc.1 acc.2 ->
            alt_tags_covered lower
              (fold_left (tags_step lower) rows acc).1
              (fold_left (tags_step lower) rows acc).2).
  { induction rows as [|row rest IH]; intros acc Hacc; simpl; [done|].
    apply IH. by apply tags_step_covered. }
  specialize (Htags (default [] tag_rows) ([], ∅)).
  destruct (fold_left (tags_step lower) _ _) as [alt_tags tags].
  simpl in Htags.
  assert (Hplayers : forall rows acc,
            alt_tags_covered lower alt_tags acc.2 ->
            groups_covered lower acc.1 acc.2 ->
            groups_covered lower
              (fold_left (players_step lower strip alt_tags) rows acc).1
              (fold_left (players_step lower strip alt_tags) rows acc).2).
  { induction rows as [|row rest IH]; intros acc Halt Hacc; simpl; [done|].
    destruct (players_step_covered alt_tags acc row Halt Hacc).
    by apply IH. }
  specialize (Hplayers player_rows ([], tags)).
  destruct (fold_left (players_step lower strip alt_tags) _ _)
    as [players tags'].
  simpl in *.
  assert (Hinvit : forall rows players0,
            groups_covered lower players0 tags' ->
            groups_covered lower (fold_left invit_step rows players0) tags').
  { induction rows as [|row rest IH]; intros players0 H0; simpl; [done|].
    apply IH. by apply invit_step_covered. }
  apply Hinvit, Hplayers.
  - apply Htags. intros key alts a Hget. done.
  - intros g Hin. by apply not_elem_of_nil in Hin.
Qed.

(** X3. The global tag set is a sound first test for the tag fallback:
    whenever [match_tag] accepts a tag for a group of the registry that
    [read_players] returns, the lowercased tag is in the tag set returned
    with it. *)
Theorem scored_tags_cover_match_tag tag_rows player_rows invit_rows
    (g : PlayerValueGroup.t) (tag : string) :
  g ∈ dict_values (read_players lower strip tag_rows player_rows invit_rows).1 ->
  PlayerValueGroup.match_tag lower g tag = true ->
  lower tag ∈ (read_players lower strip tag_rows player_rows invit_rows).2.
Proof.
  intros Hin Hmatch.
  destruct (read_players_covered tag_rows player_rows invit_rows g Hin)
    as [Htag Hothers].
  unfold PlayerValueGroup.match_tag in Hmatch.
  apply orb_true_iff in Hmatch as [Heq|Hother].
  - apply String.eqb_eq in Heq. by rewrite Heq.
  - apply existsb_exists in Hother as (o & Ho & Heq).
    apply String.eqb_eq in Heq. rewrite Heq.
    apply Hothers. by apply list_elem_of_In.
Qed.
End TagIndex.

Lemma scored_tags_cover_match_tag_witness :
  exists g,
    g ∈ dict_values (Samples.registry_tags).1
    /\ PlayerValueGroup.match_tag ascii_lower g "ZED" = true
    /\ ascii_lower "ZED" ∈ (Samples.registry_tags).2.
Proof.
  assert (Hget : exists g,
            dict_get (IdNum 9) (Samples.registry_tags).1 = Some g
            /\ PlayerValueGroup.match_tag ascii_lower g "ZED" = true).
  { eexists. split; [vm_compute; reflexivity|reflexivity]. }
  destruct Hget as (g & Hget & Hmatch).
  exists g. apply dict_get_Some_values in Hget.
  split; [exact Hget|]. split; [exact Hmatch|].
  exact (scored_tags_cover_match_tag ascii_lower Samples.strip None _ []
           g "ZED" Hget Hmatch).
Defined.

(** ** The entrant/DQ reconciler *)

Lemma set_add_elem {A : Type} `{EqDecision A} (x y : A) (s : list A) :
  x ∈ set_add y s <-> x = y \/ x ∈ s.
Proof.
  unfold set_add. destruct (bool_decide (y ∈ s)) eqn:Hin.
  - apply bool_decide_eq_true in Hin. split; [by right|].
    by intros [->|H].
  - rewrite elem_of_app, list_elem_of_singleton. tauto.
Qed.

Lemma set_add_NoDup {A : Type} `{EqDecision A} (y : A) (s : list A) :
  NoDup s -> NoDup (set_add y s).
Proof.
  intros Hnd. unfold set_add. destruct (bool_decide (y ∈ s)) eqn:Hin; [done|].
  apply bool_decide_eq_false in Hin.
  apply NoDup_app. split; [done|]. split; [|apply NoDup_singleton].
  intros x Hx Hx'. apply list_elem_of_singleton in Hx' as ->. done.
Qed.

Lemma set_add_fold_elem {A : Type} `{EqDecision A} (nodes s : list A) (x : A) :
  x ∈ fold_left (fun participants player_data =>
                   set_add player_data participants) nodes s
  <-> x ∈ s \/ x ∈ nodes.
Proof.
  revert s. induction nodes as [|y rest IH]; intros s; simpl.
  - split; [by left|]. intros [H|H]; [done|by apply not_elem_of_nil in H].
  - rewrite IH, set_add_elem, elem_of_cons. tauto.
Qed.

Lemma set_add_fold_NoDup {A : Type} `{EqDecision A} (nodes s : list A) :
  NoDup s ->
  NoDup (fold_left (fun participants player_data =>
                      set_add player_data participants) nodes s).
Proof.
  revert s. induction nodes as [|y rest IH]; intros s Hnd; simpl; [done|].
  by apply IH, set_add_NoDup.
Qed.

Lemma get_entrants_set_NoDup (c : Collaborators) :
  match get_entrants c with
  | inl _ => True
  | inr participants => NoDup participants
  end.
Proof.
  unfold get_entrants. destruct (resp_entrants c) as [e|nodes]; simpl; [done|].
  apply set_add_fold_NoDup. constructor.
Qed.

(** X4. [get_entrants] turns the roster into a set: it fails exactly
    when the roster query fails, with the same exception, and otherwise
    returns the entrants of the roster without repetition, an entrant
    being its (player id, tag) pair. *)
Theorem get_entrants_set (c : Collaborators) :
  match get_entrants c with
  | inl e => resp_entrants c = inl e
  | inr participants =>
      NoDup participants
      /\ exists nodes,
           resp_entrants c = inr nodes
           /\ forall x, x ∈ participants <-> x ∈ nodes
  end.
Proof.
  unfold get_entrants. destruct (resp_entrants c) as [e|nodes]; simpl; [done|].
  split; [apply set_add_fold_NoDup; constructor|].
  exists nodes. split; [done|]. intros x. rewrite set_add_fold_elem.
  split; [|by right]. intros [H|H]; [by apply not_elem_of_nil in H|done].
Qed.

Lemma get_dqs_fold_raised (sets : list SetData) (e : exn) :
  fold_left get_dqs_step sets (inl e) = inl e.
Proof. induction sets as [|s rest IH]; simpl; [done|exact IH]. Qed.

(** One set, by its kind. *)
Lemma get_dqs_step_cases dq0 ps0 (s : SetData) dq1 ps1 :
  get_dqs_step (inr (dq0, ps0)) s = inr (dq1, ps1) ->
  (is_dq_set s = false /\ is_played_set s = false /\ dq1 = dq0 /\ ps1 = ps0)
  \/ (is_dq_set s = true /\ is_played_set s = false /\ ps1 = ps0
      /\ exists w,
           set_winnerId s = Some w
           /\ dq1 = record_dq dq0
                      (Entrant.id_ (slot_player (set_loser_slot s w)))
                      (slot_player (set_loser_slot s w)))
  \/ (is_dq_set s = false /\ is_played_set s = true /\ dq1 = dq0
      /\ ps1 = set_add (slot_player (set_slot1 s))
                 (set_add (slot_player (set_slot0 s)) ps0)).
Proof.
  unfold get_dqs_step, is_dq_set, is_played_set, set_loser_slot. simpl.
  destruct (set_winnerId s) as [w|]; [|intros [= <- <-]; by left].
  destruct (w =? slot_entrant_id (set_slot0 s)) eqn:Hw;
    destruct (slot_standing (set_slot0 s)) as [[s0|]|],
             (slot_standing (set_slot1 s)) as [[s1|]|];
    try done; repeat case_bool_decide; intros [= <- <-]; simpl;
    try congruence;
    first [ by left
          | right; left; do 3 (split; [done|]); exists w; split; [done|];
            by rewrite Hw
          | right; right; done ].
Qed.

Section GetDqsInvariant.
(** An invariant [I dq_list participants sets] of the loop of [get_dqs],
    [sets] being the sets consumed so far. *)
Variable I : dict ident (Entrant.t * Z) -> list Entrant.t -> list SetData -> Prop.
Hypothesis I_step :
  forall dq0 ps0 done s dq1 ps1,
    I dq0 ps0 done ->
    get_dqs_step (inr (dq0, ps0)) s = inr (dq1, ps1) ->
    I dq1 ps1 (done ++ [s]).

Lemma get_dqs_fold_invariant (sets done : list SetData) dq0 ps0 dq ps :
  I dq0 ps0 done ->
  fold_left get_dqs_step sets (inr (dq0, ps0)) = inr (dq, ps) ->
  I dq ps (done ++ sets).
Proof.
  revert done dq0 ps0. induction sets as [|s rest IH]; intros done dq0 ps0 H0.
  - simpl. intros [= <- <-]. by rewrite app_nil_r.
  - cbn [fold_left].
    destruct (get_dqs_step (inr (dq0, ps0)) s) as [e|[dq1 ps1]] eqn:Hstep.
    + by rewrite get_dqs_fold_raised.
    + intros Hfold.
      replace (done ++ s :: rest)%list with ((done ++ [s]) ++ rest)%list
        by (by rewrite <- app_assoc).
      eapply IH; [|exact Hfold]. by eapply I_step.
Qed.
End GetDqsInvariant.

Lemma record_dq_counts (dq_list : dict ident (Entrant.t * Z))
    (player_id : ident) (loser : Entrant.t) :
  Zsum (map (fun kv => kv.2.2) (record_dq dq_list player_id loser))
  = Zsum (map (fun kv => kv.2.2) dq_list) + 1.
Proof.
  unfold record_dq. induction dq_list as [|[k0 [e0 n0]] rest IH]; simpl; [lia|].
  destruct (decide (player_id = k0)) as [->|Hne]; simpl.
  - destruct (decide (k0 = k0)); [|done]. simpl. lia.
  - destruct (dict_get player_id rest) as [[e n]|] eqn:Hget; simpl in *;
      destruct (decide (player_id = k0)); try done; simpl; lia.
Qed.

(** X5. Whenever [get_dqs] returns, the DQ map has distinct player ids
    as keys, stores under each id an entrant with that id and a count of
    at least 1, and the participant set has no repetition. *)
Theorem get_dqs_shape (c : Collaborators) (phase_ids : list Z)
    (dq_list : dict ident (Entrant.t * Z)) (participants : list Entrant.t) :
  get_dqs c phase_ids = inr (dq_list, participants) ->
  dq_list_wf dq_list /\ NoDup participants.
Proof.
  intros Hdqs. split; [by eapply get_dqs_wf|].
  revert Hdqs. unfold get_dqs.
  destruct (get_sets_in_phases c phase_ids) as [e|sets]; simpl; [done|].
  intros Hfold.
  apply (get_dqs_fold_invariant (fun _ ps _ => NoDup ps)) with (done := [])
    in Hfold; [done| |constructor].
  intros dq0 ps0 done s dq1 ps1 Hnd Hstep.
  apply get_dqs_step_cases in Hstep
    as [(_ & _ & _ & ->)|[(_ & _ & -> & _)|(_ & _ & _ & ->)]]; try done.
  by do 2 apply set_add_NoDup.
Qed.

(** X6. Whenever [get_dqs] returns, the DQ counts add up to the number
    of sets counted as disqualifications, and the participants are
    exactly the two players of each set counted as played; a set without
    a winner contributes to neither. *)
Theorem get_dqs_accounting (c : Collaborators) (phase_ids : list Z)
    (sets : list SetData) (dq_list : dict ident (Entrant.t * Z))
    (participants : list Entrant.t) :
  get_sets_in_phases c phase_ids = inr sets ->
  get_dqs c phase_ids = inr (dq_list, participants) ->
  Zsum (map (fun kv => kv.2.2) dq_list)
  = Z.of_nat (length (List.filter is_dq_set sets))
  /\ forall x,
       x ∈ participants
       <-> exists s,
             s ∈ sets /\ is_played_set s = true
             /\ (x = slot_player (set_slot0 s) \/ x = slot_player (set_slot1 s)).
Proof.
  intros Hsets. unfold get_dqs. rewrite Hsets. simpl. intros Hfold.
  apply (get_dqs_fold_invariant
           (fun dq ps done =>
              Zsum (map (fun kv => kv.2.2) dq)
              = Z.of_nat (length (List.filter is_dq_set done))
              /\ forall x,
                   x ∈ ps
                   <-> exists s,
                         s ∈ done /\ is_played_set s = true
                         /\ (x = slot_player (set_slot0 s)
                             \/ x = slot_player (set_slot1 s))))
    with (done := []) in Hfold; [done| |].
  - intros dq0 ps0 done s dq1 ps1 [Hsum Hps] Hstep.
    rewrite List.filter_app, length_app. simpl.
    apply get_dqs_step_cases in Hstep
      as [(Hdq & Hpl & -> & ->)
         |[(Hdq & Hpl & -> & w & Hw & ->)|(Hdq & Hpl & -> & ->)]];
      rewrite Hdq; simpl.
    + split; [lia|]. intros x. rewrite Hps. split.
      * intros (s' & Hin & H). exists s'. split; [|done].
        apply elem_of_app. by left.
      * intros (s' & Hin & Hp & H). apply elem_of_app in Hin as [Hin|Hin].
        -- by exists s'.
        -- apply list_elem_of_singleton in Hin as ->. congruence.
    + split; [rewrite record_dq_counts; lia|]. intros x. rewrite Hps. split.
      * intros (s' & Hin & H). exists s'. split; [|done].
        apply elem_of_app. by left.
      * intros (s' & Hin & Hp & H). apply elem_of_app in Hin as [Hin|Hin].
        -- by exists s'.
        -- apply list_elem_of_singleton in Hin as ->. congruence.
    + split; [lia|]. intros x. rewrite !set_add_elem, Hps. split.
      * intros [->|[->|(s' & Hin & H)]].
        -- exists s. split; [apply elem_of_app; right; left|]. by split; [|right].
        -- exists s. split; [apply elem_of_app; right; left|]. by split; [|left].
        -- exists s'. split; [|done]. apply elem_of_app. by left.
      * intros (s' & Hin & Hp & H). apply elem_of_app in Hin as [Hin|Hin].
        -- right. right. by exists s'.
        -- apply list_elem_of_singleton in Hin as ->. tauto.
  - split; [done|]. intros x. split; [by intros H%not_elem_of_nil|].
    intros (s & Hin & _). by apply not_elem_of_nil in Hin.
Qed.

Lemma get_dqs_shape_witness :
  get_dqs (Samples.source Samples.geo_ok) [10]
  = inr ([(IdNum 3, (Samples.zed, 1))], [Samples.alice; Samples.bob])
  /\ dq_list_wf [(IdNum 3, (Samples.zed, 1))]
  /\ NoDup [Samples.alice; Samples.bob].
Proof.
  assert (H : get_dqs (Samples.source Samples.geo_ok) [10]
              = inr ([(IdNum 3, (Samples.zed, 1))],
                     [Samples.alice; Samples.bob])) by reflexivity.
  split; [exact H|].
  exact (get_dqs_shape (Samples.source Samples.geo_ok) [10] _ _ H).
Defined.

Lemma get_dqs_accounting_witness :
  get_dqs (Samples.source Samples.geo_ok) [10]
  = inr ([(IdNum 3, (Samples.zed, 1))], [Samples.alice; Samples.bob])
  /\ Zsum (map (fun kv : ident * (Entrant.t * Z) => kv.2.2)
             [(IdNum 3, (Samples.zed, 1))])
     = Z.of_nat
         (length
            (List.filter is_dq_set
               [Samples.played (101, Samples.alice) (102, Samples.bob) 0;
                Samples.played (101, Samples.alice) (103, Samples.zed) (-1)])).
Proof.
  assert (H : get_dqs (Samples.source Samples.geo_ok) [10]
              = inr ([(IdNum 3, (Samples.zed, 1))],
                     [Samples.alice; Samples.bob])) by reflexivity.
  split; [exact H|].
  exact (proj1 (get_dqs_accounting (Samples.source Samples.geo_ok) [10]
                  _ _ _ eq_refl H)).
Defined.

(** X7. Every constructed tournament has a participant set without
    repetition, a DQ map with distinct ids each holding an entrant of
    that id, and an entrant count equal to the number of participants
    plus the number of disqualified ids that are no participant's id: a
    player who both played and was disqualified is counted once. *)
Theorem init_entrant_counts (c : Collaborators) (event_slug : string)
    (is_invitational location : bool) (t : Tournament.t) :
  Tournament.init c event_slug is_invitational location = inr t ->
  NoDup (Tournament.participants t)
  /\ dq_list_wf (Tournament.dq_list t)
  /\ Tournament.total_entrants t
     = Z.of_nat (length (Tournament.participants t))
       + Z.of_nat
           (length
              (List.filter
                 (fun player_id =>
                    negb (bool_decide
                            (player_id
                               ∈ map Entrant.id_ (Tournament.participants t))))
                 (dict_keys (Tournament.dq_list t)))).
Proof.
  unfold Tournament.init.
  destruct (slug_regex_search c event_slug) as [slug|]; [|done].
  destruct (Tournament.gather_entrant_counts c) as [e|counts] eqn:Hcounts;
    simpl; [done|].
  destruct (if location then _ else _) as [e|address_]; simpl; [done|].
  destruct (Tournament.retrieve_start_time c) as [e|start_time_]; simpl;
    [done|].
  intros [= <-]. simpl.
  revert Hcounts. unfold Tournament.gather_entrant_counts.
  destruct (check_phase_completed c) as [e|[|]]; simpl; [done| |].
  - destruct (collect_phases c) as [e|phases_]; simpl; [done|].
    destruct (get_dqs c _) as [e|[dq_list_ participants_]] eqn:Hdqs; simpl;
      [done|].
    intros [= <-]. simpl.
    destruct (get_dqs_wf _ _ _ _ Hdqs) as [Hnd Hall].
    split; [|split; [by split|by rewrite count_dqs_spec]].
    revert Hdqs. unfold get_dqs.
    destruct (get_sets_in_phases c _) as [e|sets]; simpl; [done|].
    intros Hfold.
    apply (get_dqs_fold_invariant (fun _ ps _ => NoDup ps)) with (done := [])
      in Hfold; [done| |constructor].
    intros dq0 ps0 done s dq1 ps1 Hnd0 Hstep.
    apply get_dqs_step_cases in Hstep
      as [(_ & _ & _ & ->)|[(_ & _ & -> & _)|(_ & _ & _ & ->)]]; try done.
    by do 2 apply set_add_NoDup.
  - pose proof (get_entrants_set_NoDup c) as Hent.
    destruct (get_entrants c) as [e|participants_]; simpl; [done|].
    intros [= <-]. simpl. split; [done|]. split; [|lia].
    split; constructor.
Qed.

Lemma init_entrant_counts_witness :
  Tournament.init (Samples.source Samples.geo_ok) Samples.slug false true
  = inr Samples.tournament
  /\ NoDup (Tournament.participants Samples.tournament)
  /\ dq_list_wf (Tournament.dq_list Samples.tournament).
Proof.
  assert (H : Tournament.init (Samples.source Samples.geo_ok) Samples.slug
                false true = inr Samples.tournament)
    by (vm_compute; reflexivity).
  split; [exact H|].
  destruct (init_entrant_counts (Samples.source Samples.geo_ok) Samples.slug
              false true Samples.tournament H) as (H1 & H2 & _).
  split; [exact H1|exact H2].
Defined.

(** ** Construction and caching *)

Lemma reverse_loop_first_success (geo : nat -> exn + gmap string string)
    (remaining i0 : nat) (a : gmap string string) :
  Tournament.reverse_loop geo i0 remaining = Some a
  <-> exists i,
        (i0 <= i < i0 + remaining)%nat
        /\ geo i = inr a
        /\ forall j, (i0 <= j < i)%nat -> exists e, geo j = inl e.
Proof.
  revert i0. induction remaining as [|n IH]; intros i0; simpl.
  - split; [done|]. intros (i & Hi & _). lia.
  - destruct (geo i0) as [e|a0] eqn:Hgeo.
    + rewrite IH. split.
      * intros (i & Hi & Ha & Hfail). exists i. split; [lia|]. split; [done|].
        intros j Hj. destruct (decide (j = i0)) as [->|]; [by exists e|].
        apply Hfail. lia.
      * intros (i & Hi & Ha & Hfail). exists i.
        assert (i <> i0) by (intros ->; congruence).
        split; [lia|]. split; [done|]. intros j Hj. apply Hfail. lia.
    + split.
      * intros [= ->]. exists i0. split; [lia|]. split; [done|].
        intros j Hj. lia.
      * intros (i & Hi & Ha & Hfail).
        destruct (decide (i = i0)) as [->|]; [congruence|].
        destruct (Hfail i0) as [e He]; [lia|congruence].
Qed.

Lemma reverse_loop_none (geo : nat -> exn + gmap string string)
    (remaining i0 : nat) :
  Tournament.reverse_loop geo i0 remaining = None
  <-> forall j, (i0 <= j < i0 + remaining)%nat -> exists e, geo j = inl e.
Proof.
  revert i0. induction remaining as [|n IH]; intros i0; simpl.
  - split; [|done]. intros _ j Hj. lia.
  - destruct (geo i0) as [e|a0] eqn:Hgeo.
    + rewrite IH. split.
      * intros Hfail j Hj.
        destruct (decide (j = i0)) as [->|]; [by exists e|].
        apply Hfail. lia.
      * intros Hfail j Hj. apply Hfail. lia.
    + split; [done|]. intros Hfail.
      destruct (Hfail i0) as [e He]; [lia|congruence].
Qed.

Lemma gather_location_info_eq (c : Collaborators) :
  Tournament.gather_location_info c
  = match resp_location c with
    | inl e => inl e
    | inr _ => inr (Tournament.reverse_loop (geo_reverse c) 0 5)
    end.
Proof.
  unfold Tournament.gather_location_info. by destruct (resp_location c).
Qed.

(** X8. [gather_location_info] raises only what the coordinates query
    raises.  Otherwise it yields the address of the first geocoder call
    that succeeds among at most five calls, every earlier call having
    failed; when all five fail it yields no address and no exception. *)
Theorem gather_location_info_first_success (c : Collaborators) :
  (forall e,
     Tournament.gather_location_info c = inl e <-> resp_location c = inl e)
  /\ (forall a,
        Tournament.gather_location_info c = inr (Some a)
        <-> (exists xy, resp_location c = inr xy)
            /\ exists i,
                 (i < 5)%nat
                 /\ geo_reverse c i = inr a
                 /\ forall j, (j < i)%nat -> exists e, geo_reverse c j = inl e)
  /\ (Tournament.gather_location_info c = inr None
      <-> (exists xy, resp_location c = inr xy)
          /\ forall j, (j < 5)%nat -> exists e, geo_reverse c j = inl e).
Proof.
  rewrite gather_location_info_eq.
  destruct (resp_location c) as [e0|xy].
  - split; [intros e; split; congruence|].
    split; [intros a|]; (split; [done|]); by intros [[xy ?] _].
  - split; [intros e; split; congruence|]. split.
    + intros a. split.
      * intros H.
        assert (Hloop : Tournament.reverse_loop (geo_reverse c) 0 5 = Some a)
          by congruence.
        clear H. split; [by exists xy|].
        apply reverse_loop_first_success in Hloop as (i & Hi & Ha & Hfail).
        exists i. split; [lia|]. split; [done|]. intros j Hj.
        apply Hfail. lia.
      * intros [_ (i & Hi & Ha & Hfail)]. f_equal.
        apply reverse_loop_first_success. exists i. split; [lia|].
        split; [done|]. intros j Hj. apply Hfail. lia.
    + split.
      * intros H.
        assert (Hloop : Tournament.reverse_loop (geo_reverse c) 0 5 = None)
          by congruence.
        clear H. split; [by exists xy|]. intros j Hj.
        eapply reverse_loop_none; [exact Hloop|lia].
      * intros [_ Hfail]. f_equal. apply reverse_loop_none.
        intros j Hj. apply Hfail. lia.
Qed.

(** X9. [__init__] raises [InvalidEventUrlException] exactly when the
    slug pattern is not found, and otherwise the exception of the first
    step that fails among the entrant counts, the coordinates query
    (asked only with [location]) and the start time; a geocoder failure
    never makes it raise.  It returns a tournament exactly when none of
    these steps fails. *)
Theorem init_failure (c : Collaborators) (event_slug : string)
    (is_invitational location : bool) :
  (forall e,
     Tournament.init c event_slug is_invitational location = inl e
     <-> (slug_regex_search c event_slug = None
          /\ e = InvalidEventUrlException)
         \/ (exists slug, slug_regex_search c event_slug = Some slug)
            /\ (Tournament.gather_entrant_counts c = inl e
                \/ (exists counts,
                      Tournament.gather_entrant_counts c = inr counts)
                   /\ ((location = true /\ resp_location c = inl e)
                       \/ (location = true -> exists xy,
                             resp_location c = inr xy)
                          /\ resp_start_at c = inl e)))
  /\ ((exists t,
         Tournament.init c event_slug is_invitational location = inr t)
      <-> (exists slug, slug_regex_search c event_slug = Some slug)
          /\ (exists counts, Tournament.gather_entrant_counts c = inr counts)
          /\ (location = true -> exists xy, resp_location c = inr xy)
          /\ exists start_time, resp_start_at c = inr start_time).
Proof.
  unfold Tournament.init, Tournament.gather_location_info,
    Tournament.retrieve_start_time.
  destruct (slug_regex_search c event_slug) as [slug|].
  2:{ split.
      - intros e. split.
        + intros [= <-]. by left.
        + intros [[_ ->]|[[? ?] _]]; done.
      - split; [by intros [? ?]|]. by intros [[? ?] _]. }
  destruct (Tournament.gather_entrant_counts c) as [e0|counts]; simpl.
  { split.
    - intros e. split.
      + intros [= <-]. right. split; [by exists slug|]. by left.
      + intros [[? _]|[_ [[= ->]|[[? ?] _]]]]; done.
    - split; [by intros [? ?]|]. by intros (_ & [? ?] & _). }
  destruct location; simpl.
  - destruct (resp_location c) as [e1|xy]; simpl.
    + split.
      * intros e. split.
        -- intros [= <-]. right. split; [by exists slug|]. right.
           split; [by exists counts|]. by left.
        -- intros [[? _]|[_ [?|[_ [[_ [= ->]]|[Hloc _]]]]]]; try done.
           by destruct (Hloc eq_refl).
      * split; [by intros [? ?]|]. intros (_ & _ & Hloc & _).
        by destruct (Hloc eq_refl).
    + destruct (resp_start_at c) as [e2|start_time]; simpl.
      * split.
        -- intros e. split.
           ++ intros [= <-]. right. split; [by exists slug|]. right.
              split; [by exists counts|]. right. split; [|done].
              intros _. by exists xy.
           ++ intros [[? _]|[_ [?|[_ [[_ ?]|[_ [= ->]]]]]]]; done.
        -- split; [by intros [? ?]|]. by intros (_ & _ & _ & [? ?]).
      * split.
        -- intros e. split; [done|].
           intros [[? _]|[_ [?|[_ [[_ ?]|[_ ?]]]]]]; done.
        -- split; [|by eexists]. intros _.
           split; [by exists slug|]. split; [by exists counts|].
           split; [intros _; by exists xy|by exists start_time].
  - destruct (resp_start_at c) as [e2|start_time]; simpl.
    + split.
      * intros e. split.
        -- intros [= <-]. right. split; [by exists slug|]. right.
           split; [by exists counts|]. right. done.
        -- intros [[? _]|[_ [?|[_ [[? _]|[_ [= ->]]]]]]]; done.
      * split; [by intros [? ?]|]. by intros (_ & _ & _ & [? ?]).
    + split.
      * intros e. split; [done|].
        intros [[? _]|[_ [?|[_ [[? _]|[_ ?]]]]]]; done.
      * split; [|by eexists]. intros _.
        split; [by exists slug|]. split; [by exists counts|].
        split; [done|by exists start_time].
Qed.

(** X10. [calculate_tier] computes at most once: after a call that
    returned a result, every later call on the tournament returns that
    result and leaves the tournament as it is, whatever the reference
    data and the data source have become; a call that raised leaves the
    tournament unchanged, so the next call computes again. *)
Theorem calculate_tier_at_most_once lower scored_players scored_tags
    region_mults (c : Collaborators) (self : Tournament.t) :
  (forall res lower' scored_players' scored_tags' region_mults' c',
     (Tournament.calculate_tier lower scored_players scored_tags region_mults
        c self).1 = inr res ->
     Tournament.calculate_tier lower' scored_players' scored_tags'
       region_mults' c'
       (Tournament.calculate_tier lower scored_players scored_tags
          region_mults c self).2
     = (inr res,
        (Tournament.calculate_tier lower scored_players scored_tags
           region_mults c self).2))
  /\ (forall e,
        (Tournament.calculate_tier lower scored_players scored_tags
           region_mults c self).1 = inl e ->
        (Tournament.calculate_tier lower scored_players scored_tags
           region_mults c self).2 = self).
Proof.
  unfold Tournament.calculate_tier.
  destruct (Tournament.tier self) as [cached|] eqn:Htier; simpl.
  - split; [|done]. intros res ? ? ? ? ? [= <-]. by rewrite Htier.
  - destruct (Tournament.compute_tier _ _ _ _ c self) as [e|r]; simpl.
    + split; [done|]. done.
    + split; [|done]. by intros res ? ? ? ? ? [= <-].
Qed.

(** ** Region rules *)

Ltac match_cases :=
  repeat match goal with
    | |- context [String.eqb ?a ?b] => destruct (String.eqb_spec a b)
    end;
  simpl.

(** X11. The specificity [match] returns is between 0 and 8 (at most 6
    for a rule outside [jp]); it is 0 exactly for a rule with a country
    code other than the address's and 1 exactly for the fallback rule,
    so every rule whose country is the address's outranks the fallback
    rule. *)
Theorem match_range (self : RegionValue.t) (address : gmap string string) :
  0 <= RegionValue.match_ self address <= 8
  /\ (RegionValue.country_code self <> "jp" ->
      RegionValue.match_ self address <= 6)
  /\ (RegionValue.match_ self address = 0
      <-> RegionValue.country_code self <> ""
          /\ RegionValue.get address "country_code" ""
             <> RegionValue.country_code self)
  /\ (RegionValue.match_ self address = 1
      <-> RegionValue.country_code self = "")
  /\ (forall fallback,
        RegionValue.country_code fallback = "" ->
        RegionValue.country_code self <> "" ->
        RegionValue.get address "country_code" ""
        = RegionValue.country_code self ->
        RegionValue.match_ fallback address
        < RegionValue.match_ self address).
Proof.
  split; [|split; [|split; [|split]]].
  - unfold RegionValue.match_. match_cases; lia.
  - intros Hjp. unfold RegionValue.match_. match_cases; try done; lia.
  - unfold RegionValue.match_.
    destruct (String.eqb_spec (RegionValue.country_code self) "") as [?|Hcc];
      [split; [lia|by intros [? _]]|].
    destruct (String.eqb_spec (RegionValue.get address "country_code" "")
                (RegionValue.country_code self)) as [Heq|Hne];
      [|by split].
    split; [|by intros [_ ?]]. match_cases; lia.
  - unfold RegionValue.match_.
    destruct (String.eqb_spec (RegionValue.country_code self) "") as [?|Hcc];
      [by split|].
    split; [|done]. match_cases; lia.
  - intros fallback Hfb Hcc Heq. rewrite (match_fallback fallback address Hfb).
    unfold RegionValue.match_. rewrite Heq, String.eqb_refl.
    destruct (String.eqb_spec (RegionValue.country_code self) "") as [?|_];
      [done|].
    match_cases; lia.
Qed.

(** X12. Of two rules for the address's country with the same postal
    prefix requirement, one with a subdivision requirement and one
    without: when the address is in the required subdivision the first
    outranks the second, whatever county or city it names (also one that
    is not the address's); when it is not, the second outranks the
    first. *)
Theorem match_subdivision_against_wildcard (r_sub r_wild : RegionValue.t)
    (address : gmap string string) :
  RegionValue.country_code r_sub <> "" ->
  RegionValue.get address "country_code" "" = RegionValue.country_code r_sub ->
  RegionValue.country_code r_wild = RegionValue.country_code r_sub ->
  RegionValue.jp_postal r_wild = RegionValue.jp_postal r_sub ->
  RegionValue.iso2 r_wild = "" ->
  RegionValue.iso2 r_sub <> "" ->
  (subdivision_matches r_sub address = true ->
   RegionValue.match_ r_wild address < RegionValue.match_ r_sub address)
  /\ (subdivision_matches r_sub address = false ->
      RegionValue.match_ r_sub address < RegionValue.match_ r_wild address).
Proof.
  intros Hcc Hcountry Hsame Hpostal Hwild Hsub.
  unfold RegionValue.match_, subdivision_matches.
  rewrite Hsame, Hpostal, Hwild, Hcountry, String.eqb_refl. simpl.
  destruct (String.eqb_spec (RegionValue.country_code r_sub) "") as [?|_];
    [done|].
  destruct (String.eqb_spec (RegionValue.iso2 r_sub) "") as [?|_]; [done|].
  split; intros ->; match_cases; lia.
Qed.

Lemma match_subdivision_against_wildcard_witness :
  subdivision_matches Samples3.fresno_rule Samples3.oakland_address = true
  /\ RegionValue.match_ Samples.us_rule Samples3.oakland_address
     < RegionValue.match_ Samples3.fresno_rule Samples3.oakland_address.
Proof.
  assert (H : subdivision_matches Samples3.fresno_rule
                Samples3.oakland_address = true)
    by (vm_compute; reflexivity).
  split; [exact H|].
  refine (proj1 (match_subdivision_against_wildcard Samples3.fresno_rule
                   Samples.us_rule Samples3.oakland_address _ _ _ _ _ _) H);
    first [ done | vm_compute; reflexivity ].
Defined.

Lemma RegionValue_eqb_refl (r : RegionValue.t) : RegionValue.eqb r r = true.
Proof.
  unfold RegionValue.eqb. by rewrite !String.eqb_refl, Z.eqb_refl.
Qed.

Lemma RegionValue_eqb_sym (r1 r2 : RegionValue.t) :
  RegionValue.eqb r1 r2 = RegionValue.eqb r2 r1.
Proof.
  unfold RegionValue.eqb.
  rewrite (String.eqb_sym (RegionValue.country_code r1)),
    (String.eqb_sym (RegionValue.iso2 r1)),
    (String.eqb_sym (RegionValue.county r1)),
    (String.eqb_sym (RegionValue.city r1)),
    (String.eqb_sym (RegionValue.jp_postal r1)),
    (Z.eqb_sym (RegionValue.multiplier r1)).
  done.
Qed.

Lemma StronglySorted_snoc {A : Type} (R : A -> A -> Prop) (l : list A) (x : A) :
  StronglySorted R l -> Forall (fun a => R a x) l ->
  StronglySorted R (l ++ [x]).
Proof.
  induction 1 as [|a l Hl IH Hall]; intros Hx; simpl.
  - repeat constructor.
  - inversion Hx; subst. constructor; [by apply IH|].
    apply Forall_app. split; [done|]. by constructor.
Qed.

(** The loop of [read_regions], started from the set [regions]. *)
Lemma read_regions_fold (rows regions : list RegionValue.t) :
  StronglySorted (fun a b => RegionValue.eqb a b = false) regions ->
  exists added,
    fold_left (fun regions region_value =>
                 if existsb (RegionValue.eqb region_value) regions
                 then regions else (regions ++ [region_value])%list)
              rows regions
    = (regions ++ added)%list
    /\ added `sublist_of` rows
    /\ StronglySorted (fun a b => RegionValue.eqb a b = false)
         (regions ++ added)
    /\ forall r, r ∈ rows ->
                 exists r', r' ∈ (regions ++ added)%list
                            /\ RegionValue.eqb r r' = true.
Proof.
  revert regions. induction rows as [|row rest IH]; intros regions Hsorted.
  - exists []. simpl. rewrite app_nil_r. split; [done|]. split; [done|].
    split; [done|]. intros r Hin. by apply not_elem_of_nil in Hin.
  - cbn [fold_left].
    destruct (existsb (RegionValue.eqb row) regions) eqn:Hex.
    + destruct (IH regions Hsorted) as (added & -> & Hsub & Hs & Hcover).
      exists added. split; [done|]. split; [by apply sublist_cons|].
      split; [done|]. intros r Hin.
      apply elem_of_cons in Hin as [->|Hin]; [|by apply Hcover].
      apply existsb_exists in Hex as (r' & Hr' & Heq).
      exists r'. split; [|done]. apply elem_of_app. left.
      by apply list_elem_of_In.
    + assert (Hsorted' : StronglySorted
                           (fun a b => RegionValue.eqb a b = false)
                           (regions ++ [row])).
      { apply StronglySorted_snoc; [done|]. apply Forall_forall.
        intros a Ha. rewrite RegionValue_eqb_sym.
        destruct (RegionValue.eqb row a) eqn:Heq; [|done].
        assert (existsb (RegionValue.eqb row) regions = true); [|congruence].
        apply existsb_exists. exists a. split; [|done].
        by apply list_elem_of_In. }
      destruct (IH (regions ++ [row])%list Hsorted')
        as (added & -> & Hsub & Hs & Hcover).
      exists (row :: added). rewrite <- app_assoc in *. simpl in *.
      split; [done|]. split; [by apply sublist_skip|]. split; [done|].
      intros r Hin. apply elem_of_cons in Hin as [->|Hin]; [|by apply Hcover].
      exists row. split; [|apply RegionValue_eqb_refl].
      apply elem_of_app. right. left.
Qed.

Lemma RegionValue_eqb_trans (r1 r2 r3 : RegionValue.t) :
  RegionValue.eqb r1 r2 = true -> RegionValue.eqb r2 r3 = true ->
  RegionValue.eqb r1 r3 = true.
Proof.
  unfold RegionValue.eqb.
  rewrite !andb_true_iff, !String.eqb_eq, !Z.eqb_eq.
  intros (((((-> & ->) & ->) & ->) & ->) & ->). done.
Qed.

(** An appended rule is the first row of its class: [done] are the rows
    consumed before, each equal to a rule of [regions]. *)
Lemma read_regions_fold_first (rows done regions : list RegionValue.t) :
  (forall a, a ∈ done ->
             exists a', a' ∈ regions /\ RegionValue.eqb a a' = true) ->
  exists added,
    fold_left (fun regions region_value =>
                 if existsb (RegionValue.eqb region_value) regions
                 then regions else (regions ++ [region_value])%list)
              rows regions
    = (regions ++ added)%list
    /\ forall r', r' ∈ added ->
                  exists l1 l2,
                    rows = (l1 ++ r' :: l2)%list
                    /\ forall a, a ∈ (done ++ l1)%list ->
                                 RegionValue.eqb a r' = false.
Proof.
  revert done regions.
  induction rows as [|row rest IH]; intros done regions Hcover.
  - exists []. simpl. rewrite app_nil_r. split; [done|].
    intros r' Hin. by apply not_elem_of_nil in Hin.
  - cbn [fold_left].
    destruct (existsb (RegionValue.eqb row) regions) eqn:Hex.
    + destruct (IH (done ++ [row])%list regions) as (added & -> & Hfirst).
      { intros a Ha. apply elem_of_app in Ha as [Ha|Ha]; [by apply Hcover|].
        apply list_elem_of_singleton in Ha as ->.
        apply existsb_exists in Hex as (a' & Ha' & Heq).
        exists a'. split; [by apply list_elem_of_In|done]. }
      exists added. split; [done|]. intros r' Hin.
      destruct (Hfirst r' Hin) as (l1 & l2 & -> & Hne).
      exists (row :: l1), l2. split; [done|]. intros a Ha. apply Hne.
      rewrite <- app_assoc. done.
    + destruct (IH (done ++ [row])%list (regions ++ [row])%list)
        as (added & -> & Hfirst).
      { intros a Ha. apply elem_of_app in Ha as [Ha|Ha].
        - destruct (Hcover a Ha) as (a' & Ha' & Heq).
          exists a'. split; [apply elem_of_app; by left|done].
        - apply list_elem_of_singleton in Ha as ->.
          exists row. split; [|apply RegionValue_eqb_refl].
          apply elem_of_app. right. left. }
      exists (row :: added). rewrite <- app_assoc. split; [done|].
      intros r' Hin. apply elem_of_cons in Hin as [->|Hin].
      * exists [], rest. split; [done|]. rewrite app_nil_r. intros a Ha.
        destruct (RegionValue.eqb a row) eqn:Heq; [|done].
        destruct (Hcover a Ha) as (a' & Ha' & Heq').
        assert (existsb (RegionValue.eqb row) regions = true); [|congruence].
        apply existsb_exists. exists a'.
        split; [by apply list_elem_of_In|].
        eapply RegionValue_eqb_trans; [|exact Heq'].
        by rewrite RegionValue_eqb_sym.
      * destruct (Hfirst r' Hin) as (l1 & l2 & -> & Hne).
        exists (row :: l1), l2. split; [done|]. intros a Ha. apply Hne.
        rewrite <- app_assoc. done.
Qed.

(** Rules that are pairwise not equal are distinct, and two of them that
    are equal are the same rule. *)
Lemma pairwise_unequal_set (l : list RegionValue.t) :
  StronglySorted (fun a b => RegionValue.eqb a b = false) l ->
  NoDup l
  /\ forall a b, a ∈ l -> b ∈ l -> RegionValue.eqb a b = true -> a = b.
Proof.
  induction 1 as [|x l Hl [IHnd IHeq] Hall].
  - split; [constructor|]. intros a b Ha. by apply not_elem_of_nil in Ha.
  - rewrite Forall_forall in Hall. split.
    + apply NoDup_cons. split; [|done]. intros Hin.
      specialize (Hall x Hin). by rewrite RegionValue_eqb_refl in Hall.
    + intros a b Ha Hb Heq.
      apply elem_of_cons in Ha as [->|Ha]; apply elem_of_cons in Hb as [->|Hb].
      * done.
      * specialize (Hall b Hb). congruence.
      * specialize (Hall a Ha). rewrite RegionValue_eqb_sym in Heq.
        congruence.
      * by apply IHeq.
Qed.

Section ReadRegions.
(** The order in which the returned set is iterated. *)
Variable iteration : list RegionValue.t -> list RegionValue.t.
Hypothesis iteration_permutes : forall l, iteration l ≡ₚ l.

(** X13. Whatever the order in which the returned set is iterated,
    [read_regions] keeps exactly the first row of every class of rows
    equal under [__eq__] (equal but for the note and the two floors):
    the returned rules are distinct and no two of them are equal, every
    row of the table is equal to one of them, and each of them is a row
    of the table that no earlier row is equal to. *)
Theorem read_regions_first_of_each (rows : list RegionValue.t) :
  NoDup (read_regions iteration rows)
  /\ (forall a b,
        a ∈ read_regions iteration rows ->
        b ∈ read_regions iteration rows ->
        RegionValue.eqb a b = true -> a = b)
  /\ (forall r, r ∈ rows ->
                exists r', r' ∈ read_regions iteration rows
                           /\ RegionValue.eqb r r' = true)
  /\ (forall r', r' ∈ read_regions iteration rows ->
                 exists l1 l2,
                   rows = (l1 ++ r' :: l2)%list
                   /\ forall a, a ∈ l1 -> RegionValue.eqb a r' = false).
Proof.
  unfold read_regions.
  destruct (read_regions_fold rows []) as (added & Heq & Hsub & Hs & Hcover);
    [constructor|].
  destruct (read_regions_fold_first rows [] []) as (added' & Heq' & Hfirst).
  { intros a Ha. by apply not_elem_of_nil in Ha. }
  assert (Hmem : forall x,
             x ∈ iteration
                   (fold_left
                      (fun regions region_value =>
                         if existsb (RegionValue.eqb region_value) regions
                         then regions
                         else (regions ++ [region_value])%list) rows [])
             <-> x ∈ added).
  { intros x. rewrite (iteration_permutes _), Heq. done. }
  destruct (pairwise_unequal_set added Hs) as [Hnd Hsame].
  split; [|split; [|split]].
  - rewrite (iteration_permutes _), Heq. exact Hnd.
  - intros a b Ha Hb. apply Hsame; by apply Hmem.
  - intros r Hr. destruct (Hcover r Hr) as (r' & Hr' & Hrr').
    exists r'. split; [by apply Hmem|done].
  - intros r' Hr'. apply Hmem in Hr'.
    assert (Hadd : added = added') by (simpl in Heq, Heq'; congruence).
    rewrite Hadd in Hr'. by apply Hfirst.
Qed.
End ReadRegions.

Lemma read_regions_first_of_each_witness :
  read_regions reverse
    [Samples.us_rule; Samples.fallback_rule;
     RegionValue.mk "us" "" "" "" "" 1 32 100 "United States, again"]
  = [Samples.fallback_rule; Samples.us_rule]
  /\ NoDup (read_regions reverse
              [Samples.us_rule; Samples.fallback_rule;
               RegionValue.mk "us" "" "" "" "" 1 32 100
                 "United States, again"]).
Proof.
  split; [reflexivity|].
  exact (proj1 (read_regions_first_of_each reverse reverse_Permutation
                  [Samples.us_rule; Samples.fallback_rule;
                   RegionValue.mk "us" "" "" "" "" 1 32 100
                     "United States, again"])).
Defined.

(** ** The lists of a computed result *)

Lemma pair_ltb_Z_true {B : Type} (ltB : B -> B -> bool) (p q : Z * B) :
  pair_ltb Z.ltb Z.eqb ltB p q = true
  <-> p.1 < q.1 \/ (p.1 = q.1 /\ ltB p.2 q.2 = true).
Proof.
  unfold pair_ltb. rewrite orb_true_iff, andb_true_iff, Z.ltb_lt, Z.eqb_eq.
  done.
Qed.

Lemma pair_ltb_Z_false {B : Type} (ltB : B -> B -> bool) (p q : Z * B) :
  pair_ltb Z.ltb Z.eqb ltB p q = false
  <-> q.1 < p.1 \/ (p.1 = q.1 /\ ltB p.2 q.2 = false).
Proof.
  unfold pair_ltb. rewrite orb_false_iff, andb_false_iff, Z.ltb_ge, Z.eqb_neq.
  destruct (ltB p.2 q.2); split.
  - intros [H1 [H2|H2]]; [left; lia|done].
  - intros [H|[_ H]]; [|done]. split; [lia|left; lia].
  - intros [H1 _]. destruct (decide (p.1 = q.1)); [by right|left; lia].
  - intros [H|[H _]]; (split; [lia|by right]).
Qed.

Lemma pair_ltb_Z_asym {B : Type} (ltB : B -> B -> bool) :
  (forall a b, ltB a b = true -> ltB b a = false) ->
  forall p q : Z * B,
    pair_ltb Z.ltb Z.eqb ltB p q = true -> pair_ltb Z.ltb Z.eqb ltB q p = false.
Proof.
  intros HB p q. rewrite pair_ltb_Z_true, pair_ltb_Z_false.
  intros [H|[H1 H2]]; [by left|]. right. split; [done|]. by apply HB.
Qed.

Lemma String_ltb_asym (a b : string) :
  String.ltb a b = true -> String.ltb b a = false.
Proof.
  unfold String.ltb. rewrite (String.compare_antisym b a).
  by destruct (String.compare a b).
Qed.

Lemma Z_ltb_asym (a b : Z) : (a <? b) = true -> (b <? a) = false.
Proof. rewrite Z.ltb_lt, Z.ltb_ge. lia. Qed.

Lemma Sorted_weaken {A : Type} (R R' : A -> A -> Prop) (l : list A) :
  (forall a b, R a b -> R' a b) -> Sorted R l -> Sorted R' l.
Proof.
  intros Himpl. induction 1 as [|a l Hl IH Hhd]; constructor; [done|].
  destruct Hhd; constructor. by apply Himpl.
Qed.

Section ResultLists.
Variable lower : string -> string.
Variable scored_players : dict ident PlayerValueGroup.t.
Variable scored_tags : gset string.
Variable region_mults : list RegionValue.t.

Local Abbreviation participant_step :=
  (Tournament.participant_step lower scored_players scored_tags).
Local Abbreviation compute_tier :=
  (Tournament.compute_tier lower scored_players scored_tags region_mults).

(** The three lists of a computed result are the sorted accumulators of
    the two loops. *)
Lemma compute_tier_lists (c : Collaborators) (self : Tournament.t)
    (res : TournamentTieringResult.t) :
  compute_tier c self = inr res ->
  exists r,
    TournamentTieringResult.values res
    = sort_reverse_by CountedValue.points Z.ltb
        (participants_loop lower scored_players scored_tags self r).1.2
    /\ TournamentTieringResult.dqs res
       = sort_reverse_by Tournament.dq_sort_key (pair_ltb Z.ltb Z.eqb Z.ltb)
           (dqs_loop lower scored_players scored_tags self
              (participants_loop lower scored_players scored_tags self r).2).1
    /\ TournamentTieringResult.potential res
       = map TournamentTieringResult.PotMatch
           (sort_by Tournament.potential_sort_key
              (pair_ltb Z.ltb Z.eqb String.ltb)
              (dqs_loop lower scored_players scored_tags self
                 (participants_loop lower scored_players scored_tags
                    self r).2).2).
Proof.
  intros Hres.
  destruct (Tournament.select_region region_mults self) as [e|[m [r|]]]
    eqn:Hsel.
  { by rewrite (compute_tier_select_raised _ _ _ _ c self e Hsel) in Hres. }
  2:{ by rewrite (compute_tier_no_region _ _ _ _ c self m Hsel) in Hres. }
  rewrite (compute_tier_selected _ _ _ _ c self m r Hsel) in Hres.
  destruct (get_name c) as [e|name]; [done|]. simpl in Hres.
  injection Hres as <-. by exists r.
Qed.

(** X14. The lists of a computed result are sorted for the report: the
    valued participants by descending points; the DQ'd values by
    descending DQ count and, among equal counts, descending points; the
    potential matches by ascending DQ count and, for neighbours with
    equal counts, ascending tag. *)
Theorem computed_lists_sorted (c : Collaborators) (self : Tournament.t)
    (res : TournamentTieringResult.t) :
  compute_tier c self = inr res ->
  StronglySorted
    (fun a b => CountedValue.points b <= CountedValue.points a)
    (TournamentTieringResult.values res)
  /\ StronglySorted
       (fun a b =>
          DisqualificationValue.dqs b < DisqualificationValue.dqs a
          \/ (DisqualificationValue.dqs b = DisqualificationValue.dqs a
              /\ (dq_entry b).2 <= (dq_entry a).2))
       (TournamentTieringResult.dqs res)
  /\ exists potential_matches,
       TournamentTieringResult.potential res
       = map TournamentTieringResult.PotMatch potential_matches
       /\ StronglySorted
            (fun a b =>
               PotentialMatchWithDqs.dqs a <= PotentialMatchWithDqs.dqs b)
            potential_matches
       /\ Sorted
            (fun a b =>
               PotentialMatchWithDqs.dqs a < PotentialMatchWithDqs.dqs b
               \/ (PotentialMatchWithDqs.dqs a = PotentialMatchWithDqs.dqs b
                   /\ String.ltb (PotentialMatchWithDqs.tag b)
                        (PotentialMatchWithDqs.tag a) = false))
            potential_matches.
Proof.
  intros Hres.
  destruct (compute_tier_lists c self res Hres) as (r & -> & -> & ->).
  split; [apply sort_reverse_by_descending|]. split.
  - apply Sorted_StronglySorted.
    { intros x y z Hxy Hyz. lia. }
    eapply Sorted_weaken; [|apply sort_by_Sorted].
    + intros a b Hab. unfold not_before in Hab.
      apply pair_ltb_Z_false in Hab. unfold Tournament.dq_sort_key in Hab.
      simpl in Hab. rewrite Z.ltb_ge in Hab. unfold dq_entry. simpl. lia.
    + intros p q. apply (pair_ltb_Z_asym Z.ltb Z_ltb_asym).
  - eexists. split; [reflexivity|].
    assert (Hs : Sorted
                   (fun a b =>
                      PotentialMatchWithDqs.dqs a < PotentialMatchWithDqs.dqs b
                      \/ (PotentialMatchWithDqs.dqs a
                          = PotentialMatchWithDqs.dqs b
                          /\ String.ltb (PotentialMatchWithDqs.tag b)
                               (PotentialMatchWithDqs.tag a) = false))
                   (sort_by Tournament.potential_sort_key
                      (pair_ltb Z.ltb Z.eqb String.ltb)
                      (dqs_loop lower scored_players scored_tags self
                         (participants_loop lower scored_players scored_tags
                            self r).2).2)).
    { eapply Sorted_weaken; [|apply sort_by_Sorted].
      - intros a b Hab. unfold not_before in Hab.
        apply pair_ltb_Z_false in Hab.
        unfold Tournament.potential_sort_key in Hab. simpl in Hab.
        destruct Hab as [H|[H1 H2]]; [by left|right; by split].
      - apply (pair_ltb_Z_asym String.ltb String_ltb_asym). }
    split; [|exact Hs].
    apply Sorted_StronglySorted; [intros x y z ? ?; lia|].
    eapply Sorted_weaken; [|exact Hs]. simpl. intros a b Hab. lia.
Qed.

(** The participant loop appends at most one valued line per entrant, in
    order, under the entrant's id. *)
Lemma participants_loop_ids_sublist (self : Tournament.t)
    (ps : list Entrant.t) (s : Z) (v : list CountedValue.t)
    (pm : list PotentialMatchWithDqs.t) :
  registry_ids_wf scored_players ->
  exists v',
    (fold_left (participant_step self) ps (s, v, pm)).1.2 = (v ++ v')%list
    /\ map CountedValue.id_ v' `sublist_of` map Entrant.id_ ps.
Proof.
  intros Hwf. revert s v pm.
  induction ps as [|p rest IH]; intros s v pm.
  - exists []. simpl. by rewrite app_nil_r.
  - cbn [fold_left]. rewrite participant_step_eq.
    destruct (dict_mem (Entrant.id_ p) (Tournament.dq_list self)).
    { destruct (IH s v pm) as (v' & -> & Hsub).
      exists v'. split; [done|]. simpl. by apply sublist_cons. }
    destruct (dict_get (Entrant.id_ p) scored_players) as [g|] eqn:Hget;
      [destruct (PlayerValueGroup.retrieve_value g
                   (Tournament.start_time self)) as [pv|] eqn:Hret|].
    + destruct (IH (s + Tournament.value_score self pv)
                  (v ++ [CountedValue.init pv (Tournament.value_score self pv)
                           (Entrant.tag p)])%list pm) as (v' & -> & Hsub).
      eexists (_ :: v'). split; [by rewrite <- app_assoc|].
      simpl. unfold CountedValue.id_ at 1. simpl.
      rewrite (Hwf (Entrant.id_ p) g pv Hget).
      * by apply sublist_skip.
      * unfold PlayerValueGroup.retrieve_value in Hret.
        apply find_some in Hret as [Hin _]. by apply list_elem_of_In.
    + destruct (IH s v pm) as (v' & -> & Hsub).
      exists v'. split; [done|]. simpl. by apply sublist_cons.
    + destruct (bool_decide _);
        [destruct (IH s v (Tournament.tag_matches lower scored_players self
                             p 0 pm)) as (v' & -> & Hsub)
        |destruct (IH s v pm) as (v' & -> & Hsub)];
        (exists v'; split; [done|]; simpl; by apply sublist_cons).
Qed.

(** X15. With a registry that stores every value under its own id and a
    participant set in which no player id occurs twice, no player is
    scored twice: the valued participants of a computed result have
    pairwise distinct ids, and there are at most as many of them as
    participants. *)
Theorem valued_participants_distinct (c : Collaborators)
    (self : Tournament.t) (res : TournamentTieringResult.t) :
  registry_ids_wf scored_players ->
  NoDup (map Entrant.id_ (Tournament.participants self)) ->
  compute_tier c self = inr res ->
  NoDup (map CountedValue.id_ (TournamentTieringResult.values res))
  /\ (length (TournamentTieringResult.values res)
      <= length (Tournament.participants self))%nat.
Proof.
  intros Hwf Hnd Hres.
  destruct (compute_tier_lists c self res Hres) as (r & -> & _ & _).
  unfold participants_loop.
  destruct (participants_loop_ids_sublist self (Tournament.participants self)
              (0 + Tournament.total_entrants self * RegionValue.multiplier r)
              [] [] Hwf) as (v' & -> & Hsub).
  simpl. split.
  - rewrite (Permutation_map _ (sort_reverse_by_Permutation _ _ _)).
    by eapply sublist_NoDup.
  - rewrite (Permutation_length (sort_reverse_by_Permutation _ _ _)).
    apply sublist_length in Hsub. by rewrite !length_map in Hsub.
Qed.
End ResultLists.

Lemma computed_lists_sorted_witness :
  exists res,
    Tournament.compute_tier ascii_lower (Samples.registry_tags).1
      (Samples.registry_tags).2 [Samples.fallback_rule]
      (Samples.source Samples.geo_ok) Samples.tournament = inr res
    /\ StronglySorted
         (fun a b => CountedValue.points b <= CountedValue.points a)
         (TournamentTieringResult.values res).
Proof.
  eexists.
  assert (Hres : Tournament.compute_tier ascii_lower (Samples.registry_tags).1
                   (Samples.registry_tags).2 [Samples.fallback_rule]
                   (Samples.source Samples.geo_ok) Samples.tournament
                 = inr _) by (vm_compute; reflexivity).
  split; [exact Hres|].
  exact (proj1 (computed_lists_sorted ascii_lower (Samples.registry_tags).1
                  (Samples.registry_tags).2 [Samples.fallback_rule]
                  (Samples.source Samples.geo_ok) Samples.tournament _ Hres)).
Defined.

Lemma valued_participants_distinct_witness :
  registry_ids_wf (Samples.registry_tags).1
  /\ NoDup (map Entrant.id_ (Tournament.participants Samples.tournament))
  /\ exists res,
       Tournament.compute_tier ascii_lower (Samples.registry_tags).1
         (Samples.registry_tags).2 [Samples.fallback_rule]
         (Samples.source Samples.geo_ok) Samples.tournament = inr res
       /\ NoDup (map CountedValue.id_ (TournamentTieringResult.values res)).
Proof.
  assert (Hwf : registry_ids_wf (Samples.registry_tags).1)
    by apply registry_wf_ids, read_players_registry_wf.
  assert (Hnd : NoDup (map Entrant.id_
                         (Tournament.participants Samples.tournament))).
  { simpl. apply NoDup_cons. split; [|apply NoDup_singleton].
    intros Hin. by apply list_elem_of_singleton in Hin. }
  split; [exact Hwf|]. split; [exact Hnd|]. eexists.
  assert (Hres : Tournament.compute_tier ascii_lower (Samples.registry_tags).1
                   (Samples.registry_tags).2 [Samples.fallback_rule]
                   (Samples.source Samples.geo_ok) Samples.tournament
                 = inr _) by (vm_compute; reflexivity).
  split; [exact Hres|].
  exact (proj1 (valued_participants_distinct ascii_lower
                  (Samples.registry_tags).1 (Samples.registry_tags).2
                  [Samples.fallback_rule] (Samples.source Samples.geo_ok)
                  Samples.tournament _ Hwf Hnd Hres)).
Defined.

(** ** The paged loops *)

Section PagedFacts.
Context {E A St : Type}.
Variable fetch : Z -> E + PageResp A.
Variable step : St -> list A -> St.

Lemma paged_loop_eq (fuel : nat) (page : Z) (acc : St) :
  paged_loop fetch step (S fuel) page acc
  = match fetch page with
    | inl e => Some (inl e)
    | inr resp =>
        if page >=? page_totalPages resp
        then Some (inr (step acc (page_nodes resp)))
        else paged_loop fetch step fuel (page + 1)
               (step acc (page_nodes resp))
    end.
Proof. reflexivity. Qed.

(** The run of the loop from page [p] over [count] pages that announce
    more and a page that does not. *)
Lemma paged_loop_run (pages : Z -> list A) (totals : Z -> Z) (count : nat) :
  forall (fuel : nat) (p : Z) (acc : St),
    (forall k, p <= k <= p + Z.of_nat count ->
               fetch k = inr (mkPageResp (pages k) (totals k))) ->
    (forall k, p <= k < p + Z.of_nat count -> k < totals k) ->
    totals (p + Z.of_nat count) <= p + Z.of_nat count ->
    (count < fuel)%nat ->
    paged_loop fetch step fuel p acc
    = Some (inr (fold_left step (map pages (pages_from p (S count))) acc)).
Proof.
  induction count as [|count IH]; intros fuel p acc Hfetch Hmore Hlast Hfuel.
  - destruct fuel as [|fuel]; [lia|]. rewrite paged_loop_eq.
    rewrite (Hfetch p) by lia. simpl.
    replace (p + Z.of_nat 0) with p in Hlast by lia.
    destruct (Z.geb_spec p (totals p)); [done|lia].
  - destruct fuel as [|fuel]; [lia|]. rewrite paged_loop_eq.
    rewrite (Hfetch p) by lia. cbn [page_nodes page_totalPages].
    destruct (Z.geb_spec p (totals p)) as [Hge|_].
    { specialize (Hmore p). lia. }
    rewrite (IH fuel (p + 1) (step acc (pages p))).
    + reflexivity.
    + intros k Hk. apply Hfetch. lia.
    + intros k Hk. apply Hmore. lia.
    + replace (p + 1 + Z.of_nat count) with (p + Z.of_nat (S count)) by lia.
      done.
    + lia.
Qed.

(** The same pages in front of a page whose request raises. *)
Lemma paged_loop_run_raises (pages : Z -> list A) (totals : Z -> Z)
    (e : E) (count : nat) :
  forall (fuel : nat) (p : Z) (acc : St),
    (forall k, p <= k < p + Z.of_nat count ->
               fetch k = inr (mkPageResp (pages k) (totals k))) ->
    (forall k, p <= k < p + Z.of_nat count -> k < totals k) ->
    fetch (p + Z.of_nat count) = inl e ->
    (count < fuel)%nat ->
    paged_loop fetch step fuel p acc = Some (inl e).
Proof.
  induction count as [|count IH]; intros fuel p acc Hfetch Hmore Hlast Hfuel.
  - destruct fuel as [|fuel]; [lia|]. rewrite paged_loop_eq.
    replace (p + Z.of_nat 0) with p in Hlast by lia. by rewrite Hlast.
  - destruct fuel as [|fuel]; [lia|]. rewrite paged_loop_eq.
    rewrite (Hfetch p) by lia. cbn [page_nodes page_totalPages].
    destruct (Z.geb_spec p (totals p)) as [Hge|_].
    { specialize (Hmore p). lia. }
    apply IH.
    + intros k Hk. apply Hfetch. lia.
    + intros k Hk. apply Hmore. lia.
    + replace (p + 1 + Z.of_nat count) with (p + Z.of_nat (S count)) by lia.
      done.
    + lia.
Qed.

(** X16. The paged loop on a server that answers pages 1 to [n], of
    which the first [n - 1] announce a later page and page [n] does
    not: with fuel for [n] requests the loop returns, and its result is
    the loop body applied to the nodes of pages 1 to [n] in order.  In
    particular page 1 is consumed even when the server announces zero
    pages. *)
Theorem paged_loop_collects_pages (pages : Z -> list A) (totals : Z -> Z)
    (n fuel : nat) (acc : St) :
  (1 <= n)%nat ->
  (forall k, 1 <= k <= Z.of_nat n ->
             fetch k = inr (mkPageResp (pages k) (totals k))) ->
  (forall k, 1 <= k < Z.of_nat n -> k < totals k) ->
  totals (Z.of_nat n) <= Z.of_nat n ->
  (n <= fuel)%nat ->
  paged_loop fetch step fuel 1 acc
  = Some (inr (fold_left step (map pages (pages_from 1 n)) acc)).
Proof.
  intros Hn Hfetch Hmore Hlast Hfuel.
  destruct n as [|count]; [lia|].
  apply (paged_loop_run pages totals count).
  - intros k Hk. apply Hfetch. lia.
  - intros k Hk. apply Hmore. lia.
  - replace (1 + Z.of_nat count) with (Z.of_nat (S count)) by lia. done.
  - lia.
Qed.

(** X17. When pages 1 to [n - 1] are answered and announce a later page
    and the request for page [n] raises, the loop raises that exception:
    nothing of the earlier pages is returned. *)
Theorem paged_loop_raises_first_failure (pages : Z -> list A)
    (totals : Z -> Z) (e : E) (n fuel : nat) (acc : St) :
  (1 <= n)%nat ->
  (forall k, 1 <= k < Z.of_nat n ->
             fetch k = inr (mkPageResp (pages k) (totals k))) ->
  (forall k, 1 <= k < Z.of_nat n -> k < totals k) ->
  fetch (Z.of_nat n) = inl e ->
  (n <= fuel)%nat ->
  paged_loop fetch step fuel 1 acc = Some (inl e).
Proof.
  intros Hn Hfetch Hmore Hlast Hfuel.
  destruct n as [|count]; [lia|].
  apply (paged_loop_run_raises pages totals e count).
  - intros k Hk. apply Hfetch. lia.
  - intros k Hk. apply Hmore. lia.
  - replace (1 + Z.of_nat count) with (Z.of_nat (S count)) by lia. done.
  - lia.
Qed.

(** X18. The loop trusts the page count of each response: against a
    server that answers every page and always announces a later one, no
    amount of fuel makes it return. *)
Theorem paged_loop_never_returns (acc : St) :
  (forall k, 1 <= k ->
             exists resp, fetch k = inr resp /\ k < page_totalPages resp) ->
  forall fuel, paged_loop fetch step fuel 1 acc = None.
Proof.
  intros Hmore fuel.
  assert (Hgen : forall p a, 1 <= p -> paged_loop fetch step fuel p a = None).
  { induction fuel as [|fuel IH]; intros p a Hp; [done|].
    rewrite paged_loop_eq.
    destruct (Hmore p Hp) as (resp & -> & Hlt).
    destruct (Z.geb_spec p (page_totalPages resp)); [lia|].
    apply IH. lia. }
  by apply Hgen.
Qed.
End PagedFacts.

Lemma fold_pages_append {A : Type} (ls : list (list A)) (acc : list A) :
  fold_left (fun sets nodes => (sets ++ nodes)%list) ls acc
  = (acc ++ concat ls)%list.
Proof.
  revert acc. induction ls as [|l ls IH]; intros acc; simpl.
  - by rewrite app_nil_r.
  - by rewrite IH, app_assoc.
Qed.

Lemma fold_pages_set_add {A : Type} `{EqDecision A} (ls : list (list A))
    (s : list A) :
  fold_left
    (fun participants nodes =>
       fold_left (fun participants player_data =>
                    set_add player_data participants) nodes participants)
    ls s
  = fold_left (fun participants player_data => set_add player_data participants)
      (concat ls) s.
Proof.
  revert s. induction ls as [|l ls IH]; intros s; simpl; [done|].
  by rewrite IH, fold_left_app.
Qed.

(** X19. Reading the sets and the entrants page by page gives what the
    reconciler computes from the whole list: on a server that answers
    each of its [n] pages of sets and [m] pages of entrants with the
    true page count, [get_sets_in_phases] returns the nodes of the pages
    in page order, and [get_entrants] returns the set the one-response
    reconciler builds from the concatenated pages. *)
Theorem paged_reads_agree (c : Collaborators) (phase_ids : list Z)
    (fetch_sets : Z -> exn + PageResp SetData)
    (fetch_entrants : Z -> exn + PageResp Entrant.t)
    (set_pages : Z -> list SetData) (entrant_pages : Z -> list Entrant.t)
    (n m fuel : nat) :
  (1 <= n <= fuel)%nat ->
  (1 <= m <= fuel)%nat ->
  (forall k, 1 <= k <= Z.of_nat n ->
     fetch_sets k
     = inr (mkPageResp (set_pages k) (Z.of_nat n))) ->
  (forall k, 1 <= k <= Z.of_nat m ->
     fetch_entrants k
     = inr (mkPageResp (entrant_pages k) (Z.of_nat m))) ->
  resp_sets c phase_ids = inr (concat (map set_pages (pages_from 1 n))) ->
  resp_entrants c = inr (concat (map entrant_pages (pages_from 1 m))) ->
  get_sets_in_phases_paged fetch_sets fuel
  = Some (get_sets_in_phases c phase_ids)
  /\ get_entrants_paged fetch_entrants fuel = Some (get_entrants c).
Proof.
  intros Hn Hm Hsets Hentrants Hc1 Hc2. split.
  - unfold get_sets_in_phases_paged, get_sets_in_phases.
    rewrite (paged_loop_collects_pages fetch_sets _ set_pages
               (fun _ => Z.of_nat n) n fuel []);
      try lia; try done.
    by rewrite fold_pages_append, Hc1.
  - unfold get_entrants_paged, get_entrants.
    rewrite (paged_loop_collects_pages fetch_entrants _ entrant_pages
               (fun _ => Z.of_nat m) m fuel []);
      try lia; try done.
    by rewrite fold_pages_set_add, Hc2.
Qed.

Lemma paged_loop_collects_pages_witness :
  get_entrants_paged Samples4.entrants_two_pages 5
  = Some (inr [Samples.alice; Samples.bob; Samples.zed]).
Proof.
  unfold get_entrants_paged.
  rewrite (paged_loop_collects_pages Samples4.entrants_two_pages _
             (fun k => if k =? 1 then [Samples.alice; Samples.bob]
                       else [Samples.bob; Samples.zed])
             (fun _ => 2) 2 5 []).
  - reflexivity.
  - lia.
  - intros k Hk. assert (Hcases : k = 1 \/ k = 2) by lia.
    destruct Hcases as [-> | ->]; reflexivity.
  - intros k Hk. lia.
  - simpl. lia.
  - lia.
Defined.

Lemma paged_loop_raises_first_failure_witness :
  get_entrants_paged Samples4.entrants_broken 5
  = Some (inl (CollaboratorError "bad response")).
Proof.
  unfold get_entrants_paged.
  apply (paged_loop_raises_first_failure Samples4.entrants_broken _
           (fun _ => [Samples.alice]) (fun _ => 3) _ 2 5 []).
  - lia.
  - intros k Hk. assert (k = 1) as -> by lia. reflexivity.
  - intros k Hk. lia.
  - reflexivity.
  - lia.
Defined.

Lemma paged_loop_never_returns_witness :
  get_entrants_paged Samples4.entrants_endless 1000 = None.
Proof.
  unfold get_entrants_paged.
  apply (paged_loop_never_returns Samples4.entrants_endless).
  intros k Hk. eexists. split; [reflexivity|]. simpl. lia.
Defined.

Lemma paged_reads_agree_witness :
  get_sets_in_phases_paged (fun _ => inr (mkPageResp [] 1)) 3
  = Some (get_sets_in_phases Samples4.entrants_source [10])
  /\ get_entrants_paged Samples4.entrants_two_pages 3
     = Some (get_entrants Samples4.entrants_source).
Proof.
  apply (paged_reads_agree Samples4.entrants_source [10]
           (fun _ => inr (mkPageResp [] 1)) Samples4.entrants_two_pages
           (fun _ => [])
           (fun k => if k =? 1 then [Samples.alice; Samples.bob]
                     else [Samples.bob; Samples.zed])
           1 2 3).
  - lia.
  - lia.
  - intros k Hk. reflexivity.
  - intros k Hk. assert (Hcases : k = 1 \/ k = 2) by lia.
    destruct Hcases as [-> | ->]; reflexivity.
  - reflexivity.
  - reflexivity.
Defined.

(** ** Bulk scoring *)

(** What a constructed tournament carries. *)
Lemma init_fields (c : Collaborators) (event_slug : string)
    (is_invitational : bool) (t : Tournament.t) :
  Tournament.init c event_slug is_invitational true = inr t ->
  slug_regex_search c event_slug = Some (Tournament.event_slug t)
  /\ Tournament.is_invitational t = is_invitational
  /\ Tournament.tier t = None
  /\ Tournament.address t = Tournament.reverse_loop (geo_reverse c) 0 5.
Proof.
  unfold Tournament.init. rewrite gather_location_info_eq.
  destruct (slug_regex_search c event_slug) as [slug|]; [|done].
  destruct (Tournament.gather_entrant_counts c) as [e|counts]; [done|].
  cbn [bind_exn].
  destruct (resp_location c) as [e|xy]; [done|]. cbn [bind_exn].
  destruct (Tournament.retrieve_start_time c) as [e|start]; [done|].
  cbn [bind_exn]. intros Ht.
  assert (Heq : t = Tournament.mk slug is_invitational None
                      (Tournament.ec_total_dqs counts)
                      (Tournament.ec_phases counts)
                      (Tournament.ec_dq_list counts)
                      (Tournament.ec_participants counts)
                      (Tournament.ec_total_entrants counts)
                      (Tournament.reverse_loop (geo_reverse c) 0 5) start)
    by congruence.
  by rewrite Heq.
Qed.

(** A computed result names the tournament's event and flag, and its
    region is a loaded rule that matches the tournament's address. *)
Lemma compute_tier_origin lower scored_players scored_tags region_mults
    (c : Collaborators) (self : Tournament.t)
    (res : TournamentTieringResult.t) :
  Tournament.compute_tier lower scored_players scored_tags region_mults c self
  = inr res ->
  TournamentTieringResult.slug res = Tournament.event_slug self
  /\ TournamentTieringResult.is_invitational res
     = Tournament.is_invitational self
  /\ TournamentTieringResult.region res ∈ region_mults
  /\ exists a,
       Tournament.address self = Some a
       /\ 0 < RegionValue.match_ (TournamentTieringResult.region res) a.
Proof.
  intros Hres.
  destruct (Tournament.address self) as [a|] eqn:Ha.
  - destruct (select_region_spec region_mults self a Ha)
      as [[Hsel _]|(r & Hsel & Hpos & Hfb)].
    { by rewrite (compute_tier_no_region _ _ _ _ c self 0 Hsel) in Hres. }
    rewrite (compute_tier_selected _ _ _ _ c self _ r Hsel) in Hres.
    destruct (get_name c) as [e|name]; [done|]. cbn [bind_exn] in Hres.
    assert (Heq : res = TournamentTieringResult.init
                          (Tournament.event_slug self)
                          (participants_loop lower scored_players scored_tags
                             self r).1.1
                          (Tournament.total_entrants self) r
                          (sort_reverse_by CountedValue.points Z.ltb
                             (participants_loop lower scored_players
                                scored_tags self r).1.2)
                          (sort_reverse_by Tournament.dq_sort_key
                             (pair_ltb Z.ltb Z.eqb Z.ltb)
                             (dqs_loop lower scored_players scored_tags self
                                (participants_loop lower scored_players
                                   scored_tags self r).2).1)
                          (map TournamentTieringResult.PotMatch
                             (sort_by Tournament.potential_sort_key
                                (pair_ltb Z.ltb Z.eqb String.ltb)
                                (dqs_loop lower scored_players scored_tags
                                   self
                                   (participants_loop lower scored_players
                                      scored_tags self r).2).2))
                          (Tournament.is_invitational self)
                          (map phase_name (Tournament.phases self))
                          (Tournament.total_dqs self) name)
      by congruence.
    rewrite Heq. cbn. split; [done|]. split; [done|].
    split; [by apply (first_best_maximal region_mults a r)|].
    by exists a.
  - destruct region_mults as [|r rest] eqn:Hrules.
    + by rewrite (compute_tier_no_region _ _ _ _ c self 0) in Hres.
    + by rewrite (compute_tier_select_raised _ _ _ _ c self _
                    (region_loop_unset self r rest Ha)) in Hres.
Qed.

Section BulkFacts.
Variable lower : string -> string.
Variable scored_players : dict ident PlayerValueGroup.t.
Variable scored_tags : gset string.
Variable region_mults : list RegionValue.t.
Variable fullmatch : string -> bool.
Variable world : string -> Collaborators.

Local Abbreviation bulk_score :=
  (Bulk.bulk_score lower scored_players scored_tags region_mults fullmatch
     world).
Local Abbreviation bulk_score_step :=
  (Bulk.bulk_score_step lower scored_players scored_tags region_mults
     fullmatch world).
Local Abbreviation score_one :=
  (Bulk.score_one lower scored_players scored_tags region_mults world).

Lemma bulk_score_step_eq (results : list Bulk.entry) (slug : string)
    (invit : bool) :
  bulk_score_step results (slug, invit)
  = (results ++ bulk_score_step [] (slug, invit))%list.
Proof.
  unfold Bulk.bulk_score_step.
  destruct (fullmatch slug); [|done].
  by destruct (Bulk.score_one _ _ _ _ _ _ _).
Qed.

Lemma bulk_score_fold (slugs : list (string * bool))
    (results : list Bulk.entry) :
  fold_left bulk_score_step slugs results
  = (results ++ flat_map (bulk_score_step []) slugs)%list.
Proof.
  revert results. induction slugs as [|[slug invit] rest IH]; intros results.
  - simpl. by rewrite app_nil_r.
  - cbn [fold_left flat_map]. rewrite IH, bulk_score_step_eq.
    by rewrite <- app_assoc.
Qed.

Lemma score_one_origin (slug : string) (invit : bool)
    (res : TournamentTieringResult.t) :
  score_one slug invit = inr res ->
  slug_regex_search (world slug) slug
  = Some (TournamentTieringResult.slug res)
  /\ TournamentTieringResult.is_invitational res = invit
  /\ TournamentTieringResult.region res ∈ region_mults
  /\ exists a i,
       (i < 5)%nat
       /\ geo_reverse (world slug) i = inr a
       /\ 0 < RegionValue.match_ (TournamentTieringResult.region res) a.
Proof.
  unfold Bulk.score_one.
  destruct (Tournament.init (world slug) slug invit true) as [e|t] eqn:Hinit;
    [done|].
  cbn [bind_exn]. intros Hres.
  destruct (init_fields _ _ _ _ Hinit) as (Hslug & Hinv & Htier & Haddr).
  rewrite (calculate_tier_fresh _ _ _ _ _ _ Htier) in Hres.
  destruct (compute_tier_origin _ _ _ _ _ _ _ Hres)
    as (Hs & Hi & Hr & a & Ha & Hpos).
  rewrite Hs, Hi. do 3 (split; [done|]).
  rewrite Haddr in Ha.
  apply reverse_loop_first_success in Ha as (i & Hi5 & Hgeo & _).
  exists a, i. split; [lia|]. done.
Qed.

(** X20. [bulk_score] returns one entry per requested slug, in the order
    of the request, and never raises.  An entry is a tiering result only
    for a slug that the slug pattern matches in full; that result then
    carries the event slug the pattern finds in the input and the
    requested invitational flag, and its region is a loaded rule that
    matches an address the geocoder returned within five calls.  Every
    other entry is the requested slug itself. *)
Theorem bulk_score_entries (slugs : list (string * bool)) :
  Forall2
    (fun slug_obj entry =>
       match entry with
       | Bulk.Unscored s => s = slug_obj.1
       | Bulk.Scored res =>
           fullmatch slug_obj.1 = true
           /\ slug_regex_search (world slug_obj.1) slug_obj.1
              = Some (TournamentTieringResult.slug res)
           /\ TournamentTieringResult.is_invitational res = slug_obj.2
           /\ TournamentTieringResult.region res ∈ region_mults
           /\ exists a i,
                (i < 5)%nat
                /\ geo_reverse (world slug_obj.1) i = inr a
                /\ 0 < RegionValue.match_
                         (TournamentTieringResult.region res) a
       end)
    slugs (bulk_score slugs).
Proof.
  unfold Bulk.bulk_score. rewrite bulk_score_fold. simpl.
  induction slugs as [|[slug invit] rest IH]; [constructor|].
  cbn [flat_map].
  assert (Hone : exists entry,
             bulk_score_step [] (slug, invit) = [entry]
             /\ match entry with
                | Bulk.Unscored s => s = slug
                | Bulk.Scored res =>
                    fullmatch slug = true /\ score_one slug invit = inr res
                end).
  { unfold Bulk.bulk_score_step.
    destruct (fullmatch slug) eqn:Hfull; [|by eexists].
    destruct (Bulk.score_one _ _ _ _ _ _ _) as [e|res] eqn:Hscore;
      by eexists. }
  destruct Hone as (entry & -> & Hentry). simpl.
  constructor; [|exact IH].
  destruct entry as [res|s]; [|done]. simpl.
  destruct Hentry as [Hfull Hscore]. split; [done|].
  by apply score_one_origin.
Qed.

Lemma bulk_score_step_unlocated (slug : string) (invit : bool) :
  (forall i, (i < 5)%nat -> exists e, geo_reverse (world slug) i = inl e) ->
  bulk_score_step [] (slug, invit) = [Bulk.Unscored slug].
Proof.
  intros Hgeo. unfold Bulk.bulk_score_step.
  destruct (fullmatch slug); [|done].
  destruct (Bulk.score_one _ _ _ _ _ _ _) as [e|res] eqn:Hscore; [done|].
  destruct (score_one_origin slug invit res Hscore)
    as (_ & _ & _ & a & i & Hi & Ha & _).
  destruct (Hgeo i Hi) as [e He]. congruence.
Qed.

(** A tournament without an address cannot be scored: the region loop
    reads the missing attribute, or, with no rule loaded, the multiplier
    of no region. *)
Lemma compute_tier_unlocated (c : Collaborators) (self : Tournament.t) :
  Tournament.address self = None ->
  Tournament.compute_tier lower scored_players scored_tags region_mults c self
  = inl (AttributeError (match region_mults with
                         | [] => "multiplier"
                         | _ :: _ => "address"
                         end)).
Proof.
  intros Ha. destruct region_mults as [|r rest] eqn:Hrules.
  - by apply compute_tier_no_region with (m := 0).
  - apply compute_tier_select_raised. by apply region_loop_unset.
Qed.

(** X21. When the queries of a tournament answer but its five geocoder
    calls all fail, the tournament is constructed, without an address;
    scoring it raises an attribute error and leaves it unscored; and in
    a bulk run its entry is the slug, not a result. *)
Theorem bulk_score_unlocated (slugs : list (string * bool)) (slug : string)
    (invit : bool) (event_slug : string)
    (counts : Tournament.entrant_counts) (xy : string * string)
    (start : date) :
  (slug, invit) ∈ slugs ->
  slug_regex_search (world slug) slug = Some event_slug ->
  Tournament.gather_entrant_counts (world slug) = inr counts ->
  resp_location (world slug) = inr xy ->
  resp_start_at (world slug) = inr start ->
  (forall i, (i < 5)%nat -> exists e, geo_reverse (world slug) i = inl e) ->
  exists t,
    Tournament.init (world slug) slug invit true = inr t
    /\ Tournament.event_slug t = event_slug
    /\ Tournament.address t = None
    /\ Tournament.calculate_tier lower scored_players scored_tags
         region_mults (world slug) t
       = (inl (AttributeError (match region_mults with
                               | [] => "multiplier"
                               | _ :: _ => "address"
                               end)), t)
    /\ Bulk.Unscored slug ∈ bulk_score slugs.
Proof.
  intros Hin Hslug Hcounts Hloc Hstart Hgeo.
  assert (Hloop : Tournament.reverse_loop (geo_reverse (world slug)) 0 5
                  = None).
  { apply reverse_loop_none. intros j Hj. apply Hgeo. lia. }
  set (t := Tournament.mk event_slug invit None
              (Tournament.ec_total_dqs counts) (Tournament.ec_phases counts)
              (Tournament.ec_dq_list counts)
              (Tournament.ec_participants counts)
              (Tournament.ec_total_entrants counts) None start).
  assert (Hinit : Tournament.init (world slug) slug invit true = inr t).
  { unfold Tournament.init, Tournament.retrieve_start_time.
    rewrite gather_location_info_eq, Hslug, Hcounts, Hloc, Hstart, Hloop.
    reflexivity. }
  assert (Htier : Tournament.compute_tier lower scored_players scored_tags
                    region_mults (world slug) t
                  = inl (AttributeError (match region_mults with
                                         | [] => "multiplier"
                                         | _ :: _ => "address"
                                         end)))
    by (by apply compute_tier_unlocated).
  exists t. split; [exact Hinit|]. split; [done|]. split; [done|]. split.
  - unfold Tournament.calculate_tier. by rewrite Htier.
  - unfold Bulk.bulk_score. rewrite bulk_score_fold. simpl.
    apply list_elem_of_In, in_flat_map. exists (slug, invit).
    split; [by apply list_elem_of_In|].
    rewrite (bulk_score_step_unlocated slug invit Hgeo). by left.
Qed.
End BulkFacts.

Lemma bulk_score_unlocated_witness :
  exists t,
    Tournament.init (Samples.source Samples.geo_down) Samples.slug false true
    = inr t
    /\ Tournament.address t = None
    /\ Bulk.Unscored Samples.slug
       ∈ Bulk.bulk_score ascii_lower (Samples.registry_tags).1
           (Samples.registry_tags).2 [Samples.fallback_rule] (fun _ => true)
           (fun _ => Samples.source Samples.geo_down) [(Samples.slug, false)].
Proof.
  destruct (bulk_score_unlocated ascii_lower (Samples.registry_tags).1
              (Samples.registry_tags).2 [Samples.fallback_rule]
              (fun _ => true) (fun _ => Samples.source Samples.geo_down)
              [(Samples.slug, false)] Samples.slug false Samples.slug
              (Tournament.mkCounts (-1)
                 [mkPhase 10 "Bracket" "COMPLETED" false]
                 [(IdNum 3, (Samples.zed, 1))]
                 [Samples.alice; Samples.bob] 3)
              ("40.7", "-74.0") 738000)
    as (t & Hinit & _ & Haddr & _ & Hentry).
  - apply list_elem_of_singleton. reflexivity.
  - reflexivity.
  - vm_compute. reflexivity.
  - reflexivity.
  - reflexivity.
  - intros i Hi. eexists. reflexivity.
  - exists t. split; [exact Hinit|]. split; [exact Haddr|exact Hentry].
Defined.

(** ** The event search *)

Lemma StronglySorted_filter {A : Type} (R : A -> A -> Prop) (f : A -> bool)
    (l : list A) :
  StronglySorted R l -> StronglySorted R (List.filter f l).
Proof.
  induction 1 as [|a l Hl IH Hall]; simpl; [constructor|].
  destruct (f a); [|done]. constructor; [done|].
  apply List.Forall_forall. intros x Hx. apply filter_In in Hx as [Hx _].
  rewrite List.Forall_forall in Hall. by apply Hall.
Qed.

Section EventFacts.
Variable lower : string -> string.
Variable potential_weekly_of : string -> search_error + option SearchTournament.t.

Local Abbreviation events_loop :=
  (Search.events_loop lower potential_weekly_of).
Local Abbreviation tournament_step :=
  (Search.tournament_step lower potential_weekly_of).
Local Abbreviation chosen_event :=
  (Search.chosen_event lower potential_weekly_of).
Local Abbreviation passes := (Search.passes lower).

(** The slug a tournament contributes, as a list. *)
Local Abbreviation chosen_slugs :=
  (fun tournament =>
     match chosen_event tournament with
     | Some event => [ev_slug event]
     | None => []
     end).

(** Once [added_event] is set, the loop only writes rows. *)
Lemma events_loop_added (tournament : TournamentNode) (events : list Event) :
  forall (potential_weekly : option (option SearchTournament.t))
         (out : Search.output),
    (events_loop tournament events true potential_weekly out).1 = out.1.
Proof.
  induction events as [|event rest IH]; intros weekly out; [done|].
  cbn [Search.events_loop].
  destruct (Search.exclusion lower _ _); by rewrite IH.
Qed.

(** The loop from its initial state. *)
Lemma events_loop_fresh (tournament : TournamentNode) (events : list Event) :
  forall out : Search.output,
    (events_loop tournament events false None out).1
    = (out.1
       ++ match List.filter (passes tournament) events with
          | [] => []
          | event :: _ =>
              if Search.is_monthly lower (tn_name tournament) (ev_name event)
              then [ev_slug event]
              else match potential_weekly_of (tn_slug tournament) with
                   | inr None => [ev_slug event]
                   | _ => []
                   end
          end)%list.
Proof.
  induction events as [|event rest IH]; intros out.
  - simpl. by rewrite app_nil_r.
  - cbn [Search.events_loop List.filter]. unfold Search.passes at 1.
    destruct (Search.exclusion lower _ _) as [reason|]; [by rewrite IH|].
    destruct (Search.is_monthly lower _ _).
    { by rewrite events_loop_added. }
    destruct (potential_weekly_of (tn_slug tournament)) as [e|[weekly|]].
    + by rewrite app_nil_r.
    + rewrite events_loop_added. simpl. by rewrite app_nil_r.
    + by rewrite events_loop_added.
Qed.

Lemma tournament_step_slugs (out : Search.output)
    (tournament : TournamentNode) :
  (tournament_step out tournament).1
  = (out.1 ++ chosen_slugs tournament)%list.
Proof.
  unfold Search.tournament_step, Search.chosen_event.
  rewrite events_loop_fresh.
  destruct (List.filter _ _) as [|event rest]; [done|].
  destruct (Search.is_monthly lower _ _); [done|].
  by destruct (potential_weekly_of _) as [e|[weekly|]].
Qed.

Lemma tournament_fold_slugs (nodes : list TournamentNode) :
  forall out : Search.output,
    (fold_left tournament_step nodes out).1
    = (out.1 ++ flat_map chosen_slugs nodes)%list.
Proof.
  induction nodes as [|tournament rest IH]; intros out.
  - simpl. by rewrite app_nil_r.
  - cbn [fold_left flat_map]. rewrite IH, tournament_step_slugs.
    by rewrite <- app_assoc.
Qed.

(** X22. The event loop of one tournament appends at most one slug: of
    the eligible events in descending order of entrants, the first one
    that no name test excludes is kept when it is a monthly or when the
    search for an earlier similar tournament returns none; when that
    search finds one or raises, or when every event is excluded, the
    tournament contributes nothing.  The events after the first
    candidate never change the slugs. *)
Theorem tournament_step_keeps_one (out : Search.output)
    (tournament : TournamentNode) :
  (tournament_step out tournament).1
  = (out.1
     ++ match List.filter (passes tournament)
                (Search.sorted_events tournament) with
        | [] => []
        | event :: _ =>
            if Search.is_monthly lower (tn_name tournament) (ev_name event)
            then [ev_slug event]
            else match potential_weekly_of (tn_slug tournament) with
                 | inr None => [ev_slug event]
                 | inr (Some _) => []
                 | inl _ => []
                 end
        end)%list.
Proof.
  unfold Search.tournament_step. rewrite events_loop_fresh.
  destruct (List.filter _ _) as [|event rest]; [done|].
  destruct (Search.is_monthly lower _ _); [done|].
  by destruct (potential_weekly_of _) as [e|[weekly|]].
Qed.

(** The kept event is an eligible, not excluded event with the most
    entrants. *)
Lemma chosen_event_largest (tournament : TournamentNode) (event : Event) :
  chosen_event tournament = Some event ->
  event ∈ tn_events tournament
  /\ Search.eligible event = true
  /\ Search.exclusion lower (tn_name tournament) (ev_name event) = None
  /\ forall other,
       other ∈ tn_events tournament ->
       Search.eligible other = true ->
       Search.exclusion lower (tn_name tournament) (ev_name other) = None ->
       Search.num_entrants other <= Search.num_entrants event.
Proof.
  unfold Search.chosen_event. intros Hchosen.
  destruct (List.filter (passes tournament) (Search.sorted_events tournament))
    as [|first rest] eqn:Hfilter; [done|].
  assert (Hfirst : first = event).
  { destruct (Search.is_monthly lower _ _); [congruence|].
    destruct (potential_weekly_of _) as [e|[weekly|]]; congruence. }
  subst first. clear Hchosen.
  assert (Hmem : forall x,
             In x (List.filter (passes tournament)
                     (Search.sorted_events tournament))
             <-> (In x (tn_events tournament) /\ Search.eligible x = true)
                 /\ passes tournament x = true).
  { intros x. rewrite filter_In. unfold Search.sorted_events.
    assert (Hperm : In x (sort_reverse_by Search.num_entrants Z.ltb
                            (List.filter Search.eligible
                               (tn_events tournament)))
                    <-> In x (List.filter Search.eligible
                                (tn_events tournament))).
    { split; apply Permutation_in;
        [|symmetry]; apply sort_reverse_by_Permutation. }
    by rewrite Hperm, filter_In. }
  assert (Hpass : forall x,
             passes tournament x = true
             <-> Search.exclusion lower (tn_name tournament) (ev_name x)
                 = None).
  { intros x. unfold Search.passes.
    by destruct (Search.exclusion lower _ _). }
  destruct (proj1 (Hmem event)) as [[Hin Hel] Hp].
  { rewrite Hfilter. by left. }
  split; [by apply list_elem_of_In|]. split; [done|].
  split; [by apply Hpass|].
  intros other Hother Helig Hexcl.
  assert (Hin' : In other (event :: rest)).
  { rewrite <- Hfilter. apply Hmem.
    split; [split; [by apply list_elem_of_In|done]|by apply Hpass]. }
  destruct Hin' as [->|Hin']; [lia|].
  pose proof (StronglySorted_filter _ (passes tournament) _
                (sort_reverse_by_descending Search.num_entrants
                   (List.filter Search.eligible (tn_events tournament))))
    as Hsorted.
  fold (Search.sorted_events tournament) in Hsorted.
  rewrite Hfilter in Hsorted.
  apply StronglySorted_inv in Hsorted as [_ Hall].
  rewrite List.Forall_forall in Hall. by apply Hall.
Qed.

(** X23. A slug that the event loop of a tournament appends is the slug
    of one of the tournament's events of type 1 for game 1386 with a
    known entrant count that no name test excludes, and no other such
    event of the tournament has more entrants. *)
Theorem appended_slug_is_largest_event (out : Search.output)
    (tournament : TournamentNode) (slug : string) :
  (tournament_step out tournament).1 = (out.1 ++ [slug])%list ->
  exists event,
    ev_slug event = slug
    /\ event ∈ tn_events tournament
    /\ Search.eligible event = true
    /\ Search.exclusion lower (tn_name tournament) (ev_name event) = None
    /\ forall other,
         other ∈ tn_events tournament ->
         Search.eligible other = true ->
         Search.exclusion lower (tn_name tournament) (ev_name other) = None ->
         Search.num_entrants other <= Search.num_entrants event.
Proof.
  rewrite tournament_step_slugs. intros Heq.
  apply app_inv_head in Heq.
  destruct (chosen_event tournament) as [event|] eqn:Hchosen; [|done].
  exists event. split; [congruence|].
  by apply chosen_event_largest.
Qed.

(** X24. [retrieve_event_slugs] on a server that answers each of its [n]
    pages with the true page count: the result lists, in the order of
    the pages and of the tournaments on them, the one kept event of
    each tournament that has one. *)
Theorem retrieve_event_slugs_result
    (fetch : Z -> search_error + PageResp TournamentNode)
    (pages : Z -> list TournamentNode) (n fuel : nat) :
  (1 <= n <= fuel)%nat ->
  (forall k, 1 <= k <= Z.of_nat n ->
             fetch k = inr (mkPageResp (pages k) (Z.of_nat n))) ->
  Search.retrieve_event_slugs lower potential_weekly_of fetch fuel
  = Some (inr (flat_map chosen_slugs
                 (concat (map pages (pages_from 1 n))))).
Proof.
  intros Hn Hfetch. unfold Search.retrieve_event_slugs.
  rewrite (paged_loop_collects_pages fetch
             (fun out nodes => fold_left tournament_step nodes out)
             pages (fun _ => Z.of_nat n) n fuel (([], []) : Search.output));
    try lia; try done.
  f_equal. f_equal.
  assert (Hfold : forall (ls : list (list TournamentNode))
                         (out : Search.output),
             fold_left (fun out nodes => fold_left tournament_step nodes out)
               ls out
             = fold_left tournament_step (concat ls) out).
  { induction ls as [|l ls IH]; intros out; simpl; [done|].
    by rewrite IH, fold_left_app. }
  by rewrite Hfold, tournament_fold_slugs.
Qed.
End EventFacts.

Lemma appended_slug_is_largest_event_witness :
  exists event,
    ev_slug event = "tournament/harbor/event/singles"
    /\ Search.num_entrants Samples5.ladder <= Search.num_entrants event.
Proof.
  destruct (appended_slug_is_largest_event ascii_lower Samples5.no_weekly
              ([], []) Samples5.harbor "tournament/harbor/event/singles")
    as (event & Hslug & _ & _ & _ & Hmax).
  - vm_compute. reflexivity.
  - exists event. split; [exact Hslug|].
    apply Hmax.
    + apply list_elem_of_further, list_elem_of_here.
    + reflexivity.
    + reflexivity.
Defined.

Lemma retrieve_event_slugs_result_witness :
  Search.retrieve_event_slugs ascii_lower Samples5.no_weekly
    Samples5.tournament_pages 4
  = Some (inr ["tournament/harbor/event/singles"]).
Proof.
  rewrite (retrieve_event_slugs_result ascii_lower Samples5.no_weekly
             Samples5.tournament_pages (fun _ => [Samples5.harbor]) 1 4).
  - vm_compute. reflexivity.
  - lia.
  - intros k Hk. assert (k = 1) as -> by lia. reflexivity.
Defined.

(** ** Tournaments of the same owner *)

Section AdminedFacts.
Variable days_before : Z -> Z -> Z.
Variable fetch : Z -> search_error + AdminResp.
Variable tournament_slug : string.
Variable day_range : Z.

Local Abbreviation admined_loop :=
  (Search.admined_loop days_before fetch tournament_slug day_range).
Local Abbreviation get_admined_tournaments :=
  (Search.get_admined_tournaments days_before fetch tournament_slug
     day_range).
Local Abbreviation gathered := (Search.gathered tournament_slug).

(** What the first response latches. *)
Local Abbreviation latch :=
  (fun resp =>
     mkLatched (adm_name resp) (adm_owner resp) (adm_startAt resp)
       (days_before day_range (adm_startAt resp))).

Lemma admined_loop_eq (fuel : nat) (page : Z) (latched : option Latched)
    (tournaments : list SearchTournament.t) :
  admined_loop (S fuel) page latched tournaments
  = match fetch page with
    | inl e => Some (inl e)
    | inr resp =>
        let l := match latched with Some l => l | None => latch resp end in
        let tournaments :=
          (tournaments
           ++ map Search.of_node
                (List.filter (gathered l) (adm_nodes resp)))%list in
        if (length (List.filter (Search.not_after resp l) (adm_nodes resp))
            =? 0)%nat
        then Some (inr (l, tournaments))
        else if page >=? adm_totalPages resp
             then Some (inr (l, tournaments))
             else admined_loop fuel (page + 1) (Some l) tournaments
    end.
Proof. reflexivity. Qed.

(** What the loop has gathered when it returns. *)
Lemma admined_loop_inv (fuel : nat) :
  forall (page : Z) (latched : option Latched)
         (ts : list SearchTournament.t) (l : Latched)
         (ts' : list SearchTournament.t),
    admined_loop fuel page latched ts = Some (inr (l, ts')) ->
    match latched with
    | Some l0 => l = l0
    | None => exists resp, fetch page = inr resp /\ l = latch resp
    end
    /\ exists extra,
         ts' = (ts ++ extra)%list
         /\ forall t,
              t ∈ extra ->
              exists k resp n,
                page <= k
                /\ fetch k = inr resp
                /\ n ∈ adm_nodes resp
                /\ gathered l n = true
                /\ t = Search.of_node n.
Proof.
  induction fuel as [|fuel IH]; intros page latched ts l ts' Hrun; [done|].
  rewrite admined_loop_eq in Hrun.
  destruct (fetch page) as [e|resp] eqn:Hfetch; [done|].
  cbn zeta in Hrun.
  set (l1 := match latched with Some l => l | None => latch resp end) in *.
  assert (Hl1 : match latched with
                | Some l0 => l1 = l0
                | None => exists resp, fetch page = inr resp /\ l1 = latch resp
                end).
  { subst l1. destruct latched; [done|]. by exists resp. }
  assert (Hhere : forall t,
             t ∈ map Search.of_node
                   (List.filter (gathered l1) (adm_nodes resp)) ->
             exists k resp n,
               page <= k /\ fetch k = inr resp /\ n ∈ adm_nodes resp
               /\ gathered l1 n = true /\ t = Search.of_node n).
  { intros t Ht. apply list_elem_of_fmap in Ht as (n & -> & Hn).
    apply list_elem_of_In, filter_In in Hn as [Hn Hg].
    exists page, resp, n. split; [lia|]. split; [done|].
    split; [by apply list_elem_of_In|]. done. }
  assert (Hstop : Some (@inr search_error _
                          (l1, (ts ++ map Search.of_node
                                        (List.filter (gathered l1)
                                           (adm_nodes resp)))%list))
                  = Some (inr (l, ts')) ->
                  match latched with
                  | Some l0 => l = l0
                  | None => exists resp, fetch page = inr resp /\ l = latch resp
                  end
                  /\ exists extra,
                       ts' = (ts ++ extra)%list
                       /\ forall t,
                            t ∈ extra ->
                            exists k resp n,
                              page <= k /\ fetch k = inr resp
                              /\ n ∈ adm_nodes resp
                              /\ gathered l n = true
                              /\ t = Search.of_node n).
  { intros Heq. assert (l1 = l) by congruence.
    assert (Hts : ts' = (ts ++ map Search.of_node
                                 (List.filter (gathered l1)
                                    (adm_nodes resp)))%list) by congruence.
    subst l. split; [done|]. eexists. split; [exact Hts|]. done. }
  rewrite Hfetch in Hl1, Hstop.
  destruct (length _ =? 0)%nat; [by apply Hstop|].
  destruct (page >=? adm_totalPages resp); [by apply Hstop|].
  apply IH in Hrun as (Hl & extra & -> & Hextra). subst l.
  split; [done|].
  exists (map Search.of_node (List.filter (gathered l1) (adm_nodes resp))
          ++ extra)%list.
  split; [by rewrite app_assoc|].
  intros t Ht. apply elem_of_app in Ht as [Ht|Ht]; [by apply Hhere|].
  destruct (Hextra t Ht) as (k & resp' & n & Hk & Hrest).
  exists k, resp', n. split; [lia|done].
Qed.

(** The loop raises only what a request raises. *)
Lemma admined_loop_error (fuel : nat) :
  forall (page : Z) (latched : option Latched)
         (ts : list SearchTournament.t) (e : search_error),
    admined_loop fuel page latched ts = Some (inl e) ->
    exists k, page <= k /\ fetch k = inl e.
Proof.
  induction fuel as [|fuel IH]; intros page latched ts e Hrun; [done|].
  rewrite admined_loop_eq in Hrun.
  destruct (fetch page) as [e0|resp] eqn:Hfetch.
  { exists page. split; [lia|congruence]. }
  cbn zeta in Hrun.
  destruct (length _ =? 0)%nat; [done|].
  destruct (page >=? adm_totalPages resp); [done|].
  apply IH in Hrun as (k & Hk & Hrun). exists k. split; [lia|done].
Qed.

(** With a bound on the announced page counts the loop returns. *)
Lemma admined_loop_returns (bound : Z) :
  (forall k resp, fetch k = inr resp -> adm_totalPages resp <= bound) ->
  forall (fuel : nat) (page : Z) (latched : option Latched)
         (ts : list SearchTournament.t),
    (1 <= fuel)%nat ->
    bound < page + Z.of_nat fuel ->
    admined_loop fuel page latched ts <> None.
Proof.
  intros Hbound.
  induction fuel as [|fuel IH]; intros page latched ts Hfuel Hpage; [lia|].
  rewrite admined_loop_eq.
  destruct (fetch page) as [e|resp] eqn:Hfetch; [done|].
  cbn zeta.
  destruct (length _ =? 0)%nat; [done|].
  destruct (Z.geb_spec page (adm_totalPages resp)); [done|].
  specialize (Hbound page resp Hfetch).
  apply IH; lia.
Qed.

(** X25. [get_admined_tournaments] returns whenever the announced page
    counts are bounded, and raises only what a request raises.  Its
    result starts with the requested tournament as the first response
    describes it; every other element comes from a node of the owner's
    list that belongs to the owner of the first response, has another
    slug, and starts inside the window that ends at the requested
    tournament's start. *)
Theorem get_admined_tournaments_window :
  (forall (bound : Z) (fuel : nat),
     (forall k resp, fetch k = inr resp -> adm_totalPages resp <= bound) ->
     (1 <= fuel)%nat ->
     bound <= Z.of_nat fuel ->
     get_admined_tournaments fuel <> None)
  /\ (forall (fuel : nat) (e : search_error),
        get_admined_tournaments fuel = Some (inl e) ->
        exists k, 1 <= k /\ fetch k = inl e)
  /\ (forall (fuel : nat) (tournaments : list SearchTournament.t),
        get_admined_tournaments fuel = Some (inr tournaments) ->
        exists resp1 rest,
          fetch 1 = inr resp1
          /\ tournaments
             = SearchTournament.init (adm_name resp1) tournament_slug
                 (adm_startAt resp1) :: rest
          /\ forall t,
               t ∈ rest ->
               SearchTournament.slug t <> tournament_slug
               /\ days_before day_range (adm_startAt resp1)
                  <= SearchTournament.start_at t <= adm_startAt resp1
               /\ SearchTournament.time_since t = SearchTournament.start_at t
               /\ exists k resp n,
                    1 <= k
                    /\ fetch k = inr resp
                    /\ n ∈ adm_nodes resp
                    /\ node_owner n = adm_owner resp1
                    /\ t = Search.of_node n).
Proof.
  split; [|split].
  - intros bound fuel Hbound Hfuel Hle. unfold Search.get_admined_tournaments.
    pose proof (admined_loop_returns bound Hbound fuel 1 None [] Hfuel) as Hret.
    destruct (admined_loop fuel 1 None []) as [[e|[l ts]]|]; [done|done|].
    exfalso. apply Hret; [lia|done].
  - intros fuel e. unfold Search.get_admined_tournaments.
    destruct (admined_loop fuel 1 None []) as [[e0|[l ts]]|] eqn:Hrun;
      [|done|done].
    intros Heq. assert (e0 = e) as -> by congruence.
    by apply admined_loop_error in Hrun.
  - intros fuel tournaments. unfold Search.get_admined_tournaments.
    destruct (admined_loop fuel 1 None []) as [[e0|[l ts]]|] eqn:Hrun;
      [done| |done].
    intros Heq.
    apply admined_loop_inv in Hrun
      as ((resp1 & Hfetch & ->) & extra & -> & Hextra).
    exists resp1, extra. split; [done|].
    split; [simpl in Heq; congruence|].
    intros t Ht.
    destruct (Hextra t Ht) as (k & resp & n & Hk & Hf & Hn & Hg & ->).
    unfold Search.gathered in Hg. simpl in Hg.
    apply andb_true_iff in Hg as [Hg Hend].
    apply andb_true_iff in Hg as [Hg Hstart].
    apply andb_true_iff in Hg as [Howner Hslug].
    apply Z.eqb_eq in Howner. apply Z.leb_le in Hstart, Hend.
    apply negb_true_iff, String.eqb_neq in Hslug.
    simpl. split; [done|]. split; [lia|]. split; [done|].
    by exists k, resp, n.
Qed.
End AdminedFacts.

Section WeeklyFacts.
Variable days_before : Z -> Z -> Z.
Variable similar : string -> string -> bool.
Variable fetch : Z -> search_error + AdminResp.
Variable tournament_slug : string.

(** X26. A tournament that [check_potential_weekly] returns has a name
    similar to the name of the requested tournament and another slug;
    its [time_since] is the time between its start and the requested
    tournament's start, which is not negative and not longer than the
    fifteen-day window. *)
Theorem check_potential_weekly_found (fuel : nat) (t : SearchTournament.t) :
  Search.check_potential_weekly days_before similar fetch tournament_slug fuel
  = Some (inr (Some t)) ->
  exists resp1,
    fetch 1 = inr resp1
    /\ similar (adm_name resp1) (SearchTournament.name t) = true
    /\ SearchTournament.slug t <> tournament_slug
    /\ SearchTournament.time_since t
       = adm_startAt resp1 - SearchTournament.start_at t
    /\ 0 <= SearchTournament.time_since t
         <= adm_startAt resp1 - days_before 15 (adm_startAt resp1).
Proof.
  unfold Search.check_potential_weekly.
  destruct (Search.get_admined_tournaments days_before fetch tournament_slug
              15 fuel) as [[e|others]|] eqn:Hget; [done| |done].
  unfold Search.get_admined_tournaments in Hget.
  destruct (Search.admined_loop days_before fetch tournament_slug 15 fuel 1
              None []) as [[e0|[l ts]]|] eqn:Hrun; [done| |done].
  apply admined_loop_inv in Hrun
    as ((resp1 & Hfetch & ->) & extra & -> & Hextra).
  assert (Hothers : others
                    = SearchTournament.init (adm_name resp1) tournament_slug
                        (adm_startAt resp1) :: extra)
    by (simpl in Hget; congruence).
  subst others. unfold Search.first_similar.
  destruct (find _ extra) as [found|] eqn:Hfind; [|done].
  intros Heq.
  assert (Ht : t = SearchTournament.set_time_since found
                     (adm_startAt resp1 - SearchTournament.start_at found))
    by (simpl in Heq; congruence).
  apply find_some in Hfind as [Hin Hsim]. simpl in Hsim.
  destruct (Hextra found) as (k & resp & n & Hk & Hf & Hn & Hg & ->).
  { by apply list_elem_of_In. }
  unfold Search.gathered in Hg. simpl in Hg.
  apply andb_true_iff in Hg as [Hg Hend].
  apply andb_true_iff in Hg as [Hg Hstart].
  apply andb_true_iff in Hg as [Howner Hslug].
  apply Z.leb_le in Hstart, Hend.
  apply negb_true_iff, String.eqb_neq in Hslug.
  exists resp1. subst t. simpl. simpl in Hsim.
  split; [done|]. split; [done|]. split; [done|]. split; [done|]. lia.
Qed.
End WeeklyFacts.

Lemma check_potential_weekly_found_witness :
  exists t,
    Search.check_potential_weekly Samples5.days_before Samples5.similar
      Samples5.admin_page "tournament/harbor-clash-12" 3
    = Some (inr (Some t))
    /\ SearchTournament.name t = "Harbor Clash 11"
    /\ 0 <= SearchTournament.time_since t.
Proof.
  eexists.
  assert (Hrun : Search.check_potential_weekly Samples5.days_before
                   Samples5.similar Samples5.admin_page
                   "tournament/harbor-clash-12" 3
                 = Some (inr (Some _))) by (vm_compute; reflexivity).
  split; [exact Hrun|]. split; [reflexivity|].
  destruct (check_potential_weekly_found _ _ _ _ _ _ Hrun)
    as (resp1 & _ & _ & _ & _ & Hpos & _).
  exact Hpos.
Defined.
